(** * Interactive STM32 quiz: the two bit-banging drivers

    A shallow embedding of [i2c.c] (HD44780 character display behind a
    PCF8574 I2C expander, 4-bit mode) and of [ws2812b.c] (single-wire
    addressable LED bit-banger), and the properties of their bus and pin
    traffic.

    Integers are [Z]; every conversion to a C fixed-width type is written out
    ([to_u8], [to_u16]).  Hardware effects are recorded as events: a driver
    function is a function from the driver's static variables to their new
    values and the list of events it produced, in order. *)

From Stdlib Require Import ZArith List Lia Bool.
From Stdlib Require Ascii String.
Import ListNotations.
Local Open Scope Z_scope.

(** ** Fixed-width conversions *)

Definition to_u8 (x : Z) : Z := x mod 256.
Definition to_u16 (x : Z) : Z := x mod 65536.

(** [0; 1; ...; n-1], the values a C counter [for (i = 0; i < n; ++i)] takes. *)
Definition upto (n : Z) : list Z := map Z.of_nat (seq 0 (Z.to_nat n)).

(** ** C strings

    A C string is the list of the bytes it points to.  The terminating NUL
    is implicit at the end of the list; a 0 inside the list terminates the
    string there, as it does in C. *)

Definition cstring := list Z.

(** [s[k]] *)
Definition char_at (s : cstring) (k : Z) : Z := nth (Z.to_nat k) s 0.

Fixpoint strlen (s : cstring) : Z :=
  match s with
  | [] => 0
  | c :: r => if c =? 0 then 0 else 1 + strlen r
  end.

(** * i2c.c / i2c.h *)

Module I2C_LCD.

(** Compile-time configuration: [LCD_COLS] and [LCD_ROWS] of i2c.h and the
    [PCF_NIBBLE_SHIFT] of i2c.c. *)
Record lcd_config : Set := {
  LCD_COLS : Z;
  LCD_ROWS : Z;
  PCF_NIBBLE_SHIFT : Z
}.

(** The configuration the repository is built with: i2c.h declares a 16x2
    display and nothing overrides the default shift of 4. *)
Definition i2c_h : lcd_config :=
  {| LCD_COLS := 16; LCD_ROWS := 2; PCF_NIBBLE_SHIFT := 4 |}.

(** The other geometry [lcd_put_cur] has a table for. *)
Definition lcd_20x4 : lcd_config :=
  {| LCD_COLS := 20; LCD_ROWS := 4; PCF_NIBBLE_SHIFT := 4 |}.

(** PCF8574 bit mapping *)
Definition P_CF_RS : Z := Z.shiftl 1 0.
Definition P_CF_RW : Z := Z.shiftl 1 1.
Definition P_CF_EN : Z := Z.shiftl 1 2.
Definition P_CF_BL : Z := Z.shiftl 1 3.
Definition P_CF_DATA : Z := 0xF0.

(** What the driver does to the outside world: a one-byte
    [HAL_I2C_Master_Transmit] on a handle to a device address, or a
    [HAL_Delay] of some milliseconds. *)
Inductive bus_event : Set :=
| I2C_Transmit (hi2c : option Z) (dev : Z) (data : Z)
| HAL_Delay (ms : Z).

(** The static variables of i2c.c.  A bus handle is [None] for [NULL]. *)
Record lcd_state : Set := {
  hi2c_lcd : option Z;
  lcd_addr : Z;
  backlight : Z
}.

(** Their initialisers. *)
Definition power_on : lcd_state :=
  {| hi2c_lcd := None; lcd_addr := 0x27; backlight := P_CF_BL |}.

(** A [void] driver function. *)
Definition io : Type := lcd_state -> lcd_state * list bus_event.

Definition skip : io := fun st => (st, []).

Definition andthen (a b : io) : io :=
  fun st =>
    let (st1, t1) := a st in
    let (st2, t2) := b st1 in
    (st2, t1 ++ t2).

Notation "a ;; b" := (andthen a b) (at level 61, right associativity).

Definition HAL_Delay_ (ms : Z) : io := fun st => (st, [HAL_Delay ms]).

Definition assign (f : lcd_state -> lcd_state) : io := fun st => (f st, []).

Definition state_after (a : io) (st : lcd_state) : lcd_state := fst (a st).
Definition trace_of (a : io) (st : lcd_state) : list bus_event := snd (a st).

Section Driver.

Variable cfg : lcd_config.

(** The status [HAL_I2C_Master_Transmit] returns is dropped by every caller,
    so only the attempt is recorded. *)
Definition pcf_write (data : Z) : io :=
  fun st =>
    (st, [I2C_Transmit (hi2c_lcd st) (to_u16 (Z.shiftl (lcd_addr st) 1)) (to_u8 data)]).

Definition lcd_pulse_enable (data : Z) : io :=
  let data := to_u8 data in
  pcf_write (Z.lor data P_CF_EN) ;;
  HAL_Delay_ 1 ;;
  pcf_write (Z.land data (Z.lnot P_CF_EN)) ;;
  HAL_Delay_ 1.

Definition lcd_write_nibble (nibble ctrl : Z) : io :=
  fun st =>
    let nibble := to_u8 nibble in
    let ctrl := to_u8 ctrl in
    let out := to_u8 (Z.land (Z.shiftl (Z.land nibble 0x0F) (PCF_NIBBLE_SHIFT cfg)) 0xFF) in
    let out := to_u8 (Z.lor out (Z.lor (Z.land ctrl (Z.lor P_CF_RS P_CF_RW)) (backlight st))) in
    (pcf_write out ;; lcd_pulse_enable out) st.

Definition lcd_send_cmd (cmd : Z) : io :=
  let cmd := to_u8 cmd in
  let ctrl := 0 in
  lcd_write_nibble (Z.land (Z.shiftr cmd 4) 0x0F) ctrl ;;
  lcd_write_nibble (Z.land (Z.shiftr cmd 0) 0x0F) ctrl ;;
  HAL_Delay_ 2.

Definition lcd_send_data (data : Z) : io :=
  let data := to_u8 data in
  let ctrl := P_CF_RS in
  lcd_write_nibble (Z.land (Z.shiftr data 4) 0x0F) ctrl ;;
  lcd_write_nibble (Z.land (Z.shiftr data 0) 0x0F) ctrl ;;
  HAL_Delay_ 1.

Definition lcd_init (hi2c : option Z) (addr7bit : Z) : io :=
  assign (fun _ =>
    {| hi2c_lcd := hi2c;
       lcd_addr := to_u8 (Z.land (to_u8 addr7bit) 0x7F);
       backlight := P_CF_BL |}) ;;
  HAL_Delay_ 50 ;;
  lcd_write_nibble 0x03 0 ;; HAL_Delay_ 5 ;;
  lcd_write_nibble 0x03 0 ;; HAL_Delay_ 5 ;;
  lcd_write_nibble 0x03 0 ;; HAL_Delay_ 2 ;;
  lcd_write_nibble 0x02 0 ;; HAL_Delay_ 2 ;;
  (let func := 0x20 in
   let func := if LCD_ROWS cfg >? 1 then to_u8 (Z.lor func 0x08) else func in
   lcd_send_cmd (Z.lor func 0x00)) ;;
  lcd_send_cmd 0x0C ;;
  lcd_send_cmd 0x01 ;; HAL_Delay_ 2 ;;
  lcd_send_cmd 0x06.

Definition lcd_clear : io :=
  lcd_send_cmd 0x01 ;;
  HAL_Delay_ 2.

Definition lcd_put_cur (row col : Z) : io :=
  let row := to_u8 row in
  let col := to_u8 col in
  let row := if row >=? LCD_ROWS cfg then to_u8 (LCD_ROWS cfg - 1) else row in
  let col := if col >=? LCD_COLS cfg then to_u8 (LCD_COLS cfg - 1) else col in
  let addr :=
    if (LCD_ROWS cfg =? 2) && (LCD_COLS cfg =? 16) then
      let addr := if row =? 0 then 0x00 else 0x40 in
      to_u8 (addr + col)
    else if (LCD_ROWS cfg =? 4) && (LCD_COLS cfg =? 20) then
      if row =? 0 then to_u8 (0x00 + col)
      else if row =? 1 then to_u8 (0x40 + col)
      else if row =? 2 then to_u8 (0x14 + col)
      else if row =? 3 then to_u8 (0x54 + col)
      else to_u8 (0x00 + col)
    else
      let addr := if row =? 0 then 0x00 else 0x40 in
      to_u8 (addr + col) in
  lcd_send_cmd (Z.lor 0x80 addr).

Fixpoint lcd_send_string (str : cstring) : io :=
  match str with
  | [] => skip
  | c :: rest =>
      if c =? 0 then skip
      else lcd_send_data c ;; lcd_send_string rest
  end.

Definition lcd_backlight_on : io :=
  assign (fun st =>
    {| hi2c_lcd := hi2c_lcd st; lcd_addr := lcd_addr st; backlight := P_CF_BL |}) ;;
  (fun st => pcf_write (backlight st) st).

Definition lcd_backlight_off : io :=
  assign (fun st =>
    {| hi2c_lcd := hi2c_lcd st; lcd_addr := lcd_addr st; backlight := 0 |}) ;;
  (fun st => pcf_write (backlight st) st).

(** [lcd_ascii_test]: the row loop runs [r = 0 .. LCD_ROWS-1]; [buf] holds
    at most 31 characters. *)
Definition ascii_test_row (r : Z) : io :=
  let start := 32 in
  let base := start + r * LCD_COLS cfg in
  let len := LCD_COLS cfg in
  let len := if len >? 32 - 1 then 32 - 1 else len in
  let buf := map (fun i => to_u8 (base + i)) (upto len) in
  lcd_put_cur r 0 ;;
  lcd_send_string buf.

Definition lcd_ascii_test : io :=
  fold_right (fun r k => ascii_test_row r ;; k) skip (upto (LCD_ROWS cfg)).

(** The copy loop of [lcd_show_wrapped]:
    [for (i = 0; i < LCD_COLS && s[offset+i] != '\0'; ++i) tmp[i] = s[offset+i];]
    It is entered with [n = LCD_COLS] iterations left at most; the result is
    the string left in [tmp] and the final [i]. *)
Fixpoint copy_chunk (n : nat) (s : cstring) (offset i : Z) (tmp : cstring)
  : cstring * Z :=
  match n with
  | O => (tmp, i)
  | S n' =>
      if (i <? LCD_COLS cfg) && negb (char_at s (offset + i) =? 0)
      then copy_chunk n' s offset (i + 1) (tmp ++ [char_at s (offset + i)])
      else (tmp, i)
  end.

(** The row loop of [lcd_show_wrapped], entered at row [r] with [n] rows
    left at most. *)
Fixpoint show_rows (n : nat) (s : cstring) (r : Z) : io :=
  match n with
  | O => skip
  | S n' =>
      if r <? LCD_ROWS cfg then
        let offset := r * LCD_COLS cfg in
        let (tmp, i) := copy_chunk (Z.to_nat (LCD_COLS cfg)) s offset 0 [] in
        lcd_put_cur r 0 ;;
        lcd_send_string tmp ;;
        (if char_at s (offset + i) =? 0 then skip
         else show_rows n' s (r + 1))
      else skip
  end.

Definition lcd_show_wrapped (s : cstring) : io :=
  show_rows (Z.to_nat (LCD_ROWS cfg)) s 0.

(** The window loop of [lcd_scroll_line], entered at [start] with [n]
    windows left at most. *)
Fixpoint scroll_windows (n : nat) (row : Z) (text : cstring) (delay_ms len start : Z)
  : io :=
  match n with
  | O => skip
  | S n' =>
      if start <=? len - LCD_COLS cfg then
        let buf := map (fun i => char_at text (start + i)) (upto (LCD_COLS cfg)) in
        lcd_put_cur row 0 ;;
        lcd_send_string buf ;;
        HAL_Delay_ (to_u16 delay_ms) ;;
        scroll_windows n' row text delay_ms len (start + 1)
      else skip
  end.

Definition lcd_scroll_line (row : Z) (text : cstring) (delay_ms : Z) : io :=
  let len := strlen text in
  if len <=? LCD_COLS cfg then
    lcd_put_cur row 0 ;;
    lcd_send_string text
  else
    scroll_windows (Z.to_nat (len - LCD_COLS cfg + 1)) row text delay_ms len 0.

End Driver.

(** The public operations, as a caller issues them. *)
Inductive lcd_op : Set :=
| Op_init (hi2c : option Z) (addr7bit : Z)
| Op_clear
| Op_put_cur (row col : Z)
| Op_send_string (str : cstring)
| Op_backlight_on
| Op_backlight_off
| Op_ascii_test
| Op_show_wrapped (s : cstring)
| Op_scroll_line (row : Z) (text : cstring) (delay_ms : Z).

Definition run_op (cfg : lcd_config) (op : lcd_op) : io :=
  match op with
  | Op_init h a => lcd_init cfg h a
  | Op_clear => lcd_clear cfg
  | Op_put_cur r c => lcd_put_cur cfg r c
  | Op_send_string s => lcd_send_string cfg s
  | Op_backlight_on => lcd_backlight_on
  | Op_backlight_off => lcd_backlight_off
  | Op_ascii_test => lcd_ascii_test cfg
  | Op_show_wrapped s => lcd_show_wrapped cfg s
  | Op_scroll_line r t d => lcd_scroll_line cfg r t d
  end.

Fixpoint run_ops (cfg : lcd_config) (ops : list lcd_op) : io :=
  match ops with
  | [] => skip
  | op :: rest => run_op cfg op ;; run_ops cfg rest
  end.

(** ** The display's side of the bus

    What follows describes the traffic as the PCF8574 and the HD44780 see
    it, to state what a trace means; none of it is driver code. *)

(** The event of one [pcf_write] of byte [d] in state [st]. *)
Definition tx (st : lcd_state) (d : Z) : bus_event :=
  I2C_Transmit (hi2c_lcd st) (to_u16 (Z.shiftl (lcd_addr st) 1)) d.

(** One nibble transfer: the expander byte [o] is presented with EN low,
    then EN is pulsed once around it (written set, held, written cleared,
    held). *)
Definition nibble_frame (st : lcd_state) (o : Z) : list bus_event :=
  [tx st o; tx st (o + 4); HAL_Delay 1; tx st o; HAL_Delay 1].

(** The bytes the expander puts on its pins, in order. *)
Definition tx_bytes (evs : list bus_event) : list Z :=
  flat_map (fun e => match e with
                     | I2C_Transmit _ _ d => [d]
                     | HAL_Delay _ => []
                     end) evs.

(** The expander outputs at each falling edge of EN (bit 2), which is when
    the controller latches a nibble; [prev] is the byte on the pins before
    the first of [bytes]. *)
Fixpoint latched (prev : Z) (bytes : list Z) : list Z :=
  match bytes with
  | [] => []
  | d :: rest =>
      if Z.testbit prev 2 && negb (Z.testbit d 2)
      then prev :: latched d rest
      else latched d rest
  end.

(** What the controller receives in 4-bit mode: an instruction (RS low) or
    a character (RS high), assembled from two latched nibbles on P4..P7,
    high nibble first. *)
Inductive lcd_word : Set :=
| Cmd (b : Z)
| Data (b : Z).

Fixpoint words (nibbles : list Z) : list lcd_word :=
  match nibbles with
  | h :: l :: rest =>
      (if Z.testbit h 0 then Data else Cmd) (16 * Z.shiftr h 4 + Z.shiftr l 4)
        :: words rest
  | _ => []
  end.

Definition received (evs : list bus_event) : list lcd_word :=
  words (latched 0 (tx_bytes evs)).

(** The DDRAM base address of each row, for the two geometries the source
    tabulates. *)
Definition row_base_16x2 : list Z := [0x00; 0x40].
Definition row_base_20x4 : list Z := [0x00; 0x40; 0x14; 0x54].

(** The stored backlight flag holds one of its two legal values. *)
Definition flag_ok (st : lcd_state) : Prop :=
  backlight st = 0 \/ backlight st = P_CF_BL.

(** The byte on the expander pins after a trace, [prev] being the byte
    before it. *)
Definition pins_after (prev : Z) (evs : list bus_event) : Z :=
  last (tx_bytes evs) prev.

(** An emitted byte carries the value [flag] on its backlight bit. *)
Definition bl_event (flag : Z) (e : bus_event) : Prop :=
  match e with
  | I2C_Transmit _ _ d => Z.land d P_CF_BL = flag
  | HAL_Delay _ => True
  end.

(** The operations whose source text assigns [backlight]. *)
Definition assigns_backlight (op : lcd_op) : bool :=
  match op with
  | Op_init _ _ | Op_backlight_on | Op_backlight_off => true
  | _ => false
  end.

(** An action that leaves the statics alone and emits only bytes whose
    backlight bit is the stored flag. *)
Definition transparent (a : io) : Prop :=
  forall st, flag_ok st ->
    state_after a st = st /\ Forall (bl_event (backlight st)) (trace_of a st).

(** The string proper: the bytes before the first NUL. *)
Definition chars (s : cstring) : cstring := firstn (Z.to_nat (strlen s)) s.

(** The [r]-th chunk of [w] characters. *)
Definition chunk (w : Z) (s : cstring) (r : Z) : cstring :=
  firstn (Z.to_nat w) (skipn (Z.to_nat (r * w)) s).

(** ** Further observations on the bus *)

(** An emitted byte goes out on handle [h] to device address [dev]. *)
Definition bound_to (h : option Z) (dev : Z) (e : bus_event) : Prop :=
  match e with
  | I2C_Transmit h' dev' _ => h' = h /\ dev' = dev
  | HAL_Delay _ => True
  end.

(** An action that leaves the bus binding alone and talks to the bound
    device only. *)
Definition keeps_binding (a : io) : Prop :=
  forall st,
    hi2c_lcd (state_after a st) = hi2c_lcd st /\
    lcd_addr (state_after a st) = lcd_addr st /\
    Forall (bound_to (hi2c_lcd st) (to_u16 (Z.shiftl (lcd_addr st) 1)))
           (trace_of a st).

Definition is_init (op : lcd_op) : bool :=
  match op with
  | Op_init _ _ => true
  | _ => false
  end.

(** A trace that leaves EN low and has made the controller latch an even
    number of nibbles: whatever follows it is received on its own. *)
Definition balanced (t : list bus_event) : bool :=
  negb (Z.testbit (pins_after 0 t) 2) &&
  Nat.even (length (latched 0 (tx_bytes t))).

(** An action that makes the controller receive the words [ws] whatever
    the state it starts in and whatever follows it. *)
Definition shows (a : io) (ws : list lcd_word) : Prop :=
  forall st rest, flag_ok st ->
    flag_ok (state_after a st) /\
    received (trace_of a st ++ rest) = ws ++ received rest.

Definition framed (a : io) : Prop := exists ws, shows a ws.

(** Time spent in [HAL_Delay], in milliseconds, and number of bus
    transmissions. *)
Fixpoint blocked_ms (evs : list bus_event) : Z :=
  match evs with
  | [] => 0
  | HAL_Delay ms :: rest => ms + blocked_ms rest
  | I2C_Transmit _ _ _ :: rest => blocked_ms rest
  end.

(** The [k]-th window of [w] characters of a text. *)
Definition window (w : Z) (s : cstring) (k : Z) : cstring :=
  firstn (Z.to_nat w) (skipn (Z.to_nat k) s).

End I2C_LCD.

(** * ws2812b.c *)

Module WS2812B.

(** Timing values for the WS2812 (in nanoseconds) *)
Definition T0H : Z := 350.
Definition T1H : Z := 700.
Definition T0L : Z := 800.
Definition T1L : Z := 600.

Inductive GPIO_PinState : Set := GPIO_PIN_RESET | GPIO_PIN_SET.

(** What [ws2812b_send] does to the outside world, on the one pin
    [WS2812B_PORT]/[WS2812B_PIN]: a pin write, a busy-wait
    [ws2812b_delay(ns)], a [HAL_Delay(ms)], and the two interrupt-mask
    instructions. *)
Inductive wire_event : Set :=
| HAL_GPIO_WritePin (s : GPIO_PinState)
| ws2812b_delay (ns : Z)
| HAL_Delay (ms : Z)
| disable_irq
| enable_irq.

(** The one bit of the core [ws2812b_send] reads and writes: PRIMASK, set
    when interrupts are masked. *)
Record cpu_state : Set := { PRIMASK : bool }.

Definition get_PRIMASK (cpu : cpu_state) : Z := Z.b2z (PRIMASK cpu).
Definition cpsid (cpu : cpu_state) : cpu_state := {| PRIMASK := true |}.
Definition cpsie (cpu : cpu_state) : cpu_state := {| PRIMASK := false |}.

(** The body of the bit loop: one bit of [cur_byte]. *)
Definition send_bit (cur_byte bit : Z) : list wire_event :=
  if negb (Z.land cur_byte (Z.shiftl 1 bit) =? 0) then
    [ HAL_GPIO_WritePin GPIO_PIN_SET; ws2812b_delay T1H;
      HAL_GPIO_WritePin GPIO_PIN_RESET; ws2812b_delay T1L ]
  else
    [ HAL_GPIO_WritePin GPIO_PIN_SET; ws2812b_delay T0H;
      HAL_GPIO_WritePin GPIO_PIN_RESET; ws2812b_delay T0L ].

(** [for (int8_t bit = 7; bit >= 0; bit--)], entered at [bit] with [n]
    iterations left at most. *)
Fixpoint send_bits (n : nat) (cur_byte bit : Z) : list wire_event :=
  match n with
  | O => []
  | S n' =>
      if bit >=? 0 then send_bit cur_byte bit ++ send_bits n' cur_byte (bit - 1)
      else []
  end.

(** How a run of the byte loop ends: it leaves the loop having produced
    some events, it is still running when the fuel is spent, or it reads
    outside [led_buffer]. *)
Inductive loop_result : Set :=
| Finished (evs : list wire_event)
| OutOfFuel
| OutOfBounds.

(** [for (uint16_t i = 0; i < led_count * 3; i++)], entered at [i].  The
    bound is an [int]; the counter is 16 bits wide and wraps. *)
Fixpoint send_bytes (fuel : nat) (led_buffer : list Z) (bound i : Z) : loop_result :=
  match fuel with
  | O => OutOfFuel
  | S fuel' =>
      if i <? bound then
        match nth_error led_buffer (Z.to_nat i) with
        | None => OutOfBounds
        | Some b =>
            let cur_byte := to_u8 b in
            match send_bytes fuel' led_buffer bound (to_u16 (i + 1)) with
            | Finished evs => Finished (send_bits 8 cur_byte 7 ++ evs)
            | r => r
            end
        end
      else Finished []
  end.

Inductive outcome : Set :=
| Returned (cpu : cpu_state) (wire : list wire_event)
| NoReturn
| BadRead.

Definition ws2812b_send (fuel : nat) (led_buffer : list Z) (led_count : Z)
  (cpu : cpu_state) : outcome :=
  let led_count := to_u16 led_count in
  let irq_state := get_PRIMASK cpu in
  let cpu := cpsid cpu in
  match send_bytes fuel led_buffer (led_count * 3) 0 with
  | Finished evs =>
      let tail := [ HAL_GPIO_WritePin GPIO_PIN_RESET; HAL_Delay 1 ] in
      if irq_state =? 0
      then Returned (cpsie cpu) ([disable_irq] ++ evs ++ tail ++ [enable_irq])
      else Returned cpu ([disable_irq] ++ evs ++ tail)
  | OutOfFuel => NoReturn
  | OutOfBounds => BadRead
  end.

(** ** The LED's side of the wire

    What follows describes the waveform, to state what a trace means; none
    of it is driver code. *)

(** One timed bit pulse: the line goes high, stays high for the time that
    encodes the bit, goes low and stays low for the rest of the bit. *)
Definition pulse (v : bool) : list wire_event :=
  [ HAL_GPIO_WritePin GPIO_PIN_SET; ws2812b_delay (if v then T1H else T0H);
    HAL_GPIO_WritePin GPIO_PIN_RESET; ws2812b_delay (if v then T1L else T0L) ].

(** The pulses of one byte, most significant bit first, and of a buffer. *)
Definition byte_waveform (b : Z) : list wire_event :=
  flat_map (fun k => pulse (Z.testbit b k)) [7; 6; 5; 4; 3; 2; 1; 0].

Definition waveform (buf : list Z) : list wire_event :=
  flat_map byte_waveform buf.

(** Number of rising edges, that is of bit pulses, in a trace. *)
Fixpoint rising_edges (evs : list wire_event) : Z :=
  match evs with
  | [] => 0
  | HAL_GPIO_WritePin GPIO_PIN_SET :: rest => 1 + rising_edges rest
  | _ :: rest => rising_edges rest
  end.

(** Total busy-waited time of a trace, in nanoseconds. *)
Fixpoint busy_ns (evs : list wire_event) : Z :=
  match evs with
  | [] => 0
  | ws2812b_delay ns :: rest => ns + busy_ns rest
  | _ :: rest => busy_ns rest
  end.

(** The trace touches the interrupt mask nowhere. *)
Definition irq_untouched (evs : list wire_event) : Prop :=
  ~ In disable_irq evs /\ ~ In enable_irq evs.

(** ** The busy-wait *)

Definition to_u32 (x : Z) : Z := x mod 4294967296.

(** [NS_TO_CYCLES(n)], that is [(n) * SystemCoreClock / 1000000000UL].  Both
    factors are [uint32_t] and [unsigned long] is 32 bits wide on the
    Cortex-M4, so the product is taken modulo 2^32 before it is divided.
    [SystemCoreClock] is the HAL's variable holding the core clock in Hz;
    it is a parameter here. *)
Definition NS_TO_CYCLES (SystemCoreClock n : Z) : Z :=
  to_u32 (n * SystemCoreClock) / 1000000000.

(** [while (cycles--) __NOP();], counting the [__NOP]s executed. *)
Fixpoint delay_loop (fuel : nat) (cycles : Z) : option Z :=
  match fuel with
  | O => None
  | S fuel' =>
      if cycles =? 0 then Some 0
      else option_map Z.succ (delay_loop fuel' (to_u32 (cycles - 1)))
  end.

(** The body of [ws2812b_delay(ns)]: the number of [__NOP]s it executes. *)
Definition ws2812b_delay_nops (fuel : nat) (SystemCoreClock ns : Z) : option Z :=
  let ns := to_u32 ns in
  let cycles := to_u32 (NS_TO_CYCLES SystemCoreClock ns / 2) in
  delay_loop fuel cycles.

End WS2812B.

(** * main.c *)

Module MAIN.

Import WS2812B.

(** ** The buzzer *)

(** What the sound functions do to the outside world: a write to the
    buzzer pin, one [__NOP], a [HAL_Delay]. *)
Inductive tone_event : Set :=
| Buzzer (s : GPIO_PinState)
| NOP
| Wait (ms : Z).

(** [for (t = 0; t < 250; ++t) __NOP();] *)
Definition nop_loop : list tone_event := map (fun _ => NOP) (upto 250).

(** One turn of the cycle loop of [play_tone]. *)
Definition tone_cycle : list tone_event :=
  [Buzzer GPIO_PIN_SET] ++ nop_loop ++ [Buzzer GPIO_PIN_RESET] ++ nop_loop.

Definition play_tone (freq duration_ms : Z) : list tone_event :=
  let freq := to_u32 freq in
  let duration_ms := to_u32 duration_ms in
  if freq =? 0 then [Wait duration_ms]
  else
    let cycles := to_u32 (to_u32 (freq * duration_ms) / 1000) in
    flat_map (fun _ => tone_cycle) (upto cycles).

Definition correct_sound : list tone_event :=
  play_tone 2000 450 ++ [Wait 200] ++ play_tone 1000 450.

Definition wrong_sound : list tone_event :=
  play_tone 900 4000.

(** Number of times the buzzer pin is raised. *)
Fixpoint buzzer_pulses (evs : list tone_event) : Z :=
  match evs with
  | [] => 0
  | Buzzer GPIO_PIN_SET :: rest => 1 + buzzer_pulses rest
  | _ :: rest => buzzer_pulses rest
  end.

(** ** Reading an answer from the UART

    [uart] is the sequence of bytes still to arrive on the line.
    [HAL_UART_Receive] is called with [HAL_MAX_DELAY] and its status is
    dropped: it is taken to deliver the next byte, and to block for ever
    when none is left ([None]). *)

(** [m[i] = v], inside the buffer. *)
Definition store (m : list Z) (i v : Z) : list Z :=
  firstn (Z.to_nat i) m ++ v :: skipn (S (Z.to_nat i)) m.

Definition rx_size : Z := 32.

(** The receive loop of [main], entered at [idx] with [n] turns left at
    most; the result is the buffer, the final [idx] and what is left of the
    line. *)
Fixpoint receive_loop (n : nat) (rx_buffer : list Z) (idx : Z) (uart : list Z)
  : option (list Z * Z * list Z) :=
  match n with
  | O => None
  | S n' =>
      if idx <? rx_size - 1 then
        match uart with
        | [] => None
        | b :: uart' =>
            let ch := to_u8 b in
            if (ch =? 13) || (ch =? 10) then Some (rx_buffer, idx, uart')
            else receive_loop n' (store rx_buffer idx ch) (idx + 1) uart'
        end
      else Some (rx_buffer, idx, uart)
  end.

(** Steps 2 of the main loop: [memset], the receive loop and the
    terminating NUL.  The result is [rx_buffer] and what is left of the
    line. *)
Definition read_answer (uart : list Z) : option (list Z * list Z) :=
  let rx_buffer := map (fun _ => 0) (upto rx_size) in
  match receive_loop (Z.to_nat rx_size) rx_buffer 0 uart with
  | None => None
  | Some (rx_buffer, idx, uart') => Some (store rx_buffer idx 0, uart')
  end.

Definition is_eol (b : Z) : bool := (to_u8 b =? 13) || (to_u8 b =? 10).

(** ** Checking an answer

    A [char] buffer is the list of its bytes.  [isspace], [tolower] and
    [strcasecmp] belong to the C library, not to this program: they are
    parameters. *)

(** [memmove(m + dst, m + src, n)], inside the buffer. *)
Definition memmove (m : list Z) (dst src n : Z) : list Z :=
  firstn (Z.to_nat dst) m
    ++ firstn (Z.to_nat n) (skipn (Z.to_nat src) m)
    ++ skipn (Z.to_nat (dst + n)) m.

(** [strncpy(dst, src, n)]: at most [n] characters of [src], then NULs up
    to [n] bytes. *)
Definition strncpy (dst : list Z) (src : cstring) (n : Z) : list Z :=
  let copied := firstn (Z.to_nat n) (I2C_LCD.chars src) in
  copied ++ repeat 0 (Z.to_nat n - length copied) ++ skipn (Z.to_nat n) dst.

Section Libc.

Variable isspace : Z -> bool.
Variable tolower : Z -> Z.
Variable strcasecmp : cstring -> cstring -> Z.

(** The first loop of [str_trim]: [p] advances while it points at a
    character that is not NUL and is a space; [p] is an index into [s] and
    [n] the turns left at most. *)
Fixpoint skip_spaces (n : nat) (s : list Z) (p : Z) : Z :=
  match n with
  | O => p
  | S n' =>
      if negb (char_at s p =? 0) && isspace (to_u8 (char_at s p))
      then skip_spaces n' s (p + 1)
      else p
  end.

(** The last loop of [str_trim]: while [len > 0] and [s[len - 1]] is a
    space, that character is overwritten with NUL and [len] decremented. *)
Fixpoint strip_tail (n : nat) (s : list Z) (len : Z) : list Z :=
  match n with
  | O => s
  | S n' =>
      if (len >? 0) && isspace (to_u8 (char_at s (len - 1)))
      then strip_tail n' (store s (len - 1) 0) (len - 1)
      else s
  end.

Definition str_trim (s : list Z) : list Z :=
  let p := skip_spaces (length s) s 0 in
  let s := if negb (p =? 0)
           then memmove s 0 p (strlen (skipn (Z.to_nat p) s) + 1)
           else s in
  let len := strlen s in
  strip_tail (Z.to_nat len) s len.

(** The loop of [str_tolower_inplace], at index [i]: up to the NUL, each
    character is replaced by its [tolower]. *)
Fixpoint lower_loop (n : nat) (s : list Z) (i : Z) : list Z :=
  match n with
  | O => s
  | S n' =>
      if char_at s i =? 0 then s
      else lower_loop n' (store s i (to_u8 (tolower (to_u8 (char_at s i))))) (i + 1)
  end.

Definition str_tolower_inplace (s : list Z) : list Z :=
  lower_loop (length s) s 0.

(** The candidate loop of [is_answer_correct] over one row of
    [answers_variants]; [None] is the [NULL] pointer. *)
Fixpoint match_candidates (tmp : list Z) (row : list (option cstring)) : Z :=
  match row with
  | [] => 0
  | None :: _ => 0
  | Some cand :: rest =>
      if strcasecmp tmp cand =? 0 then 1 else match_candidates tmp rest
  end.

(** [is_answer_correct(user_in, idx)] against a table of answers.  [tmp0]
    is what the 64 bytes of [tmp] hold on entry.  An [idx] outside the
    table has no row to read: [None]. *)
Definition is_answer_correct (answers : list (list (option cstring)))
  (tmp0 : list Z) (user_in : cstring) (idx : Z) : option Z :=
  let tmp := strncpy tmp0 user_in (64 - 1) in
  let tmp := store tmp (64 - 1) 0 in
  let tmp := str_trim tmp in
  let tmp := str_tolower_inplace tmp in
  if idx <? 0 then None
  else
    match nth_error answers (Z.to_nat idx) with
    | None => None
    | Some row => Some (match_candidates tmp (firstn 3 row))
    end.

End Libc.

(** What the functions are meant to compute, on plain lists. *)

Fixpoint drop_spaces (isspace : Z -> bool) (l : list Z) : list Z :=
  match l with
  | [] => []
  | c :: r => if isspace (to_u8 c) then drop_spaces isspace r else l
  end.

Definition trimmed (isspace : Z -> bool) (l : list Z) : list Z :=
  rev (drop_spaces isspace (rev (drop_spaces isspace l))).

(** The buffer [buf] holds the string [l]: the characters of [l], none of
    them NUL, then a NUL, then whatever. *)
Definition holds (buf : list Z) (l : cstring) : Prop :=
  Forall (fun c => c <> 0) l /\ exists tail, buf = l ++ 0 :: tail.

(** The candidates of a row that the loop can reach: those before the
    first [NULL]. *)
Fixpoint reachable (row : list (option cstring)) : list cstring :=
  match row with
  | Some cand :: rest => cand :: reachable rest
  | _ => []
  end.

(** The two character classes in the "C" locale, and a [strcasecmp] that
    compares the lowercased strings. *)
Definition isspace_C (c : Z) : bool :=
  (c =? 32) || ((9 <=? c) && (c <=? 13)).

Definition tolower_C (c : Z) : Z :=
  if (65 <=? c) && (c <=? 90) then c + 32 else c.

Fixpoint strcasecmp_C (a b : cstring) : Z :=
  match a, b with
  | [], [] => 0
  | [], d :: _ => 0 - tolower_C (to_u8 d)
  | c :: _, [] => tolower_C (to_u8 c)
  | c :: a', d :: b' =>
      if c =? 0 then 0 - tolower_C (to_u8 d)
      else if tolower_C (to_u8 c) =? tolower_C (to_u8 d) then strcasecmp_C a' b'
      else tolower_C (to_u8 c) - tolower_C (to_u8 d)
  end.

(** ** The quiz data *)

Import String.StringSyntax.

(** A string literal as a C string. *)
Definition cstr (s : String.string) : cstring :=
  map (fun a => Z.of_nat (Ascii.nat_of_ascii a)) (String.list_ascii_of_string s).

Definition NUM_QUESTIONS : Z := 3.

Local Open Scope string_scope.

Definition questions : list cstring :=
  [ cstr "How many bones  do humans have?";
    cstr "Currency of the Philippines is?";
    cstr "  What is the   capital of Japan?" ].

Definition answers_variants : list (list (option cstring)) :=
  [ [ Some (cstr "206"); Some (cstr "206 bones"); None ];
    [ Some (cstr "philippine peso"); Some (cstr "peso"); Some (cstr "php") ];
    [ Some (cstr "tokyo"); None; None ] ].

Local Close Scope string_scope.

(** ** The final score screen *)

(** [memcpy(m + dst, src, n)], inside the buffer. *)
Definition memcpy (m : list Z) (dst : Z) (src : list Z) (n : Z) : list Z :=
  firstn (Z.to_nat dst) m ++ firstn (Z.to_nat n) src
    ++ skipn (Z.to_nat (dst + n)) m.

(** [snprintf(line, size, ...)] of an already formatted text: what fits in
    [size - 1] characters, and the NUL. *)
Definition snprintf (size : Z) (text : cstring) : list Z :=
  firstn (Z.to_nat (size - 1)) (I2C_LCD.chars text) ++ [0].

(** One line of [show_final_score_and_reset]: the buffer of [LCD_COLS]
    spaces and a NUL, and the line copied into its middle. *)
Definition centred_line (cols : Z) (line : list Z) : list Z :=
  let buf := store (map (fun _ => 32) (upto cols) ++ [0]) cols 0 in
  let n := strlen line in
  let pad := if n <? cols then (cols - n) / 2 else 0 in
  let n := if n >? cols then cols else n in
  memcpy buf pad line n.

Section Screen.

Import I2C_LCD.

Variable cfg : lcd_config.

(** The [%d] conversion of the C library: a parameter. *)
Variable fmt_int : Z -> cstring.

Local Open Scope string_scope.

(** [show_final_score_and_reset]: what it does on the bus, and the new
    value of [score]. *)
Definition show_final_score_and_reset (score : Z) : io * Z :=
  let line1 := snprintf (LCD_COLS cfg + 1) (cstr "Round complete") in
  let line2 := snprintf (LCD_COLS cfg + 1)
                 (app (cstr "Score: ")
                   (app (fmt_int score) (app (cstr "/") (fmt_int NUM_QUESTIONS)))) in
  let buf1 := centred_line (LCD_COLS cfg) line1 in
  let buf2 := centred_line (LCD_COLS cfg) line2 in
  (lcd_clear cfg ;;
   lcd_put_cur cfg 0 0 ;;
   lcd_send_string cfg buf1 ;;
   lcd_put_cur cfg 1 0 ;;
   lcd_send_string cfg buf2 ;;
   HAL_Delay_ 3000,
   0).

(** The two texts it formats, before they are cut to the size of their
    buffers. *)
Definition text_round_complete : cstring := cstr "Round complete".

Definition text_score (score : Z) : cstring :=
  app (cstr "Score: ") (app (fmt_int score) (app (cstr "/") (fmt_int NUM_QUESTIONS))).

Definition text_correct : cstring := cstr "Correct!".
Definition text_wrong : cstring := cstr "Wrong!".

Local Close Scope string_scope.

End Screen.

(** The text a line of the final screen is meant to show: [text] cut to
    [cols] characters, with half of the room left over, rounded down, as
    spaces before it and the rest as spaces after it. *)
Definition centred_text (cols : Z) (text : cstring) : cstring :=
  let shown := firstn (Z.to_nat cols) text in
  let room := cols - Z.of_nat (length shown) in
  repeat 32 (Z.to_nat (room / 2)) ++ shown ++ repeat 32 (Z.to_nat (room - room / 2)).

(** A [%d] conversion, for integers: decimal digits, a minus sign first
    for a negative number. *)
Fixpoint digits (fuel : nat) (n : Z) : list Z :=
  match fuel with
  | O => []
  | S fuel' =>
      if n <? 10 then [48 + n]
      else digits fuel' (n / 10) ++ [48 + n mod 10]
  end.

Definition fmt_int_C (n : Z) : cstring :=
  if n <? 0 then 45 :: digits 20 (- n) else digits 20 n.

(** ** One turn of the main loop *)

Inductive led : Set := LED_R | LED_B | LED_G.

(** What the main loop does to the outside world: traffic of the display
    driver, a write to some of the LED pins, the buzzer, a [HAL_Delay]. *)
Inductive app_event : Set :=
| Bus (e : I2C_LCD.bus_event)
| Led_Write (pins : list led) (s : GPIO_PinState)
| Sound (e : tone_event)
| Pause (ms : Z).

(** The variables a turn reads and writes: [q_index], [score], the statics
    of the display driver, and what is still to arrive on the UART. *)
Record quiz_state : Set := {
  q_index : Z;
  score : Z;
  lcd : I2C_LCD.lcd_state;
  uart : list Z
}.

Section Turn.

Import I2C_LCD.

Variable cfg : lcd_config.
Variable isspace : Z -> bool.
Variable tolower : Z -> Z.
Variable strcasecmp : cstring -> cstring -> Z.
Variable fmt_int : Z -> cstring.

(** Step 4 of the loop body, apart from the display: LEDs and sound. *)
Definition feedback (correct : Z) : list app_event :=
  if negb (correct =? 0) then
    [Led_Write [LED_R; LED_G] GPIO_PIN_SET; Led_Write [LED_B] GPIO_PIN_RESET]
      ++ map Sound correct_sound
      ++ [Pause 400; Led_Write [LED_B] GPIO_PIN_SET]
  else
    [Led_Write [LED_G; LED_B] GPIO_PIN_SET; Led_Write [LED_R] GPIO_PIN_RESET]
      ++ map Sound wrong_sound
      ++ [Pause 400; Led_Write [LED_R] GPIO_PIN_SET].

(** The body of [while (1)] in [main].  [tmp0] is what the stack holds
    where [is_answer_correct] puts its [tmp].  The turn has no result when
    the UART never delivers the end of the line, or when [q_index] is
    outside the tables. *)
Definition quiz_turn (tmp0 : list Z) (qs : quiz_state)
  : option (quiz_state * list app_event) :=
  if q_index qs <? 0 then None
  else
    match nth_error questions (Z.to_nat (q_index qs)) with
    | None => None
    | Some question =>
        let (lcd1, t1) := (lcd_clear cfg ;; lcd_show_wrapped cfg question) (lcd qs) in
        match read_answer (uart qs) with
        | None => None
        | Some (rx_buffer, uart') =>
            match is_answer_correct isspace tolower strcasecmp answers_variants
                    tmp0 rx_buffer (q_index qs) with
            | None => None
            | Some correct =>
                let (lcd2, t2) :=
                  (lcd_clear cfg ;; lcd_put_cur cfg 0 0 ;;
                   lcd_send_string cfg
                     (if negb (correct =? 0) then text_correct else text_wrong)) lcd1 in
                let score1 := if negb (correct =? 0) then score qs + 1 else score qs in
                let q1 := Z.rem (q_index qs + 1) NUM_QUESTIONS in
                let (final, score2) :=
                  if q1 =? 0 then show_final_score_and_reset cfg fmt_int score1
                  else (skip, score1) in
                let (lcd3, t3) := final lcd2 in
                Some ({| q_index := q1; score := score2; lcd := lcd3; uart := uart' |},
                      map Bus t1 ++ map Bus t2 ++ feedback correct
                        ++ map Bus t3 ++ [Pause 200])
            end
        end
    end.

(** Three turns in a row. *)
Definition quiz_round (tmp1 tmp2 tmp3 : list Z) (qs : quiz_state)
  : option (quiz_state * list app_event) :=
  match quiz_turn tmp1 qs with
  | None => None
  | Some (qs1, e1) =>
      match quiz_turn tmp2 qs1 with
      | None => None
      | Some (qs2, e2) =>
          match quiz_turn tmp3 qs2 with
          | None => None
          | Some (qs3, e3) => Some (qs3, e1 ++ e2 ++ e3)
          end
      end
  end.

End Turn.

(** The LEDs that are lit after a run of events, from those lit before:
    the LEDs are wired common-anode, a pin driven low lights its LED. *)
Fixpoint lit_after (lit : list led) (evs : list app_event) : list led :=
  match evs with
  | [] => lit
  | Led_Write pins GPIO_PIN_RESET :: rest =>
      lit_after (pins ++ lit) rest
  | Led_Write pins GPIO_PIN_SET :: rest =>
      lit_after (filter (fun l => negb (existsb (fun p =>
                   match l, p with
                   | LED_R, LED_R | LED_B, LED_B | LED_G, LED_G => true
                   | _, _ => false
                   end) pins)) lit) rest
  | _ :: rest => lit_after lit rest
  end.

End MAIN.

(** * Properties of the display driver *)

Section LcdFacts.

Import I2C_LCD.

(** ** Sequencing *)

Lemma andthen_state (a b : io) st :
  state_after (a ;; b) st = state_after b (state_after a st).
Proof.
  unfold state_after, andthen.
  destruct (a st) as [s1 t1]; simpl.
  destruct (b s1); reflexivity.
Qed.

Lemma andthen_trace (a b : io) st :
  trace_of (a ;; b) st = trace_of a st ++ trace_of b (state_after a st).
Proof.
  unfold state_after, trace_of, andthen.
  destruct (a st) as [s1 t1]; simpl.
  destruct (b s1); reflexivity.
Qed.

Lemma io_eta (a : io) st : a st = (state_after a st, trace_of a st).
Proof. unfold state_after, trace_of. destruct (a st); reflexivity. Qed.

Lemma andthen_run (a b : io) st s1 t1 s2 t2 :
  a st = (s1, t1) -> b s1 = (s2, t2) -> (a ;; b) st = (s2, t1 ++ t2).
Proof. intros Ha Hb. unfold andthen. rewrite Ha, Hb. reflexivity. Qed.

(** ** Bytes and nibbles *)

Lemma to_u8_small x : 0 <= x < 256 -> to_u8 x = x.
Proof. intros H. unfold to_u8. apply Z.mod_small; exact H. Qed.

Lemma to_u8_range x : 0 <= to_u8 x < 256.
Proof. unfold to_u8. apply Z.mod_pos_bound. lia. Qed.

Lemma high_nibble b : 0 <= b < 256 -> Z.land (Z.shiftr b 4) 0x0F = b / 16.
Proof.
  intros H. rewrite Z.shiftr_div_pow2 by lia.
  change 0x0F with (Z.ones 4). rewrite Z.land_ones by lia.
  change (2 ^ 4) with 16. apply Z.mod_small.
  split; [apply Z.div_pos; lia | apply Z.div_lt_upper_bound; lia].
Qed.

Lemma low_nibble b : Z.land (Z.shiftr b 0) 0x0F = b mod 16.
Proof.
  rewrite Z.shiftr_0_r. change 0x0F with (Z.ones 4).
  rewrite Z.land_ones by lia. reflexivity.
Qed.

Lemma nibble_cases h :
  0 <= h < 16 ->
  h = 0 \/ h = 1 \/ h = 2 \/ h = 3 \/ h = 4 \/ h = 5 \/ h = 6 \/ h = 7 \/
  h = 8 \/ h = 9 \/ h = 10 \/ h = 11 \/ h = 12 \/ h = 13 \/ h = 14 \/ h = 15.
Proof. lia. Qed.

Ltac each_nibble h H :=
  let C := fresh "C" in
  pose proof (nibble_cases h H) as C;
  repeat (destruct C as [C | C]; [subst h; clear H |]); [.. | subst h; clear H].

(** The byte [lcd_write_nibble] builds, with the default shift: the nibble
    on P4..P7, the control bit and the backlight flag below it. *)
Lemma out_byte h c bl :
  0 <= h < 16 -> (c = 0 \/ c = 1) -> (bl = 0 \/ bl = 8) ->
  to_u8 (Z.lor (to_u8 (Z.land (Z.shiftl (Z.land (to_u8 h) 0x0F) 4) 0xFF))
               (Z.lor (Z.land (to_u8 c) (Z.lor P_CF_RS P_CF_RW)) bl))
  = 16 * h + c + bl.
Proof.
  intros Hh [-> | ->] [-> | ->]; each_nibble h Hh; reflexivity.
Qed.

(** The bits of such a byte, and of the same byte with EN raised. *)
Lemma frame_bits h c bl :
  0 <= h < 16 -> (c = 0 \/ c = 1) -> (bl = 0 \/ bl = 8) ->
  let o := 16 * h + c + bl in
  to_u8 (Z.lor (to_u8 o) P_CF_EN) = o + 4 /\
  to_u8 (Z.land (to_u8 o) (Z.lnot P_CF_EN)) = o /\
  to_u8 o = o /\
  Z.testbit o 2 = false /\ Z.testbit (o + 4) 2 = true /\
  Z.testbit o 0 = (c =? 1) /\ Z.testbit (o + 4) 0 = (c =? 1) /\
  Z.shiftr o 4 = h /\ Z.shiftr (o + 4) 4 = h /\
  Z.land o P_CF_BL = bl /\ Z.land (o + 4) P_CF_BL = bl.
Proof.
  intros Hh [-> | ->] [-> | ->]; each_nibble h Hh; cbv zeta;
    repeat split; reflexivity.
Qed.

Lemma flag_ok_values st : flag_ok st -> backlight st = 0 \/ backlight st = 8.
Proof. exact (fun H => H). Qed.

(** [lcd_write_nibble] emits one nibble frame and leaves the statics alone. *)
Lemma lcd_write_nibble_frame cfg st h c :
  PCF_NIBBLE_SHIFT cfg = 4 -> flag_ok st ->
  0 <= h < 16 -> (c = 0 \/ c = 1) ->
  lcd_write_nibble cfg h c st = (st, nibble_frame st (16 * h + c + backlight st)).
Proof.
  intros Hs Hbl Hh Hc. apply flag_ok_values in Hbl.
  unfold lcd_write_nibble. rewrite Hs.
  rewrite (out_byte h c (backlight st) Hh Hc Hbl).
  destruct (frame_bits h c (backlight st) Hh Hc Hbl) as (E1 & E2 & E3 & _).
  cbv zeta in E1, E2, E3.
  unfold andthen, pcf_write, lcd_pulse_enable, andthen, pcf_write, HAL_Delay_.
  cbn [app]. rewrite E1, E2, E3. reflexivity.
Qed.

(** ** What the display receives *)

Lemma latched_prev_low p q l :
  Z.testbit p 2 = false -> Z.testbit q 2 = false -> latched p l = latched q l.
Proof.
  intros Hp Hq. destruct l as [| d l]; [reflexivity |].
  cbn [latched]. rewrite Hp, Hq. reflexivity.
Qed.

Lemma tx_bytes_app t1 t2 : tx_bytes (t1 ++ t2) = tx_bytes t1 ++ tx_bytes t2.
Proof. unfold tx_bytes. apply flat_map_app. Qed.

(** Two nibble frames and the settle delay make one received word. *)
Lemma received_two_frames st o1 o2 k rest :
  Z.testbit o1 2 = false -> Z.testbit (o1 + 4) 2 = true ->
  Z.testbit o2 2 = false -> Z.testbit (o2 + 4) 2 = true ->
  received (nibble_frame st o1 ++ nibble_frame st o2 ++ HAL_Delay k :: rest)
  = (if Z.testbit (o1 + 4) 0 then Data else Cmd)
      (16 * Z.shiftr (o1 + 4) 4 + Z.shiftr (o2 + 4) 4) :: received rest.
Proof.
  intros L1 H1 L2 H2. unfold received, nibble_frame, tx.
  cbn [app tx_bytes flat_map latched].
  change (Z.testbit 0 2) with false.
  rewrite L1, H1, L2, H2. cbn [andb negb words].
  rewrite (latched_prev_low o2 0 _ L2 eq_refl). reflexivity.
Qed.

Lemma nibble_range b : 0 <= b < 256 -> 0 <= b / 16 < 16 /\ 0 <= b mod 16 < 16.
Proof.
  intros H. split.
  - split; [apply Z.div_pos; lia | apply Z.div_lt_upper_bound; lia].
  - apply Z.mod_pos_bound. lia.
Qed.

Lemma lcd_send_cmd_frames cfg st b :
  PCF_NIBBLE_SHIFT cfg = 4 -> flag_ok st -> 0 <= b < 256 ->
  lcd_send_cmd cfg b st =
  (st, nibble_frame st (16 * (b / 16) + 0 + backlight st) ++
       nibble_frame st (16 * (b mod 16) + 0 + backlight st) ++ [HAL_Delay 2]).
Proof.
  intros Hs Hbl Hb. destruct (nibble_range b Hb) as [Hh Hl].
  unfold lcd_send_cmd. rewrite (to_u8_small b Hb), (high_nibble b Hb), low_nibble.
  eapply andthen_run; [apply lcd_write_nibble_frame; auto |].
  eapply andthen_run; [apply lcd_write_nibble_frame; auto | reflexivity].
Qed.

Lemma lcd_send_data_frames cfg st b :
  PCF_NIBBLE_SHIFT cfg = 4 -> flag_ok st -> 0 <= b < 256 ->
  lcd_send_data cfg b st =
  (st, nibble_frame st (16 * (b / 16) + 1 + backlight st) ++
       nibble_frame st (16 * (b mod 16) + 1 + backlight st) ++ [HAL_Delay 1]).
Proof.
  intros Hs Hbl Hb. destruct (nibble_range b Hb) as [Hh Hl].
  unfold lcd_send_data. rewrite (to_u8_small b Hb), (high_nibble b Hb), low_nibble.
  change P_CF_RS with 1.
  eapply andthen_run; [apply lcd_write_nibble_frame; auto |].
  eapply andthen_run; [apply lcd_write_nibble_frame; auto | reflexivity].
Qed.

(** The bytes of a two-frame transfer, seen bit by bit. *)
Lemma two_frames_bits st b c bl k :
  0 <= b < 256 -> (c = 0 \/ c = 1) -> (bl = 0 \/ bl = 8) ->
  let t := nibble_frame st (16 * (b / 16) + c + bl) ++
           nibble_frame st (16 * (b mod 16) + c + bl) ++ [HAL_Delay k] in
  map (fun o => Z.testbit o 2) (tx_bytes t) = [false; true; false; false; true; false] /\
  map (fun o => Z.shiftr o 4) (tx_bytes t)
    = [b / 16; b / 16; b / 16; b mod 16; b mod 16; b mod 16] /\
  map (fun o => Z.testbit o 0) (tx_bytes t) = repeat (c =? 1) 6 /\
  map (fun o => Z.land o P_CF_BL) (tx_bytes t) = repeat bl 6 /\
  received t = [(if c =? 1 then Data else Cmd) b].
Proof.
  intros Hb Hc Hbl. destruct (nibble_range b Hb) as [Hh Hl].
  destruct (frame_bits (b / 16) c bl Hh Hc Hbl)
    as (_ & _ & _ & A1 & A2 & A3 & A4 & A5 & A6 & A7 & A8).
  destruct (frame_bits (b mod 16) c bl Hl Hc Hbl)
    as (_ & _ & _ & B1 & B2 & B3 & B4 & B5 & B6 & B7 & B8).
  cbv zeta in *. repeat split.
  - cbn [nibble_frame tx app tx_bytes flat_map map]. rewrite A1, A2, B1, B2. reflexivity.
  - cbn [nibble_frame tx app tx_bytes flat_map map]. rewrite A5, A6, B5, B6. reflexivity.
  - cbn [nibble_frame tx app tx_bytes flat_map map repeat]. rewrite A3, A4, B3, B4. reflexivity.
  - cbn [nibble_frame tx app tx_bytes flat_map map repeat]. rewrite A7, A8, B7, B8. reflexivity.
  - rewrite (received_two_frames st _ _ k [] A1 A2 B1 B2).
    rewrite A4, A6, B6. cbn [received tx_bytes flat_map latched words].
    rewrite <- (Z.div_mod b 16) by lia. reflexivity.
Qed.

(** C1. Every 8-bit command or data byte goes out as exactly two nibble
    transfers, the high nibble first and the low nibble second; each
    transfer is followed by one enable pulse (EN written set, then written
    cleared); the register-select bit of every byte emitted is set for
    [lcd_send_data] and clear for [lcd_send_cmd].  The display thus
    receives exactly the one instruction, or the one character, sent. *)
Theorem lcd_send_byte_two_nibbles cfg st b :
  PCF_NIBBLE_SHIFT cfg = 4 -> flag_ok st -> 0 <= b < 256 ->
  let bl := backlight st in
  let hi := b / 16 in
  let lo := b mod 16 in
  let c := trace_of (lcd_send_cmd cfg b) st in
  let d := trace_of (lcd_send_data cfg b) st in
  (c = nibble_frame st (16 * hi + bl) ++ nibble_frame st (16 * lo + bl) ++ [HAL_Delay 2] /\
   d = nibble_frame st (16 * hi + 1 + bl) ++ nibble_frame st (16 * lo + 1 + bl)
         ++ [HAL_Delay 1]) /\
  (map (fun o => Z.shiftr o 4) (tx_bytes c) = [hi; hi; hi; lo; lo; lo] /\
   map (fun o => Z.shiftr o 4) (tx_bytes d) = [hi; hi; hi; lo; lo; lo]) /\
  (map (fun o => Z.testbit o 2) (tx_bytes c) = [false; true; false; false; true; false] /\
   map (fun o => Z.testbit o 2) (tx_bytes d) = [false; true; false; false; true; false]) /\
  (map (fun o => Z.testbit o 0) (tx_bytes c) = repeat false 6 /\
   map (fun o => Z.testbit o 0) (tx_bytes d) = repeat true 6) /\
  (received c = [Cmd b] /\ received d = [Data b]).
Proof.
  intros Hs Hbl Hb bl hi lo c d.
  assert (Ec : c = nibble_frame st (16 * hi + 0 + bl) ++
                   nibble_frame st (16 * lo + 0 + bl) ++ [HAL_Delay 2]).
  { unfold c, trace_of. rewrite (lcd_send_cmd_frames cfg st b Hs Hbl Hb). reflexivity. }
  assert (Ed : d = nibble_frame st (16 * hi + 1 + bl) ++
                   nibble_frame st (16 * lo + 1 + bl) ++ [HAL_Delay 1]).
  { unfold d, trace_of. rewrite (lcd_send_data_frames cfg st b Hs Hbl Hb). reflexivity. }
  apply flag_ok_values in Hbl.
  destruct (two_frames_bits st b 0 bl 2 Hb (or_introl eq_refl) Hbl)
    as (C1 & C2 & C3 & _ & C5).
  destruct (two_frames_bits st b 1 bl 1 Hb (or_intror eq_refl) Hbl)
    as (D1 & D2 & D3 & _ & D5).
  cbv zeta in *. fold hi lo in C1, C2, C3, C5, D1, D2, D3, D5.
  rewrite <- Ec in C1, C2, C3, C5. rewrite <- Ed in D1, D2, D3, D5.
  repeat split; try assumption.
  rewrite Ec. f_equal; [| f_equal]; f_equal; lia.
Qed.

Lemma lcd_send_byte_two_nibbles_witness :
  (PCF_NIBBLE_SHIFT i2c_h = 4 /\ flag_ok power_on /\ 0 <= 0x41 < 256) /\
  tx_bytes (trace_of (lcd_send_data i2c_h 0x41) power_on) = [73; 77; 73; 25; 29; 25] /\
  received (trace_of (lcd_send_cmd i2c_h 0x41) power_on) = [Cmd 0x41] /\
  received (trace_of (lcd_send_data i2c_h 0x41) power_on) = [Data 0x41].
Proof.
  assert (H1 : PCF_NIBBLE_SHIFT i2c_h = 4) by reflexivity.
  assert (H2 : flag_ok power_on) by (right; reflexivity).
  assert (H3 : 0 <= 0x41 < 256) by lia.
  split; [auto |].
  pose proof (lcd_send_byte_two_nibbles i2c_h power_on 0x41 H1 H2 H3) as H.
  cbv zeta in H. destruct H as ((_ & D) & _ & _ & _ & R).
  split; [rewrite D; reflexivity | exact R].
Defined.

(** ** Cursor positioning *)

Lemma upto_forall n (P : Z -> bool) :
  forallb P (upto n) = true -> forall x, 0 <= x < n -> P x = true.
Proof.
  intros H x Hx. rewrite forallb_forall in H. apply H.
  unfold upto. apply in_map_iff. exists (Z.to_nat x).
  split; [lia | apply in_seq; lia].
Qed.

(** The two clamping statements of [lcd_put_cur], on a [uint8_t] index. *)
Lemma clamp_min n x :
  1 <= n -> 0 <= x < 256 ->
  (if to_u8 x >=? n then to_u8 (n - 1) else to_u8 x) = Z.min x (n - 1).
Proof.
  intros Hn Hx. rewrite (to_u8_small x Hx).
  destruct (x >=? n) eqn:E.
  - apply Z.geb_le in E. rewrite to_u8_small by lia. lia.
  - rewrite Z.geb_leb in E. apply Z.leb_gt in E. lia.
Qed.

(** A tabulated row base plus a column stays a byte and leaves bit 7 free
    for the instruction code. *)
Lemma ddram_or base col :
  In base row_base_20x4 -> 0 <= col < 20 ->
  to_u8 (base + col) = base + col /\
  Z.lor 0x80 (base + col) = 0x80 + base + col /\
  0 <= 0x80 + base + col < 256.
Proof.
  intros Hb Hc.
  assert (H : (to_u8 (base + col) =? base + col) &&
              (Z.lor 0x80 (base + col) =? 0x80 + base + col) &&
              (0x80 + base + col <? 256) = true).
  { revert col Hc. apply upto_forall.
    destruct Hb as [<- | [<- | [<- | [<- | []]]]]; reflexivity. }
  rewrite !andb_true_iff, !Z.eqb_eq, Z.ltb_lt in H.
  assert (0 <= base) by (destruct Hb as [<- | [<- | [<- | [<- | []]]]]; lia).
  intuition lia.
Qed.

Lemma false_geb x n : x < n -> (x >=? n) = false.
Proof. intros H. rewrite Z.geb_leb. apply Z.leb_gt. exact H. Qed.

(** [lcd_put_cur] inside a tabulated geometry is one [lcd_send_cmd] of the
    set-DDRAM-address instruction. *)
Lemma lcd_put_cur_tabulated cfg table row col st :
  (LCD_ROWS cfg = 2 /\ LCD_COLS cfg = 16 /\ table = row_base_16x2) \/
  (LCD_ROWS cfg = 4 /\ LCD_COLS cfg = 20 /\ table = row_base_20x4) ->
  0 <= row < LCD_ROWS cfg -> 0 <= col < LCD_COLS cfg ->
  let base := nth (Z.to_nat row) table 0 in
  lcd_put_cur cfg row col st = lcd_send_cmd cfg (0x80 + base + col) st /\
  Z.lor 0x80 (base + col) = 0x80 + base + col /\
  0 <= 0x80 + base + col < 256.
Proof.
  intros [(HR & HC & ->) | (HR & HC & ->)] Hr Hc; unfold lcd_put_cur;
    rewrite HR, HC in *;
    rewrite (to_u8_small row), (to_u8_small col) by lia;
    rewrite !false_geb by lia; cbv zeta.
  - change ((2 =? 2) && (16 =? 16)) with true. cbv iota.
    assert (C : row = 0 \/ row = 1) by lia.
    destruct C as [-> | ->].
    + destruct (ddram_or 0x00 col) as (E1 & E2 & E3); [simpl; auto | lia |].
      change (0 =? 0) with true. cbv iota.
      change (nth (Z.to_nat 0) row_base_16x2 0) with 0x00.
      rewrite E1, E2. auto.
    + destruct (ddram_or 0x40 col) as (E1 & E2 & E3); [simpl; auto | lia |].
      change (1 =? 0) with false. cbv iota.
      change (nth (Z.to_nat 1) row_base_16x2 0) with 0x40.
      rewrite E1, E2. auto.
  - change ((4 =? 2) && (20 =? 16)) with false.
    change ((4 =? 4) && (20 =? 20)) with true. cbv iota.
    assert (C : row = 0 \/ row = 1 \/ row = 2 \/ row = 3) by lia.
    destruct C as [-> | [-> | [-> | ->]]].
    + destruct (ddram_or 0x00 col) as (E1 & E2 & E3); [simpl; auto | lia |].
      change (0 =? 0) with true. cbv iota.
      change (nth (Z.to_nat 0) row_base_20x4 0) with 0x00.
      rewrite E1, E2. auto.
    + destruct (ddram_or 0x40 col) as (E1 & E2 & E3); [simpl; auto | lia |].
      change (1 =? 0) with false. change (1 =? 1) with true. cbv iota.
      change (nth (Z.to_nat 1) row_base_20x4 0) with 0x40.
      rewrite E1, E2. auto.
    + destruct (ddram_or 0x14 col) as (E1 & E2 & E3); [simpl; auto | lia |].
      change (2 =? 0) with false. change (2 =? 1) with false.
      change (2 =? 2) with true. cbv iota.
      change (nth (Z.to_nat 2) row_base_20x4 0) with 0x14.
      rewrite E1, E2. auto.
    + destruct (ddram_or 0x54 col) as (E1 & E2 & E3); [simpl; auto 6 | lia |].
      change (3 =? 0) with false. change (3 =? 1) with false.
      change (3 =? 2) with false. change (3 =? 3) with true. cbv iota.
      change (nth (Z.to_nat 3) row_base_20x4 0) with 0x54.
      rewrite E1, E2. auto.
Qed.

Lemma received_cmd cfg st b :
  PCF_NIBBLE_SHIFT cfg = 4 -> flag_ok st -> 0 <= b < 256 ->
  received (trace_of (lcd_send_cmd cfg b) st) = [Cmd b].
Proof.
  intros Hs Hbl Hb. unfold trace_of.
  rewrite (lcd_send_cmd_frames cfg st b Hs Hbl Hb). cbn [snd].
  apply flag_ok_values in Hbl.
  apply (two_frames_bits st b 0 (backlight st) 2 Hb (or_introl eq_refl) Hbl).
Qed.

(** C2. Inside the declared geometry, for the two tabulated geometries,
    [lcd_put_cur] issues exactly one command byte: 0x80 OR'd with the row's
    base address (16x2: 0x00/0x40; 20x4: 0x00/0x40/0x14/0x54) plus the
    column. *)
Theorem lcd_put_cur_in_range cfg st table row col :
  (LCD_ROWS cfg = 2 /\ LCD_COLS cfg = 16 /\ table = row_base_16x2) \/
  (LCD_ROWS cfg = 4 /\ LCD_COLS cfg = 20 /\ table = row_base_20x4) ->
  0 <= row < LCD_ROWS cfg -> 0 <= col < LCD_COLS cfg ->
  let base := nth (Z.to_nat row) table 0 in
  lcd_put_cur cfg row col st = lcd_send_cmd cfg (Z.lor 0x80 (base + col)) st /\
  Z.lor 0x80 (base + col) = 0x80 + base + col /\
  (PCF_NIBBLE_SHIFT cfg = 4 -> flag_ok st ->
   received (trace_of (lcd_put_cur cfg row col) st) = [Cmd (Z.lor 0x80 (base + col))]).
Proof.
  intros G Hr Hc base.
  destruct (lcd_put_cur_tabulated cfg table row col st G Hr Hc) as (E1 & E2 & E3).
  fold base in E1, E2, E3. rewrite E2. repeat split; try assumption.
  intros Hs Hbl. unfold trace_of. rewrite E1.
  apply (received_cmd cfg st _ Hs Hbl E3).
Qed.

Lemma lcd_put_cur_in_range_witness :
  (0 <= 1 < LCD_ROWS i2c_h /\ 0 <= 3 < LCD_COLS i2c_h) /\
  lcd_put_cur i2c_h 1 3 power_on = lcd_send_cmd i2c_h 0xC3 power_on /\
  received (trace_of (lcd_put_cur i2c_h 1 3) power_on) = [Cmd 0xC3].
Proof.
  assert (G : (LCD_ROWS i2c_h = 2 /\ LCD_COLS i2c_h = 16 /\ row_base_16x2 = row_base_16x2) \/
              (LCD_ROWS i2c_h = 4 /\ LCD_COLS i2c_h = 20 /\ row_base_16x2 = row_base_20x4))
    by (left; repeat split).
  assert (Hr : 0 <= 1 < LCD_ROWS i2c_h) by (simpl; lia).
  assert (Hc : 0 <= 3 < LCD_COLS i2c_h) by (simpl; lia).
  split; [auto |].
  destruct (lcd_put_cur_in_range i2c_h power_on row_base_16x2 1 3 G Hr Hc)
    as (E & _ & R).
  split; [exact E |]. apply R; [reflexivity | right; reflexivity].
Defined.

(** C5. Whatever the row and column, [lcd_put_cur] behaves as on the
    clamped pair: a row beyond the last becomes [LCD_ROWS - 1], a column
    beyond the last becomes [LCD_COLS - 1], an index in range is kept; the
    clamped indices are in range (no wrap-around), and the call is a plain
    [lcd_send_cmd] like any other (there is no error path). *)
Theorem lcd_put_cur_clamps cfg st row col :
  1 <= LCD_ROWS cfg -> 1 <= LCD_COLS cfg ->
  0 <= row < 256 -> 0 <= col < 256 ->
  let row' := if row >=? LCD_ROWS cfg then LCD_ROWS cfg - 1 else row in
  let col' := if col >=? LCD_COLS cfg then LCD_COLS cfg - 1 else col in
  lcd_put_cur cfg row col st = lcd_put_cur cfg row' col' st /\
  0 <= row' < LCD_ROWS cfg /\ 0 <= col' < LCD_COLS cfg /\
  (exists addr, 0 <= addr < 256 /\
     lcd_put_cur cfg row col st = lcd_send_cmd cfg (Z.lor 0x80 addr) st) /\
  (forall table,
     (LCD_ROWS cfg = 2 /\ LCD_COLS cfg = 16 /\ table = row_base_16x2) \/
     (LCD_ROWS cfg = 4 /\ LCD_COLS cfg = 20 /\ table = row_base_20x4) ->
     lcd_put_cur cfg row col st
     = lcd_send_cmd cfg (Z.lor 0x80 (nth (Z.to_nat row') table 0 + col')) st).
Proof.
  intros HR HC Hr Hc row' col'.
  assert (Er : row' = Z.min row (LCD_ROWS cfg - 1)).
  { unfold row'. destruct (row >=? LCD_ROWS cfg) eqn:E.
    - apply Z.geb_le in E. lia.
    - rewrite Z.geb_leb in E. apply Z.leb_gt in E. lia. }
  assert (Ec : col' = Z.min col (LCD_COLS cfg - 1)).
  { unfold col'. destruct (col >=? LCD_COLS cfg) eqn:E.
    - apply Z.geb_le in E. lia.
    - rewrite Z.geb_leb in E. apply Z.leb_gt in E. lia. }
  assert (Rr : 0 <= row' < LCD_ROWS cfg) by lia.
  assert (Rc : 0 <= col' < LCD_COLS cfg) by lia.
  assert (E : lcd_put_cur cfg row col st = lcd_put_cur cfg row' col' st).
  { unfold lcd_put_cur. cbv zeta.
    rewrite !(clamp_min (LCD_ROWS cfg) row HR Hr).
    rewrite !(clamp_min (LCD_COLS cfg) col HC Hc).
    rewrite !(clamp_min (LCD_ROWS cfg) row') by lia.
    rewrite !(clamp_min (LCD_COLS cfg) col') by lia.
    rewrite <- Er, <- Ec.
    replace (Z.min row' (LCD_ROWS cfg - 1)) with row' by lia.
    replace (Z.min col' (LCD_COLS cfg - 1)) with col' by lia.
    reflexivity. }
  repeat split; try assumption; try lia.
  - unfold lcd_put_cur. cbv zeta.
    match goal with
    | |- exists addr, _ /\ lcd_send_cmd cfg (Z.lor 128 ?a) st = _ =>
        exists a; split; [| reflexivity]
    end.
    destruct (_ && _); [apply to_u8_range |].
    destruct (_ && _); [| apply to_u8_range].
    repeat (destruct (_ =? _)); apply to_u8_range.
  - intros table G. rewrite E.
    destruct (lcd_put_cur_tabulated cfg table row' col' st G Rr Rc) as (E1 & E2 & _).
    cbv zeta in E1, E2. rewrite E2. exact E1.
Qed.

Lemma lcd_put_cur_clamps_witness :
  (1 <= LCD_ROWS lcd_20x4 /\ 1 <= LCD_COLS lcd_20x4 /\ 0 <= 7 < 256 /\ 0 <= 99 < 256) /\
  lcd_put_cur lcd_20x4 7 99 power_on = lcd_put_cur lcd_20x4 3 19 power_on /\
  lcd_put_cur lcd_20x4 7 99 power_on = lcd_send_cmd lcd_20x4 (Z.lor 0x80 (0x54 + 19)) power_on.
Proof.
  assert (HR : 1 <= LCD_ROWS lcd_20x4) by (simpl; lia).
  assert (HC : 1 <= LCD_COLS lcd_20x4) by (simpl; lia).
  assert (Hr : 0 <= 7 < 256) by lia.
  assert (Hc : 0 <= 99 < 256) by lia.
  split; [auto |].
  destruct (lcd_put_cur_clamps lcd_20x4 power_on 7 99 HR HC Hr Hc)
    as (E & _ & _ & _ & T).
  split; [exact E |].
  apply (T row_base_20x4). right. repeat split.
Defined.

(** ** The backlight *)

(** C6 as stated fails on the start-up sequence of main.c: [lcd_init]
    leaves 0x68 on the expander (backlight on, low nibble of the entry-mode
    instruction on the data lines); [lcd_backlight_on] then writes 0x08,
    which differs from it on data bits, not on the backlight bit. *)
Lemma lcd_backlight_on_clears_data_lines :
  let start := lcd_init i2c_h (Some 1) 0x27 in
  let st := state_after start power_on in
  let before := pins_after 0 (trace_of start power_on) in
  let written := pins_after before (trace_of lcd_backlight_on st) in
  before = 0x68 /\ written = 0x08 /\
  Z.land written (Z.lnot P_CF_BL) <> Z.land before (Z.lnot P_CF_BL).
Proof.
  cbv zeta. split; [reflexivity |]. split; [reflexivity |].
  vm_compute. discriminate.
Qed.

(** C6, amended. [lcd_backlight_on] called twice in a row writes the same
    byte both times, [P_CF_BL] alone, and the second call changes neither
    the expander output nor the statics.  The byte does not depend on what
    the expander held before: every bit other than the backlight bit is
    written as 0. *)
Theorem lcd_backlight_on_idempotent st before :
  let st1 := state_after lcd_backlight_on st in
  let st2 := state_after lcd_backlight_on st1 in
  let first := trace_of lcd_backlight_on st in
  let second := trace_of lcd_backlight_on st1 in
  first = [tx st P_CF_BL] /\ second = first /\
  st2 = st1 /\
  backlight st1 = P_CF_BL /\ hi2c_lcd st1 = hi2c_lcd st /\ lcd_addr st1 = lcd_addr st /\
  pins_after before first = P_CF_BL /\
  pins_after (pins_after before first) second = pins_after before first /\
  Z.land (pins_after before first) (Z.lnot P_CF_BL) = 0.
Proof.
  cbv zeta. repeat split; reflexivity.
Qed.

Lemma transparent_skip : transparent skip.
Proof. intros st _. split; [reflexivity | constructor]. Qed.

Lemma transparent_delay ms : transparent (HAL_Delay_ ms).
Proof. intros st _. split; [reflexivity |]. repeat constructor. Qed.

Lemma transparent_andthen a b :
  transparent a -> transparent b -> transparent (a ;; b).
Proof.
  intros Ha Hb st Hst. destruct (Ha st Hst) as [Sa Ta].
  rewrite andthen_state, andthen_trace, Sa.
  destruct (Hb st Hst) as [Sb Tb]. split; [exact Sb |].
  apply Forall_app; split; assumption.
Qed.

Lemma bl_event_frame st o bl :
  Z.land o P_CF_BL = bl -> Z.land (o + 4) P_CF_BL = bl ->
  Forall (bl_event bl) (nibble_frame st o).
Proof. intros H1 H2. unfold nibble_frame, tx. repeat constructor; assumption. Qed.

Section DefaultShift.

Variable cfg : lcd_config.
Hypothesis shift4 : PCF_NIBBLE_SHIFT cfg = 4.

Lemma transparent_write_nibble h c :
  0 <= h < 16 -> (c = 0 \/ c = 1) -> transparent (lcd_write_nibble cfg h c).
Proof.
  intros Hh Hc st Hst. unfold state_after, trace_of.
  rewrite (lcd_write_nibble_frame cfg st h c shift4 Hst Hh Hc). cbn [fst snd].
  split; [reflexivity |].
  destruct (frame_bits h c (backlight st) Hh Hc (flag_ok_values st Hst))
    as (_ & _ & _ & _ & _ & _ & _ & _ & _ & B1 & B2).
  apply bl_event_frame; assumption.
Qed.

Lemma transparent_send_cmd b : transparent (lcd_send_cmd cfg b).
Proof.
  pose proof (to_u8_range b) as Hb. destruct (nibble_range _ Hb) as [Hh Hl].
  unfold lcd_send_cmd. cbv zeta. rewrite (high_nibble _ Hb), low_nibble.
  repeat apply transparent_andthen;
    auto using transparent_write_nibble, transparent_delay.
Qed.

Lemma transparent_send_data b : transparent (lcd_send_data cfg b).
Proof.
  pose proof (to_u8_range b) as Hb. destruct (nibble_range _ Hb) as [Hh Hl].
  unfold lcd_send_data. cbv zeta. rewrite (high_nibble _ Hb), low_nibble.
  change P_CF_RS with 1.
  repeat apply transparent_andthen;
    auto using transparent_write_nibble, transparent_delay.
Qed.

Lemma transparent_clear : transparent (lcd_clear cfg).
Proof.
  unfold lcd_clear.
  apply transparent_andthen; auto using transparent_send_cmd, transparent_delay.
Qed.

Lemma transparent_put_cur row col : transparent (lcd_put_cur cfg row col).
Proof. unfold lcd_put_cur. cbv zeta. apply transparent_send_cmd. Qed.

Lemma transparent_send_string str : transparent (lcd_send_string cfg str).
Proof.
  induction str as [| c rest IH]; cbn [lcd_send_string].
  - apply transparent_skip.
  - destruct (c =? 0); [apply transparent_skip |].
    apply transparent_andthen; auto using transparent_send_data.
Qed.

Lemma transparent_ascii_test : transparent (lcd_ascii_test cfg).
Proof.
  unfold lcd_ascii_test. induction (upto (LCD_ROWS cfg)) as [| r rows IH];
    cbn [fold_right].
  - apply transparent_skip.
  - apply transparent_andthen; [| exact IH]. unfold ascii_test_row. cbv zeta.
    apply transparent_andthen;
      auto using transparent_put_cur, transparent_send_string.
Qed.

Lemma transparent_show_rows n s r : transparent (show_rows cfg n s r).
Proof.
  revert r. induction n as [| n IH]; intros r; cbn [show_rows].
  - apply transparent_skip.
  - destruct (r <? LCD_ROWS cfg); [| apply transparent_skip].
    cbv zeta. destruct (copy_chunk cfg _ s _ 0 []) as [tmp i].
    apply transparent_andthen; [apply transparent_put_cur |].
    apply transparent_andthen; [apply transparent_send_string |].
    destruct (_ =? 0); [apply transparent_skip | apply IH].
Qed.

Lemma transparent_show_wrapped s : transparent (lcd_show_wrapped cfg s).
Proof. apply transparent_show_rows. Qed.

Lemma transparent_scroll_windows n row text delay_ms len start :
  transparent (scroll_windows cfg n row text delay_ms len start).
Proof.
  revert start. induction n as [| n IH]; intros start; cbn [scroll_windows].
  - apply transparent_skip.
  - destruct (start <=? len - LCD_COLS cfg); [| apply transparent_skip].
    cbv zeta.
    apply transparent_andthen; [apply transparent_put_cur |].
    apply transparent_andthen; [apply transparent_send_string |].
    apply transparent_andthen; [apply transparent_delay | apply IH].
Qed.

Lemma transparent_scroll_line row text delay_ms :
  transparent (lcd_scroll_line cfg row text delay_ms).
Proof.
  unfold lcd_scroll_line. cbv zeta. destruct (_ <=? _).
  - apply transparent_andthen;
      auto using transparent_put_cur, transparent_send_string.
  - apply transparent_scroll_windows.
Qed.

(** One public operation, from a state with a legal flag. *)
Lemma run_op_backlight op st :
  flag_ok st ->
  let st' := state_after (run_op cfg op) st in
  flag_ok st' /\
  Forall (bl_event (backlight st')) (trace_of (run_op cfg op) st) /\
  (assigns_backlight op = false -> st' = st).
Proof.
  intros Hst.
  assert (T : forall a, transparent a ->
            flag_ok (state_after a st) /\
            Forall (bl_event (backlight (state_after a st))) (trace_of a st) /\
            state_after a st = st).
  { intros a Ha. destruct (Ha st Hst) as [S T]. rewrite S. auto. }
  destruct op; cbn [run_op assigns_backlight]; cbv zeta;
    try (match goal with
         | |- context [state_after ?a st] =>
             destruct (T a) as (T1 & T2 & T3);
             [auto using transparent_clear, transparent_put_cur,
                transparent_send_string, transparent_ascii_test,
                transparent_show_wrapped, transparent_scroll_line
             | repeat split; auto ]
         end; fail).
  - (* lcd_init *)
    unfold lcd_init.
    set (st0 := {| hi2c_lcd := hi2c;
                   lcd_addr := to_u8 (Z.land (to_u8 addr7bit) 0x7F);
                   backlight := P_CF_BL |}).
    match goal with
    | |- context [assign ?f ;; ?rest] => set (body := rest)
    end.
    assert (H0 : flag_ok st0) by (right; reflexivity).
    assert (Hb : transparent body).
    { unfold body.
      repeat (apply transparent_andthen;
              [first [apply transparent_write_nibble; [lia | auto]
                     | apply transparent_delay
                     | apply transparent_send_cmd ] |]).
      apply transparent_send_cmd. }
    destruct (Hb st0 H0) as [S T0].
    rewrite andthen_state, andthen_trace.
    change (state_after (assign (fun _ => st0)) st) with st0.
    change (trace_of (assign (fun _ => st0)) st) with (@nil bus_event).
    rewrite S. cbn [app]. repeat split; [exact H0 | exact T0 | discriminate].
  - (* lcd_backlight_on *)
    repeat split; [right; reflexivity | repeat constructor | discriminate].
  - (* lcd_backlight_off *)
    repeat split; [left; reflexivity | repeat constructor | discriminate].
Qed.

Lemma run_ops_flag_ok ops st :
  flag_ok st -> flag_ok (state_after (run_ops cfg ops) st).
Proof.
  revert st. induction ops as [| op ops IH]; intros st Hst; cbn [run_ops].
  - exact Hst.
  - rewrite andthen_state. apply IH. apply (run_op_backlight op st Hst).
Qed.

End DefaultShift.

(** C10. From power-on and after any sequence of public operations, a
    further public operation leaves the stored backlight flag at [P_CF_BL]
    or 0; every expander byte it emits has its backlight bit equal to the
    flag; and unless it is [lcd_init], [lcd_backlight_on] or
    [lcd_backlight_off] it leaves the flag (and the other statics) as they
    were. *)
Theorem backlight_flag_invariant cfg ops op :
  PCF_NIBBLE_SHIFT cfg = 4 ->
  let st := state_after (run_ops cfg ops) power_on in
  let st' := state_after (run_op cfg op) st in
  (backlight st' = 0 \/ backlight st' = P_CF_BL) /\
  (forall h dev d, In (I2C_Transmit h dev d) (trace_of (run_op cfg op) st) ->
                   Z.land d P_CF_BL = backlight st') /\
  (assigns_backlight op = false -> backlight st' = backlight st).
Proof.
  intros Hs st st'.
  assert (Hst : flag_ok st).
  { apply (run_ops_flag_ok cfg Hs). right. reflexivity. }
  destruct (run_op_backlight cfg Hs op st Hst) as (H1 & H2 & H3).
  fold st' in H1, H2, H3. split; [exact H1 |]. split.
  - intros h dev d Hin. rewrite Forall_forall in H2. apply (H2 _ Hin).
  - intros Hop. rewrite (H3 Hop). reflexivity.
Qed.

Lemma backlight_flag_invariant_witness :
  let ops := [Op_init (Some 1) 0x27; Op_backlight_off; Op_clear] in
  let st := state_after (run_ops i2c_h ops) power_on in
  PCF_NIBBLE_SHIFT i2c_h = 4 /\
  backlight (state_after (run_op i2c_h (Op_show_wrapped [72; 105])) st) = backlight st /\
  forall h dev d,
    In (I2C_Transmit h dev d) (trace_of (run_op i2c_h (Op_show_wrapped [72; 105])) st) ->
    Z.land d P_CF_BL = 0.
Proof.
  cbv zeta. assert (Hs : PCF_NIBBLE_SHIFT i2c_h = 4) by reflexivity.
  split; [exact Hs |].
  destruct (backlight_flag_invariant i2c_h
              [Op_init (Some 1) 0x27; Op_backlight_off; Op_clear]
              (Op_show_wrapped [72; 105]) Hs) as (_ & B & K).
  split; [apply K; reflexivity |]. exact B.
Defined.

(** ** C strings *)

Lemma strlen_nonneg s : 0 <= strlen s.
Proof.
  induction s as [| c r IH]; cbn [strlen]; [lia |].
  destruct (c =? 0); lia.
Qed.

Lemma strlen_le_length s : strlen s <= Z.of_nat (length s).
Proof.
  induction s as [| c r IH]; cbn [strlen length]; [lia |].
  pose proof (strlen_nonneg r). destruct (c =? 0); lia.
Qed.

Lemma char_at_cons c r k : 0 <= k -> char_at (c :: r) (1 + k) = char_at r k.
Proof.
  intros Hk. unfold char_at.
  replace (Z.to_nat (1 + k)) with (S (Z.to_nat k)) by lia. reflexivity.
Qed.

Lemma char_at_strlen s : char_at s (strlen s) = 0.
Proof.
  induction s as [| c r IH]; cbn [strlen]; [reflexivity |].
  destruct (c =? 0) eqn:E.
  - apply Z.eqb_eq in E. subst c. reflexivity.
  - rewrite char_at_cons by apply strlen_nonneg. exact IH.
Qed.

Lemma char_at_nonzero s k : 0 <= k < strlen s -> char_at s k <> 0.
Proof.
  revert k. induction s as [| c r IH]; intros k Hk; cbn [strlen] in Hk; [lia |].
  destruct (c =? 0) eqn:E; [lia |].
  apply Z.eqb_neq in E.
  destruct (Z.eq_dec k 0) as [-> | Hk0]; [exact E |].
  replace k with (1 + (k - 1)) by lia.
  rewrite char_at_cons by lia. apply IH. lia.
Qed.

Lemma skipn_char_at s k :
  0 <= k < strlen s ->
  skipn (Z.to_nat k) s = char_at s k :: skipn (Z.to_nat (k + 1)) s.
Proof.
  intros Hk. pose proof (strlen_le_length s) as Hl. unfold char_at.
  replace (Z.to_nat (k + 1)) with (S (Z.to_nat k)) by lia.
  assert (Hn : (Z.to_nat k < length s)%nat) by lia.
  revert Hn. generalize (Z.to_nat k). clear.
  induction s as [| c r IH]; intros n Hn; cbn [length] in Hn; [lia |].
  destruct n as [| n]; [reflexivity |].
  cbn [skipn nth]. apply IH. lia.
Qed.

(** The string proper and the memory it sits in are written alike. *)
Lemma chars_cons c r : c <> 0 -> chars (c :: r) = c :: chars r.
Proof.
  intros Hc. unfold chars. cbn [strlen].
  apply Z.eqb_neq in Hc. rewrite Hc.
  pose proof (strlen_nonneg r).
  replace (Z.to_nat (1 + strlen r)) with (S (Z.to_nat (strlen r))) by lia.
  reflexivity.
Qed.

Lemma lcd_send_string_chars cfg s :
  lcd_send_string cfg (chars s) = lcd_send_string cfg s.
Proof.
  induction s as [| c r IH]; [reflexivity |].
  destruct (Z.eq_dec c 0) as [-> | Hc]; [reflexivity |].
  rewrite (chars_cons c r Hc). cbn [lcd_send_string]. rewrite IH. reflexivity.
Qed.

Lemma chars_nonzero s : Forall (fun c => c <> 0) (chars s).
Proof.
  induction s as [| c r IH]; [constructor |].
  destruct (Z.eq_dec c 0) as [-> | Hc]; [constructor |].
  rewrite (chars_cons c r Hc). constructor; assumption.
Qed.

Lemma chars_length s : Z.of_nat (length (chars s)) = strlen s.
Proof.
  unfold chars. pose proof (strlen_nonneg s). pose proof (strlen_le_length s).
  rewrite length_firstn. lia.
Qed.

(** ** The copy loop of [lcd_show_wrapped] *)

(** A whole row is available: the loop stops on the column count. *)
Lemma copy_chunk_full cfg n s offset i tmp :
  0 <= offset -> 0 <= i -> i + Z.of_nat n = LCD_COLS cfg ->
  offset + LCD_COLS cfg <= strlen s ->
  copy_chunk cfg n s offset i tmp
  = (tmp ++ firstn n (skipn (Z.to_nat (offset + i)) s), LCD_COLS cfg).
Proof.
  revert i tmp. induction n as [| n IH]; intros i tmp Ho Hi Hn Hs;
    cbn [copy_chunk firstn].
  - rewrite app_nil_r. f_equal. lia.
  - replace (i <? LCD_COLS cfg) with true by (symmetry; apply Z.ltb_lt; lia).
    pose proof (char_at_nonzero s (offset + i)) as Hc.
    apply Z.eqb_neq in Hc; [| lia]. rewrite Hc. cbn [andb negb].
    rewrite IH by lia. rewrite (skipn_char_at s (offset + i)) by lia.
    cbn [firstn]. rewrite <- app_assoc.
    replace (offset + (i + 1)) with (offset + i + 1) by lia. reflexivity.
Qed.

(** The string ends inside the row: the loop stops on its NUL. *)
Lemma copy_chunk_short cfg n s offset i tmp :
  0 <= offset -> 0 <= i -> offset + i <= strlen s ->
  strlen s - (offset + i) < Z.of_nat n ->
  strlen s - offset < LCD_COLS cfg ->
  copy_chunk cfg n s offset i tmp
  = (tmp ++ firstn (Z.to_nat (strlen s - (offset + i)))
                   (skipn (Z.to_nat (offset + i)) s),
     strlen s - offset).
Proof.
  revert i tmp. induction n as [| n IH]; intros i tmp Ho Hi Hs Hn Hc;
    cbn [copy_chunk]; [lia |].
  replace (i <? LCD_COLS cfg) with true by (symmetry; apply Z.ltb_lt; lia).
  destruct (Z.eq_dec (offset + i) (strlen s)) as [E | E].
  - rewrite E, char_at_strlen. cbn [andb negb Z.eqb].
    replace (strlen s - strlen s) with 0 by lia. cbn [Z.to_nat firstn].
    rewrite app_nil_r. f_equal. lia.
  - pose proof (char_at_nonzero s (offset + i)) as Hz.
    apply Z.eqb_neq in Hz; [| lia]. rewrite Hz. cbn [andb negb].
    rewrite IH by lia. rewrite (skipn_char_at s (offset + i)) by lia.
    replace (Z.to_nat (strlen s - (offset + i)))
      with (S (Z.to_nat (strlen s - (offset + (i + 1))))) by lia.
    cbn [firstn]. rewrite <- app_assoc.
    replace (offset + (i + 1)) with (offset + i + 1) by lia. reflexivity.
Qed.

Lemma andthen_skip_r (a : io) st : (a ;; skip) st = a st.
Proof.
  unfold andthen, skip. destruct (a st) as [s1 t1]. rewrite app_nil_r. reflexivity.
Qed.

Lemma andthen_ext (a b b' : io) st :
  (forall st', b st' = b' st') -> (a ;; b) st = (a ;; b') st.
Proof.
  intros H. unfold andthen. destruct (a st) as [s1 t1]. rewrite H. reflexivity.
Qed.

(** ** The loop bounds

    The three loops of the utility functions are written with an iteration
    budget; the budget each is entered with is never what stops it: any
    larger one gives the same run. *)

Lemma copy_chunk_budget cfg s offset n m :
  forall i tmp,
  LCD_COLS cfg - i <= Z.of_nat n -> LCD_COLS cfg - i <= Z.of_nat m ->
  copy_chunk cfg n s offset i tmp = copy_chunk cfg m s offset i tmp.
Proof.
  revert m. induction n as [| n IH]; intros [| m] i tmp Hn Hm; cbn [copy_chunk];
    try reflexivity.
  - replace (i <? LCD_COLS cfg) with false by (symmetry; apply Z.ltb_ge; lia).
    reflexivity.
  - replace (i <? LCD_COLS cfg) with false by (symmetry; apply Z.ltb_ge; lia).
    reflexivity.
  - destruct (_ && _); [apply IH; lia | reflexivity].
Qed.

Lemma show_rows_budget cfg s n m :
  forall r st,
  LCD_ROWS cfg - r <= Z.of_nat n -> LCD_ROWS cfg - r <= Z.of_nat m ->
  show_rows cfg n s r st = show_rows cfg m s r st.
Proof.
  revert m. induction n as [| n IH]; intros [| m] r st Hn Hm; cbn [show_rows];
    try reflexivity.
  - replace (r <? LCD_ROWS cfg) with false by (symmetry; apply Z.ltb_ge; lia).
    reflexivity.
  - replace (r <? LCD_ROWS cfg) with false by (symmetry; apply Z.ltb_ge; lia).
    reflexivity.
  - destruct (r <? LCD_ROWS cfg); [| reflexivity]. cbv zeta.
    destruct (copy_chunk cfg _ s _ 0 []) as [tmp i].
    apply andthen_ext. intros st1. apply andthen_ext. intros st2.
    destruct (_ =? 0); [reflexivity | apply IH; lia].
Qed.

Lemma scroll_windows_budget cfg row text delay_ms len n m :
  forall start st,
  len - LCD_COLS cfg - start + 1 <= Z.of_nat n ->
  len - LCD_COLS cfg - start + 1 <= Z.of_nat m ->
  scroll_windows cfg n row text delay_ms len start st
  = scroll_windows cfg m row text delay_ms len start st.
Proof.
  revert m. induction n as [| n IH]; intros [| m] start st Hn Hm;
    cbn [scroll_windows]; try reflexivity.
  - replace (start <=? len - LCD_COLS cfg) with false
      by (symmetry; apply Z.leb_gt; lia).
    reflexivity.
  - replace (start <=? len - LCD_COLS cfg) with false
      by (symmetry; apply Z.leb_gt; lia).
    reflexivity.
  - destruct (start <=? len - LCD_COLS cfg); [| reflexivity]. cbv zeta.
    apply andthen_ext. intros st1. apply andthen_ext. intros st2.
    apply andthen_ext. intros st3. apply IH; lia.
Qed.

(** These leave the statics alone whatever the configuration. *)
Lemma lcd_send_cmd_state cfg b st : state_after (lcd_send_cmd cfg b) st = st.
Proof. reflexivity. Qed.

Lemma lcd_send_data_state cfg b st : state_after (lcd_send_data cfg b) st = st.
Proof. reflexivity. Qed.

Lemma lcd_put_cur_state cfg row col st :
  state_after (lcd_put_cur cfg row col) st = st.
Proof. unfold lcd_put_cur. cbv zeta. apply lcd_send_cmd_state. Qed.

Lemma lcd_send_string_state cfg str st :
  state_after (lcd_send_string cfg str) st = st.
Proof.
  induction str as [| c rest IH]; cbn [lcd_send_string]; [reflexivity |].
  destruct (c =? 0); [reflexivity |].
  rewrite andthen_state, lcd_send_data_state. exact IH.
Qed.

(** ** What the display receives from the text operations *)

Lemma received_cmd_app cfg st b rest :
  PCF_NIBBLE_SHIFT cfg = 4 -> flag_ok st -> 0 <= b < 256 ->
  received (trace_of (lcd_send_cmd cfg b) st ++ rest) = Cmd b :: received rest.
Proof.
  intros Hs Hbl Hb. unfold trace_of.
  rewrite (lcd_send_cmd_frames cfg st b Hs Hbl Hb). cbn [snd].
  destruct (nibble_range b Hb) as [Hh Hl]. apply flag_ok_values in Hbl.
  destruct (frame_bits (b / 16) 0 _ Hh (or_introl eq_refl) Hbl)
    as (_ & _ & _ & A1 & A2 & _ & A4 & _ & A6 & _).
  destruct (frame_bits (b mod 16) 0 _ Hl (or_introl eq_refl) Hbl)
    as (_ & _ & _ & B1 & B2 & _ & _ & _ & B6 & _).
  cbv zeta in *. rewrite <- !app_assoc. cbn [app].
  rewrite (received_two_frames st _ _ 2 rest A1 A2 B1 B2).
  rewrite A4, A6, B6. cbn [Z.eqb]. rewrite <- (Z.div_mod b 16) by lia.
  reflexivity.
Qed.

Lemma received_data_app cfg st b rest :
  PCF_NIBBLE_SHIFT cfg = 4 -> flag_ok st -> 0 <= b < 256 ->
  received (trace_of (lcd_send_data cfg b) st ++ rest) = Data b :: received rest.
Proof.
  intros Hs Hbl Hb. unfold trace_of.
  rewrite (lcd_send_data_frames cfg st b Hs Hbl Hb). cbn [snd].
  destruct (nibble_range b Hb) as [Hh Hl]. apply flag_ok_values in Hbl.
  destruct (frame_bits (b / 16) 1 _ Hh (or_intror eq_refl) Hbl)
    as (_ & _ & _ & A1 & A2 & _ & A4 & _ & A6 & _).
  destruct (frame_bits (b mod 16) 1 _ Hl (or_intror eq_refl) Hbl)
    as (_ & _ & _ & B1 & B2 & _ & _ & _ & B6 & _).
  cbv zeta in *. rewrite <- !app_assoc. cbn [app].
  rewrite (received_two_frames st _ _ 1 rest A1 A2 B1 B2).
  rewrite A4, A6, B6. cbn [Z.eqb]. rewrite <- (Z.div_mod b 16) by lia.
  reflexivity.
Qed.

Lemma received_string_app cfg st str rest :
  PCF_NIBBLE_SHIFT cfg = 4 -> flag_ok st ->
  Forall (fun c => 0 < c < 256) str ->
  received (trace_of (lcd_send_string cfg str) st ++ rest)
  = map Data str ++ received rest.
Proof.
  intros Hs Hbl Hstr. induction Hstr as [| c r Hc Hr IH]; [reflexivity |].
  cbn [lcd_send_string map app].
  replace (c =? 0) with false by (symmetry; apply Z.eqb_neq; lia).
  rewrite andthen_trace, lcd_send_data_state, <- app_assoc.
  rewrite received_data_app by (auto; lia). rewrite IH. reflexivity.
Qed.

(** Positioning at the start of row 0 is the instruction 0x80 in any
    geometry with at least one cell. *)
Lemma lcd_put_cur_home cfg st :
  1 <= LCD_ROWS cfg -> 1 <= LCD_COLS cfg ->
  lcd_put_cur cfg 0 0 st = lcd_send_cmd cfg 0x80 st.
Proof.
  intros HR HC. unfold lcd_put_cur. cbv zeta. change (to_u8 0) with 0.
  rewrite !false_geb by lia. change (0 =? 0) with true. cbv iota.
  destruct (_ && _); [reflexivity |]. destruct (_ && _); reflexivity.
Qed.

Lemma chars_bytes s :
  Forall (fun c => 0 <= c < 256) (chars s) -> Forall (fun c => 0 < c < 256) (chars s).
Proof.
  intros H. pose proof (chars_nonzero s) as N.
  rewrite Forall_forall in *. intros c Hc.
  specialize (H c Hc). specialize (N c Hc). lia.
Qed.

(** C8. A string shorter than one row is written to row 0 only:
    [lcd_show_wrapped] positions the cursor at (0, 0), sends the string and
    does nothing else; the display receives the one set-address
    instruction 0x80 and then the characters of the string. *)
Theorem lcd_show_wrapped_short cfg st s :
  1 <= LCD_ROWS cfg -> strlen s < LCD_COLS cfg ->
  lcd_show_wrapped cfg s st = (lcd_put_cur cfg 0 0 ;; lcd_send_string cfg s) st /\
  (PCF_NIBBLE_SHIFT cfg = 4 -> flag_ok st ->
   Forall (fun c => 0 <= c < 256) (chars s) ->
   received (trace_of (lcd_show_wrapped cfg s) st) = Cmd 0x80 :: map Data (chars s)).
Proof.
  intros HR HC. pose proof (strlen_nonneg s) as Hs.
  assert (E : lcd_show_wrapped cfg s st
              = (lcd_put_cur cfg 0 0 ;; lcd_send_string cfg s) st).
  { unfold lcd_show_wrapped.
    destruct (Z.to_nat (LCD_ROWS cfg)) as [| n] eqn:En; [lia |].
    cbn [show_rows].
    replace (0 <? LCD_ROWS cfg) with true by (symmetry; apply Z.ltb_lt; lia).
    cbv zeta. change (0 * LCD_COLS cfg) with 0.
    rewrite (copy_chunk_short cfg _ s 0 0 []) by lia.
    change (0 + 0) with 0. cbn [Z.to_nat skipn app].
    replace (strlen s - 0) with (strlen s) by lia. fold (chars s).
    replace (0 + strlen s) with (strlen s) by lia.
    rewrite char_at_strlen. cbn [Z.eqb].
    rewrite lcd_send_string_chars.
    apply andthen_ext. intros st'. apply andthen_skip_r. }
  split; [exact E |].
  intros Hsh Hbl Hb. apply chars_bytes in Hb.
  unfold trace_of at 1. rewrite E.
  fold (trace_of (lcd_put_cur cfg 0 0 ;; lcd_send_string cfg s) st).
  rewrite andthen_trace, lcd_put_cur_state, <- lcd_send_string_chars.
  unfold trace_of at 1. rewrite lcd_put_cur_home by lia.
  fold (trace_of (lcd_send_cmd cfg 0x80) st).
  rewrite received_cmd_app by (auto; lia).
  rewrite <- (app_nil_r (trace_of (lcd_send_string cfg (chars s)) st)).
  rewrite received_string_app by auto. rewrite app_nil_r. reflexivity.
Qed.

Lemma lcd_show_wrapped_short_witness :
  (1 <= LCD_ROWS i2c_h /\ strlen [72; 105] < LCD_COLS i2c_h) /\
  received (trace_of (lcd_show_wrapped i2c_h [72; 105]) power_on)
  = [Cmd 0x80; Data 72; Data 105].
Proof.
  assert (HR : 1 <= LCD_ROWS i2c_h) by (simpl; lia).
  assert (HC : strlen [72; 105] < LCD_COLS i2c_h) by (simpl; lia).
  split; [auto |].
  destruct (lcd_show_wrapped_short i2c_h power_on [72; 105] HR HC) as (_ & R).
  apply R; [reflexivity | right; reflexivity |].
  repeat constructor; lia.
Defined.

(** ** A string that fills the display *)

Lemma firstn_add_skipn (A : Type) (a b : nat) (l : list A) :
  firstn (a + b) l = firstn a l ++ firstn b (skipn a l).
Proof.
  revert l. induction a as [| a IH]; intros l; [reflexivity |].
  destruct l as [| x l]; cbn [Nat.add firstn skipn app].
  - rewrite firstn_nil. reflexivity.
  - rewrite IH. reflexivity.
Qed.

(** The first [n] chunks of [w] characters, one after the other, are the
    first [n * w] characters. *)
Lemma chunks_concat w s n :
  0 <= w ->
  concat (map (chunk w s) (map Z.of_nat (seq 0 n))) = firstn (n * Z.to_nat w) s.
Proof.
  intros Hw. induction n as [| n IH]; [reflexivity |].
  rewrite seq_S, !map_app, concat_app, IH. cbn [Nat.add map concat].
  rewrite app_nil_r. unfold chunk.
  replace (Z.to_nat (Z.of_nat n * w)) with (n * Z.to_nat w)%nat by nia.
  rewrite <- firstn_add_skipn. f_equal. lia.
Qed.

(** The row loop on a string of exactly [LCD_ROWS * LCD_COLS] characters,
    entered at row [r] with the [n] remaining rows to go. *)
Lemma show_rows_full cfg s n r st :
  1 <= LCD_COLS cfg -> strlen s = LCD_ROWS cfg * LCD_COLS cfg ->
  0 <= r -> r + Z.of_nat n = LCD_ROWS cfg ->
  show_rows cfg n s r st
  = fold_right (fun r k => lcd_put_cur cfg r 0 ;;
                           lcd_send_string cfg (chunk (LCD_COLS cfg) s r) ;; k)
               skip (map Z.of_nat (seq (Z.to_nat r) n)) st.
Proof.
  intros HC Hs. revert r st. induction n as [| n IH]; intros r st Hr Hn;
    [reflexivity |].
  cbn [show_rows seq map fold_right].
  replace (r <? LCD_ROWS cfg) with true by (symmetry; apply Z.ltb_lt; lia).
  cbv zeta.
  rewrite (copy_chunk_full cfg _ s (r * LCD_COLS cfg) 0 []) by nia.
  cbn [app]. replace (r * LCD_COLS cfg + 0) with (r * LCD_COLS cfg) by lia.
  fold (chunk (LCD_COLS cfg) s r). rewrite Z2Nat.id by lia.
  apply andthen_ext. intros st1. apply andthen_ext. intros st2.
  replace (S (Z.to_nat r)) with (Z.to_nat (r + 1)) by lia.
  destruct (char_at s (r * LCD_COLS cfg + LCD_COLS cfg) =? 0) eqn:E.
  - apply Z.eqb_eq in E.
    assert (Hend : ~ (0 <= r * LCD_COLS cfg + LCD_COLS cfg < strlen s)).
    { intros H. apply (char_at_nonzero s _ H). exact E. }
    assert (Hn0 : n = O) by nia. subst n. reflexivity.
  - apply IH; lia.
Qed.

(** C7. A string of exactly [LCD_ROWS * LCD_COLS] characters is written
    row by row: for every row, one positioning at column 0 and one write of
    that row's chunk of [LCD_COLS] characters, and nothing else.  Every
    chunk is full, the chunks together are the whole string.  On the two
    tabulated geometries the display receives, for each row in turn, the
    set-address instruction of the row followed by the chunk's characters. *)
Theorem lcd_show_wrapped_full cfg st s :
  1 <= LCD_ROWS cfg -> 1 <= LCD_COLS cfg ->
  strlen s = LCD_ROWS cfg * LCD_COLS cfg ->
  let row_chunk := chunk (LCD_COLS cfg) s in
  lcd_show_wrapped cfg s st
  = fold_right (fun r k => lcd_put_cur cfg r 0 ;; lcd_send_string cfg (row_chunk r) ;; k)
               skip (upto (LCD_ROWS cfg)) st /\
  (forall r, 0 <= r < LCD_ROWS cfg ->
     Z.of_nat (length (row_chunk r)) = LCD_COLS cfg /\
     Forall (fun c => c <> 0) (row_chunk r)) /\
  concat (map row_chunk (upto (LCD_ROWS cfg))) = chars s /\
  (forall table,
     (LCD_ROWS cfg = 2 /\ LCD_COLS cfg = 16 /\ table = row_base_16x2) \/
     (LCD_ROWS cfg = 4 /\ LCD_COLS cfg = 20 /\ table = row_base_20x4) ->
     PCF_NIBBLE_SHIFT cfg = 4 -> flag_ok st ->
     Forall (fun c => 0 <= c < 256) (chars s) ->
     received (trace_of (lcd_show_wrapped cfg s) st)
     = flat_map (fun r => Cmd (0x80 + nth (Z.to_nat r) table 0) :: map Data (row_chunk r))
                (upto (LCD_ROWS cfg))).
Proof.
  intros HR HC Hs row_chunk.
  assert (E : lcd_show_wrapped cfg s st
    = fold_right (fun r k => lcd_put_cur cfg r 0 ;; lcd_send_string cfg (row_chunk r) ;; k)
                 skip (upto (LCD_ROWS cfg)) st).
  { unfold lcd_show_wrapped, upto.
    rewrite (show_rows_full cfg s _ 0 st HC Hs) by lia. reflexivity. }
  assert (Cc : concat (map row_chunk (upto (LCD_ROWS cfg))) = chars s).
  { unfold upto, row_chunk. rewrite chunks_concat by lia.
    unfold chars. rewrite Hs. f_equal. nia. }
  assert (In_rows : forall r, 0 <= r < LCD_ROWS cfg -> In r (upto (LCD_ROWS cfg))).
  { intros r Hr. unfold upto. apply in_map_iff. exists (Z.to_nat r).
    split; [lia | apply in_seq; lia]. }
  assert (Rows_in : forall r, In r (upto (LCD_ROWS cfg)) -> 0 <= r < LCD_ROWS cfg).
  { intros r Hr. unfold upto in Hr. apply in_map_iff in Hr.
    destruct Hr as (k & <- & Hk). apply in_seq in Hk. lia. }
  assert (Sub : forall P : Z -> Prop, Forall P (chars s) ->
            forall r, 0 <= r < LCD_ROWS cfg -> Forall P (row_chunk r)).
  { intros P HP r Hr. rewrite <- Cc in HP. rewrite Forall_concat in HP.
    rewrite Forall_forall in HP. apply HP. apply in_map. auto. }
  split; [exact E |]. split; [| split; [exact Cc |]].
  - intros r Hr. split; [| apply Sub; [apply chars_nonzero | exact Hr]].
    unfold row_chunk, chunk.
    pose proof (strlen_le_length s) as Hl.
    rewrite length_firstn, length_skipn. nia.
  - intros table G Hsh Hbl Hb. apply chars_bytes in Hb.
    unfold trace_of at 1. rewrite E.
    match goal with |- received (snd (?f st)) = _ => fold (trace_of f st) end.
    assert (Gen : forall rows rest,
      (forall r, In r rows -> 0 <= r < LCD_ROWS cfg) ->
      received (trace_of (fold_right
                  (fun r k => lcd_put_cur cfg r 0 ;;
                              lcd_send_string cfg (row_chunk r) ;; k) skip rows) st
                ++ rest)
      = flat_map (fun r => Cmd (0x80 + nth (Z.to_nat r) table 0)
                             :: map Data (row_chunk r)) rows
        ++ received rest).
    { induction rows as [| r rows IH]; intros rest Hrows; [reflexivity |].
      cbn [fold_right flat_map].
      assert (Hr : 0 <= r < LCD_ROWS cfg) by (apply Hrows; left; reflexivity).
      destruct (lcd_put_cur_tabulated cfg table r 0 st G Hr) as (P1 & _ & P3); [lia |].
      cbv zeta in P1, P3. rewrite Z.add_0_r in P1, P3.
      rewrite !andthen_trace, lcd_put_cur_state, lcd_send_string_state.
      unfold trace_of at 1. rewrite P1.
      fold (trace_of (lcd_send_cmd cfg (128 + nth (Z.to_nat r) table 0)) st).
      rewrite <- !app_assoc.
      rewrite received_cmd_app by auto.
      rewrite received_string_app by (auto; apply Sub; auto).
      rewrite IH by (intros; apply Hrows; right; assumption).
      cbn [app]. rewrite <- ?app_assoc. reflexivity. }
    specialize (Gen (upto (LCD_ROWS cfg)) [] Rows_in).
    rewrite !app_nil_r in Gen. exact Gen.
Qed.

Lemma lcd_show_wrapped_full_witness :
  let s := map Z.of_nat (seq 65 32) in
  (1 <= LCD_ROWS i2c_h /\ 1 <= LCD_COLS i2c_h /\
   strlen s = LCD_ROWS i2c_h * LCD_COLS i2c_h) /\
  received (trace_of (lcd_show_wrapped i2c_h s) power_on)
  = Cmd 0x80 :: map Data (map Z.of_nat (seq 65 16))
    ++ Cmd 0xC0 :: map Data (map Z.of_nat (seq 81 16)).
Proof.
  cbv zeta.
  assert (HR : 1 <= LCD_ROWS i2c_h) by (simpl; lia).
  assert (HC : 1 <= LCD_COLS i2c_h) by (simpl; lia).
  assert (Hs : strlen (map Z.of_nat (seq 65 32)) = LCD_ROWS i2c_h * LCD_COLS i2c_h)
    by reflexivity.
  split; [auto |].
  destruct (lcd_show_wrapped_full i2c_h power_on _ HR HC Hs) as (_ & _ & _ & R).
  rewrite (R row_base_16x2).
  - reflexivity.
  - left. repeat split.
  - reflexivity.
  - right. reflexivity.
  - vm_compute. repeat constructor; discriminate.
Defined.

End LcdFacts.

(** * Properties of the LED bit-banger *)

Section LedFacts.

Import WS2812B.

(** ** One bit *)

(** The mask test of the bit loop reads the bit. *)
Lemma mask_test cur_byte bit :
  negb (Z.land cur_byte (Z.shiftl 1 bit) =? 0) = Z.testbit cur_byte bit.
Proof.
  destruct (Z.lt_ge_cases bit 0) as [Hneg | Hpos].
  - rewrite Z.testbit_neg_r by exact Hneg.
    rewrite Z.shiftl_1_l, Z.pow_neg_r by exact Hneg.
    rewrite Z.land_0_r. reflexivity.
  - rewrite Z.shiftl_1_l.
    destruct (Z.testbit cur_byte bit) eqn:B.
    + apply negb_true_iff, Z.eqb_neq. intros E.
      assert (T : Z.testbit (Z.land cur_byte (2 ^ bit)) bit = true).
      { rewrite Z.land_spec, B, Z.pow2_bits_true by exact Hpos. reflexivity. }
      rewrite E, Z.bits_0 in T. discriminate.
    + apply negb_false_iff, Z.eqb_eq. apply Z.bits_inj'. intros n Hn.
      rewrite Z.land_spec, Z.bits_0, Z.pow2_bits_eqb by exact Hpos.
      destruct (Z.eqb_spec bit n) as [<- | _].
      * rewrite B. reflexivity.
      * apply andb_false_r.
Qed.

Lemma send_bit_pulse cur_byte bit :
  send_bit cur_byte bit = pulse (Z.testbit cur_byte bit).
Proof.
  unfold send_bit, pulse. rewrite mask_test.
  destruct (Z.testbit cur_byte bit); reflexivity.
Qed.

(** The bit loop sends the eight bits, most significant first; the
    conversion of the buffer element to [uint8_t] does not show. *)
Lemma send_bits_waveform b : send_bits 8 (to_u8 b) 7 = byte_waveform b.
Proof.
  unfold byte_waveform. cbn [send_bits Z.geb Z.compare Z.sub Z.add Z.opp
    Z.pos_sub Pos.pred_double Z.succ_double Z.pred_double Z.double flat_map].
  rewrite !send_bit_pulse. unfold to_u8. change 256 with (2 ^ 8).
  rewrite !Z.mod_pow2_bits_low by lia. reflexivity.
Qed.

(** The eight iterations the bit loop is entered with are all it takes: a
    larger budget gives the same run. *)
Lemma send_bits_budget cur_byte n m :
  forall bit, bit + 1 <= Z.of_nat n -> bit + 1 <= Z.of_nat m ->
  send_bits n cur_byte bit = send_bits m cur_byte bit.
Proof.
  revert m. induction n as [| n IH]; intros [| m] bit Hn Hm; cbn [send_bits];
    try reflexivity.
  - replace (bit >=? 0) with false by (symmetry; apply false_geb; lia).
    reflexivity.
  - replace (bit >=? 0) with false by (symmetry; apply false_geb; lia).
    reflexivity.
  - destruct (bit >=? 0); [| reflexivity]. f_equal. apply IH; lia.
Qed.

(** C4 as stated fails on the timing constants: a 1 bit takes 1300 ns of
    busy-waiting, a 0 bit 1150 ns. *)
Lemma bit_period_differs :
  busy_ns (send_bit 0x80 7) = 1300 /\
  busy_ns (send_bit 0x00 7) = 1150 /\
  T0H + T0L <> T1H + T1L.
Proof.
  split; [reflexivity |]. split; [reflexivity |]. discriminate.
Qed.

(** C4, amended. The bit period busy-waited for a transmitted bit depends
    on the bit's value only: [T1H + T1L], 1300 ns, for a 1 bit and
    [T0H + T0L], 1150 ns, for a 0 bit. *)
Theorem bit_period_by_value cur_byte bit :
  busy_ns (send_bit cur_byte bit)
  = (if Z.testbit cur_byte bit then T1H + T1L else T0H + T0L) /\
  T1H + T1L = 1300 /\ T0H + T0L = 1150.
Proof.
  rewrite send_bit_pulse.
  destruct (Z.testbit cur_byte bit); repeat split; reflexivity.
Qed.

(** ** The byte loop *)

Lemma waveform_cons b rest : waveform (b :: rest) = byte_waveform b ++ waveform rest.
Proof. reflexivity. Qed.

Lemma skipn_nth_error (A : Type) (l : list A) n :
  (n < length l)%nat ->
  exists x, nth_error l n = Some x /\ skipn n l = x :: skipn (S n) l.
Proof.
  revert n. induction l as [| y l IH]; intros n Hn; cbn [length] in Hn; [lia |].
  destruct n as [| n].
  - exists y. split; reflexivity.
  - destruct (IH n) as (x & E1 & E2); [lia |]. exists x. split; assumption.
Qed.

(** While the bound fits the 16-bit counter, the loop walks the buffer once
    and leaves. *)
Lemma send_bytes_run led_buffer bound :
  bound <= 65535 -> Z.of_nat (length led_buffer) = bound ->
  forall n fuel i, (n < fuel)%nat -> 0 <= i -> i + Z.of_nat n = bound ->
  send_bytes fuel led_buffer bound i
  = Finished (waveform (skipn (Z.to_nat i) led_buffer)).
Proof.
  intros Hb Hl. induction n as [| n IH]; intros fuel i Hf Hi Hn;
    (destruct fuel as [| fuel]; [lia |]); cbn [send_bytes].
  - replace (i <? bound) with false by (symmetry; apply Z.ltb_ge; lia).
    rewrite skipn_all2 by lia. reflexivity.
  - replace (i <? bound) with true by (symmetry; apply Z.ltb_lt; lia).
    destruct (skipn_nth_error Z led_buffer (Z.to_nat i)) as (b & E1 & E2); [lia |].
    rewrite E1, E2. cbv zeta.
    replace (to_u16 (i + 1)) with (i + 1) by (unfold to_u16; rewrite Z.mod_small; lia).
    rewrite IH by lia.
    replace (Z.to_nat (i + 1)) with (S (Z.to_nat i)) by lia.
    rewrite send_bits_waveform. reflexivity.
Qed.

(** Once the bound exceeds what the counter can hold, the counter wraps
    before reaching it and the loop is never left. *)
Lemma send_bytes_spins led_buffer bound fuel :
  65536 <= bound -> 65536 <= Z.of_nat (length led_buffer) ->
  forall i, 0 <= i < 65536 ->
  send_bytes fuel led_buffer bound i = OutOfFuel.
Proof.
  intros Hb Hl. induction fuel as [| fuel IH]; intros i Hi; cbn [send_bytes];
    [reflexivity |].
  replace (i <? bound) with true by (symmetry; apply Z.ltb_lt; lia).
  destruct (skipn_nth_error Z led_buffer (Z.to_nat i)) as (b & E1 & _); [lia |].
  rewrite E1. cbv zeta. rewrite IH; [reflexivity |].
  unfold to_u16. apply Z.mod_pos_bound. lia.
Qed.

Lemma rising_edges_app a b : rising_edges (a ++ b) = rising_edges a + rising_edges b.
Proof.
  induction a as [| e a IH]; [reflexivity |].
  cbn [app rising_edges]. destruct e as [[|] | | | |]; lia.
Qed.

Lemma rising_edges_waveform buf : rising_edges (waveform buf) = 8 * Z.of_nat (length buf).
Proof.
  induction buf as [| b buf IH]; [reflexivity |].
  rewrite waveform_cons, rising_edges_app, IH.
  replace (rising_edges (byte_waveform b)) with 8.
  - cbn [length]. lia.
  - unfold byte_waveform, pulse. reflexivity.
Qed.

(** In the range where the byte loop terminates, [ws2812b_send] returns
    having put on the wire the waveform of the buffer, 24 pulses per LED,
    and then the reset: line low and one [HAL_Delay]. *)
Lemma ws2812b_send_waveform led_buffer led_count cpu extra :
  0 <= led_count <= 21845 -> Z.of_nat (length led_buffer) = 3 * led_count ->
  ws2812b_send (S (length led_buffer) + extra) led_buffer led_count cpu
  = Returned cpu
      ([disable_irq] ++ waveform led_buffer
         ++ [HAL_GPIO_WritePin GPIO_PIN_RESET; HAL_Delay 1]
         ++ (if PRIMASK cpu then [] else [enable_irq])) /\
  rising_edges (waveform led_buffer) = 24 * led_count.
Proof.
  intros Hn Hl. split; [| rewrite rising_edges_waveform; lia].
  unfold ws2812b_send. cbv zeta.
  replace (to_u16 led_count) with led_count
    by (unfold to_u16; rewrite Z.mod_small; lia).
  rewrite (send_bytes_run led_buffer (led_count * 3)) with (n := length led_buffer)
    by lia.
  cbn [Z.to_nat skipn]. unfold get_PRIMASK.
  destruct cpu as [[|]]; cbn [PRIMASK Z.b2z Z.eqb]; rewrite <- ?app_assoc; reflexivity.
Qed.

(** C3 fails on the code for large strips.  From 21846 LEDs on, the bound
    [led_count * 3] exceeds 65535 while the byte counter is a [uint16_t]:
    the counter wraps to 0 before it reaches the bound, and [ws2812b_send]
    keeps emitting pulses and never reaches the reset, whatever the fuel. *)
Theorem ws2812b_send_never_returns fuel led_buffer led_count cpu :
  21846 <= led_count <= 65535 ->
  Z.of_nat (length led_buffer) = 3 * led_count ->
  ws2812b_send fuel led_buffer led_count cpu = NoReturn.
Proof.
  intros Hn Hl. unfold ws2812b_send. cbv zeta.
  replace (to_u16 led_count) with led_count
    by (unfold to_u16; rewrite Z.mod_small; lia).
  rewrite send_bytes_spins by lia. reflexivity.
Qed.

Lemma ws2812b_send_never_returns_witness :
  let led_buffer := repeat 0 (Z.to_nat 65538) in
  (21846 <= 21846 <= 65535 /\ Z.of_nat (length led_buffer) = 3 * 21846) /\
  ws2812b_send 1000 led_buffer 21846 {| PRIMASK := false |} = NoReturn.
Proof.
  cbv zeta.
  assert (Hn : 21846 <= 21846 <= 65535) by lia.
  assert (Hl : Z.of_nat (length (repeat 0 (Z.to_nat 65538))) = 3 * 21846)
    by (rewrite repeat_length; lia).
  split; [auto |].
  apply (ws2812b_send_never_returns 1000 _ 21846 _ Hn Hl).
Defined.

(** ** The interrupt mask *)

Lemma irq_untouched_app a b :
  irq_untouched a -> irq_untouched b -> irq_untouched (a ++ b).
Proof.
  intros [A1 A2] [B1 B2]. split; intros H; apply in_app_or in H; tauto.
Qed.

Lemma irq_untouched_send_bits n cur_byte bit :
  irq_untouched (send_bits n cur_byte bit).
Proof.
  revert bit. induction n as [| n IH]; intros bit; cbn [send_bits].
  - split; intros [].
  - destruct (bit >=? 0); [| split; intros []].
    apply irq_untouched_app; [| apply IH].
    rewrite send_bit_pulse. unfold pulse.
    split; cbn [In]; intros H; repeat (destruct H as [H | H]; [discriminate |]);
      exact H.
Qed.

Lemma irq_untouched_send_bytes led_buffer bound fuel :
  forall i evs,
  send_bytes fuel led_buffer bound i = Finished evs -> irq_untouched evs.
Proof.
  induction fuel as [| fuel IH]; intros i evs; cbn [send_bytes]; [discriminate |].
  destruct (i <? bound).
  - destruct (nth_error led_buffer (Z.to_nat i)) as [b |]; [| discriminate].
    cbv zeta.
    destruct (send_bytes fuel led_buffer bound (to_u16 (i + 1))) as [evs' | |] eqn:E;
      try discriminate.
    intros [= <-]. apply irq_untouched_app;
      [exact (irq_untouched_send_bits 8 (to_u8 b) 7) | apply (IH _ _ E)].
  - intros [= <-]. split; intros [].
Qed.

(** C9. Whenever [ws2812b_send] returns, PRIMASK is what it was on entry:
    the first thing the call does is mask interrupts, nothing touches the
    mask during the transmission and the reset, and interrupts are enabled
    again at the very end exactly when they were enabled on entry.  Up to
    21845 LEDs the call does return. *)
Theorem ws2812b_send_restores_irq led_buffer led_count cpu :
  (forall fuel cpu' wire,
     ws2812b_send fuel led_buffer led_count cpu = Returned cpu' wire ->
     PRIMASK cpu' = PRIMASK cpu /\
     exists body,
       wire = disable_irq :: body ++ (if PRIMASK cpu then [] else [enable_irq]) /\
       irq_untouched body) /\
  (0 <= led_count <= 21845 -> Z.of_nat (length led_buffer) = 3 * led_count ->
   exists wire,
     ws2812b_send (S (length led_buffer)) led_buffer led_count cpu = Returned cpu wire).
Proof.
  split.
  - intros fuel cpu' wire. unfold ws2812b_send. cbv zeta.
    destruct (send_bytes fuel led_buffer (to_u16 led_count * 3) 0) as [evs | |] eqn:E;
      try discriminate.
    apply irq_untouched_send_bytes in E.
    assert (T : irq_untouched (evs ++ [HAL_GPIO_WritePin GPIO_PIN_RESET; HAL_Delay 1])).
    { apply irq_untouched_app; [exact E |].
      split; cbn [In]; intros H; repeat (destruct H as [H | H]; [discriminate |]);
        exact H. }
    unfold get_PRIMASK. destruct cpu as [[|]]; cbn [PRIMASK Z.b2z Z.eqb];
      intros [= <- <-]; (split; [reflexivity |]);
      exists (evs ++ [HAL_GPIO_WritePin GPIO_PIN_RESET; HAL_Delay 1]);
      (split; [| exact T]); cbn [app]; rewrite <- ?app_assoc, ?app_nil_r; reflexivity.
  - intros Hn Hl.
    destruct (ws2812b_send_waveform led_buffer led_count cpu 0 Hn Hl) as [E _].
    rewrite Nat.add_0_r in E. eexists. exact E.
Qed.

Lemma ws2812b_send_restores_irq_witness :
  (0 <= 1 <= 21845 /\ Z.of_nat (length [0; 255; 0]) = 3 * 1) /\
  (exists wire,
     ws2812b_send 4 [0; 255; 0] 1 {| PRIMASK := false |}
     = Returned {| PRIMASK := false |} wire) /\
  (forall cpu' wire,
     ws2812b_send 4 [0; 255; 0] 1 {| PRIMASK := true |} = Returned cpu' wire ->
     PRIMASK cpu' = true).
Proof.
  assert (Hn : 0 <= 1 <= 21845) by lia.
  assert (Hl : Z.of_nat (length [0; 255; 0]) = 3 * 1) by reflexivity.
  split; [auto |]. split.
  - destruct (ws2812b_send_restores_irq [0; 255; 0] 1 {| PRIMASK := false |})
      as [_ R].
    apply (R Hn Hl).
  - intros cpu' wire H.
    destruct (ws2812b_send_restores_irq [0; 255; 0] 1 {| PRIMASK := true |})
      as [K _].
    apply (K 4%nat cpu' wire H).
Defined.

End LedFacts.

(** * More on the display driver *)

Section LcdMore.

Import I2C_LCD.

(** ** Initialisation *)

Lemma seven_bit_address a : 0 <= a < 256 ->
  to_u8 (Z.land (to_u8 a) 0x7F) = a mod 128 /\
  to_u16 (Z.shiftl (a mod 128) 1) = 2 * (a mod 128).
Proof.
  intros Ha. rewrite (to_u8_small a Ha).
  change 0x7F with (Z.ones 7). rewrite Z.land_ones by lia.
  change (2 ^ 7) with 128.
  pose proof (Z.mod_pos_bound a 128 ltac:(lia)) as Hm.
  split; [apply to_u8_small; lia |].
  rewrite Z.shiftl_mul_pow2 by lia. change (2 ^ 1) with 2.
  unfold to_u16. rewrite Z.mod_small; lia.
Qed.

(** X1. [lcd_init] binds the handle and the address it is given, the
    address cut to 7 bits, and switches the backlight flag on, whatever the
    state before.  On the bus it addresses that device only; the controller
    latches the four nibbles 3, 3, 3, 2 of the 4-bit handshake and then, in
    4-bit mode, receives function set (0x28 with more than one row, 0x20
    otherwise), display on (0x0C), clear (0x01) and entry mode (0x06); EN is
    left low. *)
Theorem lcd_init_handshake cfg st hi2c addr7bit :
  PCF_NIBBLE_SHIFT cfg = 4 -> 0 <= addr7bit < 256 ->
  let a := lcd_init cfg hi2c addr7bit in
  state_after a st
  = {| hi2c_lcd := hi2c; lcd_addr := addr7bit mod 128; backlight := P_CF_BL |} /\
  Forall (bound_to hi2c (2 * (addr7bit mod 128))) (trace_of a st) /\
  map (fun o => Z.shiftr o 4) (firstn 4 (latched 0 (tx_bytes (trace_of a st))))
  = [3; 3; 3; 2] /\
  words (skipn 4 (latched 0 (tx_bytes (trace_of a st))))
  = [Cmd (if LCD_ROWS cfg >? 1 then 0x28 else 0x20); Cmd 0x0C; Cmd 0x01; Cmd 0x06] /\
  Z.testbit (pins_after 0 (trace_of a st)) 2 = false.
Proof.
  intros Hs Ha a. destruct (seven_bit_address addr7bit Ha) as [E1 E2].
  unfold a, lcd_init. rewrite andthen_state, andthen_trace.
  match goal with
  | |- context [state_after (assign ?f) st] =>
      change (state_after (assign f) st) with (f st);
      change (trace_of (assign f) st) with (@nil bus_event)
  end.
  cbv beta. rewrite E1. cbn [app].
  set (st0 := {| hi2c_lcd := hi2c; lcd_addr := addr7bit mod 128; backlight := P_CF_BL |}).
  unfold state_after, trace_of, lcd_send_cmd, lcd_write_nibble.
  rewrite Hs. unfold andthen, pcf_write, lcd_pulse_enable, andthen, pcf_write, HAL_Delay_.
  cbn [hi2c_lcd lcd_addr backlight st0 fst snd app]. rewrite E2.
  generalize (2 * (addr7bit mod 128)) as dev. intros dev.
  destruct (LCD_ROWS cfg >? 1).
  - split; [reflexivity |]. split; [repeat constructor |].
    split; [reflexivity |]. split; reflexivity.
  - split; [reflexivity |]. split; [repeat constructor |].
    split; [reflexivity |]. split; reflexivity.
Qed.

Lemma lcd_init_handshake_witness :
  (PCF_NIBBLE_SHIFT i2c_h = 4 /\ 0 <= 0xA7 < 256) /\
  state_after (lcd_init i2c_h (Some 1) 0xA7) power_on
  = {| hi2c_lcd := Some 1; lcd_addr := 0x27; backlight := P_CF_BL |} /\
  words (skipn 4 (latched 0 (tx_bytes (trace_of (lcd_init i2c_h (Some 1) 0xA7) power_on))))
  = [Cmd 0x28; Cmd 0x0C; Cmd 0x01; Cmd 0x06].
Proof.
  assert (Hs : PCF_NIBBLE_SHIFT i2c_h = 4) by reflexivity.
  assert (Ha : 0 <= 0xA7 < 256) by lia.
  split; [auto |].
  destruct (lcd_init_handshake i2c_h power_on (Some 1) 0xA7 Hs Ha)
    as (S & _ & _ & W & _).
  split; [exact S | exact W].
Defined.

(** ** The bus binding *)

Lemma keeps_binding_skip : keeps_binding skip.
Proof. intros st. repeat split. constructor. Qed.

Lemma keeps_binding_delay ms : keeps_binding (HAL_Delay_ ms).
Proof. intros st. repeat split. repeat constructor. Qed.

Lemma keeps_binding_andthen a b :
  keeps_binding a -> keeps_binding b -> keeps_binding (a ;; b).
Proof.
  intros Ha Hb st. destruct (Ha st) as (A1 & A2 & A3).
  destruct (Hb (state_after a st)) as (B1 & B2 & B3).
  rewrite andthen_state, andthen_trace, B1, B2, A1, A2.
  repeat split. apply Forall_app. split; [exact A3 |].
  rewrite A1, A2 in B3. exact B3.
Qed.

Lemma keeps_binding_write_nibble cfg h c : keeps_binding (lcd_write_nibble cfg h c).
Proof. intros st. repeat split. repeat constructor. Qed.

Lemma keeps_binding_send_cmd cfg b : keeps_binding (lcd_send_cmd cfg b).
Proof.
  unfold lcd_send_cmd. cbv zeta.
  repeat apply keeps_binding_andthen;
    auto using keeps_binding_write_nibble, keeps_binding_delay.
Qed.

Lemma keeps_binding_send_data cfg b : keeps_binding (lcd_send_data cfg b).
Proof.
  unfold lcd_send_data. cbv zeta.
  repeat apply keeps_binding_andthen;
    auto using keeps_binding_write_nibble, keeps_binding_delay.
Qed.

Lemma keeps_binding_put_cur cfg row col : keeps_binding (lcd_put_cur cfg row col).
Proof. unfold lcd_put_cur. cbv zeta. apply keeps_binding_send_cmd. Qed.

Lemma keeps_binding_send_string cfg str : keeps_binding (lcd_send_string cfg str).
Proof.
  induction str as [| c rest IH]; cbn [lcd_send_string].
  - apply keeps_binding_skip.
  - destruct (c =? 0); [apply keeps_binding_skip |].
    apply keeps_binding_andthen; auto using keeps_binding_send_data.
Qed.

Lemma keeps_binding_backlight_on : keeps_binding lcd_backlight_on.
Proof. intros st. repeat split. repeat constructor. Qed.

Lemma keeps_binding_backlight_off : keeps_binding lcd_backlight_off.
Proof. intros st. repeat split. repeat constructor. Qed.

Lemma keeps_binding_ascii_test cfg : keeps_binding (lcd_ascii_test cfg).
Proof.
  unfold lcd_ascii_test. induction (upto (LCD_ROWS cfg)) as [| r rows IH];
    cbn [fold_right].
  - apply keeps_binding_skip.
  - apply keeps_binding_andthen; [| exact IH]. unfold ascii_test_row. cbv zeta.
    apply keeps_binding_andthen;
      auto using keeps_binding_put_cur, keeps_binding_send_string.
Qed.

Lemma keeps_binding_show_wrapped cfg s : keeps_binding (lcd_show_wrapped cfg s).
Proof.
  unfold lcd_show_wrapped. generalize 0 as r.
  induction (Z.to_nat (LCD_ROWS cfg)) as [| n IH]; intros r; cbn [show_rows].
  - apply keeps_binding_skip.
  - destruct (r <? LCD_ROWS cfg); [| apply keeps_binding_skip].
    cbv zeta. destruct (copy_chunk cfg _ s _ 0 []) as [tmp i].
    apply keeps_binding_andthen; [apply keeps_binding_put_cur |].
    apply keeps_binding_andthen; [apply keeps_binding_send_string |].
    destruct (_ =? 0); [apply keeps_binding_skip | apply IH].
Qed.

Lemma keeps_binding_scroll_line cfg row text delay_ms :
  keeps_binding (lcd_scroll_line cfg row text delay_ms).
Proof.
  unfold lcd_scroll_line. cbv zeta. destruct (_ <=? _).
  - apply keeps_binding_andthen;
      auto using keeps_binding_put_cur, keeps_binding_send_string.
  - generalize 0 as start.
    induction (Z.to_nat _) as [| n IH]; intros start; cbn [scroll_windows].
    + apply keeps_binding_skip.
    + destruct (start <=? _); [| apply keeps_binding_skip]. cbv zeta.
      apply keeps_binding_andthen; [apply keeps_binding_put_cur |].
      apply keeps_binding_andthen; [apply keeps_binding_send_string |].
      apply keeps_binding_andthen; [apply keeps_binding_delay | apply IH].
Qed.

Lemma keeps_binding_run_op cfg op :
  is_init op = false -> keeps_binding (run_op cfg op).
Proof.
  destruct op; cbn [is_init run_op]; intros H; try discriminate;
    auto using keeps_binding_put_cur, keeps_binding_send_string,
      keeps_binding_backlight_on, keeps_binding_backlight_off,
      keeps_binding_ascii_test, keeps_binding_show_wrapped,
      keeps_binding_scroll_line.
  unfold lcd_clear.
  apply keeps_binding_andthen; auto using keeps_binding_send_cmd, keeps_binding_delay.
Qed.

(** X2. Only [lcd_init] binds the bus.  Any sequence of the other public
    operations leaves the stored handle and address as they were and sends
    every byte on that handle to that address shifted left by one.  From
    the static initialisers, that is from a driver that was never
    initialised, this is the [NULL] handle and address 0x4E. *)
Theorem bus_binding_kept cfg ops st :
  forallb (fun op => negb (is_init op)) ops = true ->
  let st' := state_after (run_ops cfg ops) st in
  hi2c_lcd st' = hi2c_lcd st /\ lcd_addr st' = lcd_addr st /\
  (forall h dev d, In (I2C_Transmit h dev d) (trace_of (run_ops cfg ops) st) ->
     h = hi2c_lcd st /\ dev = to_u16 (Z.shiftl (lcd_addr st) 1)) /\
  (st = power_on ->
   forall h dev d, In (I2C_Transmit h dev d) (trace_of (run_ops cfg ops) st) ->
     h = None /\ dev = 0x4E).
Proof.
  intros Hops.
  assert (K : keeps_binding (run_ops cfg ops)).
  { induction ops as [| op ops IH]; cbn [run_ops]; [apply keeps_binding_skip |].
    cbn [forallb] in Hops. apply andb_true_iff in Hops. destruct Hops as [H1 H2].
    apply keeps_binding_andthen; [| exact (IH H2)].
    apply keeps_binding_run_op. apply negb_true_iff. exact H1. }
  destruct (K st) as (K1 & K2 & K3). cbv zeta.
  assert (B : forall h dev d,
            In (I2C_Transmit h dev d) (trace_of (run_ops cfg ops) st) ->
            h = hi2c_lcd st /\ dev = to_u16 (Z.shiftl (lcd_addr st) 1)).
  { intros h dev d Hin. rewrite Forall_forall in K3. exact (K3 _ Hin). }
  repeat split; try assumption; try (apply (B h dev d); assumption).
  - subst st. apply (B h dev d H0).
  - subst st. apply (B h dev d H0).
Qed.

Lemma bus_binding_kept_witness :
  let ops := [Op_clear; Op_backlight_off; Op_show_wrapped [72; 105]] in
  forallb (fun op => negb (is_init op)) ops = true /\
  forall h dev d,
    In (I2C_Transmit h dev d) (trace_of (run_ops i2c_h ops) power_on) ->
    h = None /\ dev = 0x4E.
Proof.
  cbv zeta. split; [reflexivity |].
  apply (bus_binding_kept i2c_h
           [Op_clear; Op_backlight_off; Op_show_wrapped [72; 105]] power_on
           eq_refl).
  reflexivity.
Defined.

(** ** What the display receives, operation by operation *)

Lemma latched_app p l1 l2 :
  latched p (l1 ++ l2) = latched p l1 ++ latched (last l1 p) l2.
Proof.
  revert p. induction l1 as [| d l1 IH]; intros p; [reflexivity |].
  cbn [app latched]. rewrite IH.
  replace (last (d :: l1) p) with (last l1 d)
    by (clear; revert d; induction l1 as [| e l IH]; intros d;
        [reflexivity | cbn [last] in *; destruct l; [reflexivity | apply IH]]).
  destruct (_ && _); reflexivity.
Qed.

Lemma words_app_even l1 l2 :
  Nat.even (length l1) = true -> words (l1 ++ l2) = words l1 ++ words l2.
Proof.
  remember (length l1) as n eqn:Hn. revert l1 Hn.
  induction n as [n IH] using (well_founded_induction lt_wf).
  intros l1 Hn He. destruct l1 as [| h [| l r]].
  - reflexivity.
  - subst n. discriminate.
  - cbn [app words]. f_equal.
    apply (IH (length r)); [subst n; cbn [length]; lia | reflexivity |].
    subst n. exact He.
Qed.

Lemma received_app_balanced t rest :
  balanced t = true -> received (t ++ rest) = received t ++ received rest.
Proof.
  unfold balanced, pins_after, received. intros H.
  apply andb_true_iff in H. destruct H as [Hen Hev].
  apply negb_true_iff in Hen.
  rewrite tx_bytes_app, latched_app, words_app_even by exact Hev.
  rewrite (latched_prev_low _ 0 _ Hen eq_refl). reflexivity.
Qed.

Section DefaultShift.

Variable cfg : lcd_config.
Hypothesis shift4 : PCF_NIBBLE_SHIFT cfg = 4.

Lemma shows_skip : shows skip [].
Proof. intros st rest Hst. split; [exact Hst | reflexivity]. Qed.

Lemma shows_delay ms : shows (HAL_Delay_ ms) [].
Proof. intros st rest Hst. split; [exact Hst | reflexivity]. Qed.

Lemma shows_andthen a b wa wb :
  shows a wa -> shows b wb -> shows (a ;; b) (wa ++ wb).
Proof.
  intros Ha Hb st rest Hst.
  rewrite andthen_state, andthen_trace, <- !app_assoc.
  destruct (Ha st (trace_of b (state_after a st) ++ rest) Hst) as [A1 A2].
  destruct (Hb (state_after a st) rest A1) as [B1 B2].
  split; [exact B1 |]. rewrite A2, B2. reflexivity.
Qed.

Lemma lcd_send_cmd_u8 b st : lcd_send_cmd cfg (to_u8 b) st = lcd_send_cmd cfg b st.
Proof.
  unfold lcd_send_cmd. cbv zeta.
  rewrite (to_u8_small (to_u8 b) (to_u8_range b)). reflexivity.
Qed.

Lemma lcd_send_data_u8 b st : lcd_send_data cfg (to_u8 b) st = lcd_send_data cfg b st.
Proof.
  unfold lcd_send_data. cbv zeta.
  rewrite (to_u8_small (to_u8 b) (to_u8_range b)). reflexivity.
Qed.

Lemma shows_send_cmd b : shows (lcd_send_cmd cfg b) [Cmd (to_u8 b)].
Proof.
  intros st rest Hst. rewrite lcd_send_cmd_state. split; [exact Hst |].
  unfold trace_of. rewrite <- lcd_send_cmd_u8.
  apply (received_cmd_app cfg st (to_u8 b) rest shift4 Hst (to_u8_range b)).
Qed.

Lemma shows_send_data b : shows (lcd_send_data cfg b) [Data (to_u8 b)].
Proof.
  intros st rest Hst. rewrite lcd_send_data_state. split; [exact Hst |].
  unfold trace_of. rewrite <- lcd_send_data_u8.
  apply (received_data_app cfg st (to_u8 b) rest shift4 Hst (to_u8_range b)).
Qed.

Lemma framed_andthen a b : framed a -> framed b -> framed (a ;; b).
Proof.
  intros [wa Ha] [wb Hb]. exists (wa ++ wb). apply shows_andthen; assumption.
Qed.

Lemma framed_skip : framed skip.
Proof. exists []. apply shows_skip. Qed.

Lemma framed_delay ms : framed (HAL_Delay_ ms).
Proof. exists []. apply shows_delay. Qed.

Lemma framed_send_cmd b : framed (lcd_send_cmd cfg b).
Proof. eexists. apply shows_send_cmd. Qed.

Lemma framed_put_cur row col : framed (lcd_put_cur cfg row col).
Proof. unfold lcd_put_cur. cbv zeta. apply framed_send_cmd. Qed.

Lemma shows_send_string str :
  shows (lcd_send_string cfg str) (map (fun c => Data (to_u8 c)) (chars str)).
Proof.
  induction str as [| c r IH]; [apply shows_skip |].
  destruct (Z.eq_dec c 0) as [-> | Hc]; [apply shows_skip |].
  rewrite (chars_cons c r Hc). cbn [lcd_send_string map].
  replace (c =? 0) with false by (symmetry; apply Z.eqb_neq; exact Hc).
  apply (shows_andthen _ _ [Data (to_u8 c)] _ (shows_send_data c) IH).
Qed.

Lemma framed_send_string str : framed (lcd_send_string cfg str).
Proof. eexists. apply shows_send_string. Qed.

Lemma shows_backlight_on : shows lcd_backlight_on [].
Proof.
  intros st rest _. split; [right; reflexivity |].
  unfold received. cbn [trace_of lcd_backlight_on andthen assign pcf_write snd
                        app tx_bytes flat_map backlight latched].
  change (Z.testbit 0 2) with false. cbn [andb].
  apply f_equal. apply latched_prev_low; reflexivity.
Qed.

Lemma shows_backlight_off : shows lcd_backlight_off [].
Proof.
  intros st rest _. split; [left; reflexivity |].
  unfold received. cbn [trace_of lcd_backlight_off andthen assign pcf_write snd
                        app tx_bytes flat_map backlight latched].
  change (Z.testbit 0 2) with false. cbn [andb].
  apply f_equal. apply latched_prev_low; reflexivity.
Qed.

Lemma framed_ascii_test : framed (lcd_ascii_test cfg).
Proof.
  unfold lcd_ascii_test. induction (upto (LCD_ROWS cfg)) as [| r rows IH];
    cbn [fold_right]; [apply framed_skip |].
  apply framed_andthen; [| exact IH]. unfold ascii_test_row. cbv zeta.
  apply framed_andthen; auto using framed_put_cur, framed_send_string.
Qed.

Lemma framed_show_wrapped s : framed (lcd_show_wrapped cfg s).
Proof.
  unfold lcd_show_wrapped. generalize 0 as r.
  induction (Z.to_nat (LCD_ROWS cfg)) as [| n IH]; intros r; cbn [show_rows];
    [apply framed_skip |].
  destruct (r <? LCD_ROWS cfg); [| apply framed_skip].
  cbv zeta. destruct (copy_chunk cfg _ s _ 0 []) as [tmp i].
  apply framed_andthen; [apply framed_put_cur |].
  apply framed_andthen; [apply framed_send_string |].
  destruct (_ =? 0); [apply framed_skip | apply IH].
Qed.

Lemma framed_scroll_line row text delay_ms :
  framed (lcd_scroll_line cfg row text delay_ms).
Proof.
  unfold lcd_scroll_line. cbv zeta. destruct (_ <=? _).
  - apply framed_andthen; auto using framed_put_cur, framed_send_string.
  - generalize 0 as start.
    induction (Z.to_nat _) as [| n IH]; intros start; cbn [scroll_windows];
      [apply framed_skip |].
    destruct (start <=? _); [| apply framed_skip]. cbv zeta.
    apply framed_andthen; [apply framed_put_cur |].
    apply framed_andthen; [apply framed_send_string |].
    apply framed_andthen; [apply framed_delay | apply IH].
Qed.

Lemma framed_init hi2c addr7bit : framed (lcd_init cfg hi2c addr7bit).
Proof.
  exists [Cmd 0x33; Cmd 0x32; Cmd (if LCD_ROWS cfg >? 1 then 0x28 else 0x20);
          Cmd 0x0C; Cmd 0x01; Cmd 0x06].
  intros st rest _. unfold lcd_init. rewrite andthen_state, andthen_trace.
  match goal with
  | |- context [state_after (assign ?f) st] =>
      change (state_after (assign f) st) with (f st);
      change (trace_of (assign f) st) with (@nil bus_event)
  end.
  cbv beta. cbn [app].
  unfold state_after, trace_of, lcd_send_cmd, lcd_write_nibble.
  rewrite shift4.
  unfold andthen, pcf_write, lcd_pulse_enable, andthen, pcf_write, HAL_Delay_.
  cbn [hi2c_lcd lcd_addr backlight fst snd].
  split; [right; reflexivity |].
  generalize (to_u16 (Z.shiftl (to_u8 (Z.land (to_u8 addr7bit) 127)) 1)) as dev.
  intros dev.
  destruct (LCD_ROWS cfg >? 1);
    rewrite received_app_balanced by reflexivity; reflexivity.
Qed.

Lemma framed_run_op op : framed (run_op cfg op).
Proof.
  destruct op; cbn [run_op];
    auto using framed_init, framed_put_cur, framed_send_string,
      framed_ascii_test, framed_show_wrapped, framed_scroll_line.
  - unfold lcd_clear. apply framed_andthen; auto using framed_send_cmd, framed_delay.
  - exists []. apply shows_backlight_on.
  - exists []. apply shows_backlight_off.
Qed.

End DefaultShift.

(** X3. [lcd_send_string] makes the controller receive, as character data
    and in order, exactly the bytes of the string before its first NUL;
    what lies behind the NUL is never sent, and an empty string causes no
    bus traffic at all.  The statics are left alone. *)
Theorem lcd_send_string_received cfg st s :
  PCF_NIBBLE_SHIFT cfg = 4 -> flag_ok st ->
  received (trace_of (lcd_send_string cfg s) st) = map (fun c => Data (to_u8 c)) (chars s) /\
  state_after (lcd_send_string cfg s) st = st /\
  lcd_send_string cfg s st = lcd_send_string cfg (chars s) st /\
  (strlen s = 0 -> trace_of (lcd_send_string cfg s) st = []).
Proof.
  intros Hs Hst. split; [| split; [| split]].
  - destruct (shows_send_string cfg Hs s st [] Hst) as [_ R].
    rewrite !app_nil_r in R. exact R.
  - apply lcd_send_string_state.
  - rewrite lcd_send_string_chars. reflexivity.
  - intros H0. destruct s as [| c r]; [reflexivity |].
    cbn [strlen] in H0. cbn [lcd_send_string].
    destruct (c =? 0); [reflexivity |]. pose proof (strlen_nonneg r). lia.
Qed.

Lemma lcd_send_string_received_witness :
  (PCF_NIBBLE_SHIFT i2c_h = 4 /\ flag_ok power_on) /\
  received (trace_of (lcd_send_string i2c_h [79; 75; 0; 33]) power_on)
  = [Data 79; Data 75].
Proof.
  assert (Hs : PCF_NIBBLE_SHIFT i2c_h = 4) by reflexivity.
  assert (Hf : flag_ok power_on) by (right; reflexivity).
  split; [auto |].
  destruct (lcd_send_string_received i2c_h power_on [79; 75; 0; 33] Hs Hf)
    as [R _].
  exact R.
Defined.

(** X4. What the controller receives from a sequence of public operations
    is what it receives from each of them run on its own, one after the
    other: no operation leaves a nibble or an enable pulse pending, and the
    words an operation produces do not depend on the backlight flag, the
    handle or the address in force.  The two backlight operations produce
    no word at all. *)
Theorem received_in_sequence cfg ops st :
  PCF_NIBBLE_SHIFT cfg = 4 -> flag_ok st ->
  received (trace_of (run_ops cfg ops) st)
  = flat_map (fun op => received (trace_of (run_op cfg op) power_on)) ops /\
  received (trace_of (run_op cfg Op_backlight_on) st) = [] /\
  received (trace_of (run_op cfg Op_backlight_off) st) = [].
Proof.
  intros Hs Hst.
  assert (P0 : flag_ok power_on) by (right; reflexivity).
  split; [| split; reflexivity].
  assert (G : forall rest,
            received (trace_of (run_ops cfg ops) st ++ rest)
            = flat_map (fun op => received (trace_of (run_op cfg op) power_on)) ops
              ++ received rest).
  { revert st Hst. induction ops as [| op ops IH]; intros st Hst rest;
      [reflexivity |].
    cbn [run_ops flat_map]. rewrite andthen_trace, <- !app_assoc.
    destruct (framed_run_op cfg Hs op) as [ws Hws].
    destruct (Hws st (trace_of (run_ops cfg ops) (state_after (run_op cfg op) st)
                        ++ rest) Hst) as [F R].
    rewrite R, (IH _ F).
    destruct (Hws power_on [] P0) as [_ R0]. rewrite !app_nil_r in R0.
    rewrite R0. reflexivity. }
  specialize (G []). rewrite !app_nil_r in G. exact G.
Qed.

Lemma received_in_sequence_witness :
  (PCF_NIBBLE_SHIFT i2c_h = 4 /\ flag_ok power_on) /\
  received (trace_of (run_ops i2c_h
              [Op_send_string [72]; Op_backlight_off; Op_put_cur 1 0;
               Op_backlight_on; Op_send_string [105]]) power_on)
  = [Data 72; Cmd 0xC0; Data 105].
Proof.
  assert (Hs : PCF_NIBBLE_SHIFT i2c_h = 4) by reflexivity.
  assert (Hf : flag_ok power_on) by (right; reflexivity).
  split; [auto |].
  destruct (received_in_sequence i2c_h
              [Op_send_string [72]; Op_backlight_off; Op_put_cur 1 0;
               Op_backlight_on; Op_send_string [105]] power_on Hs Hf) as [R _].
  rewrite R. reflexivity.
Defined.

(** ** [lcd_show_wrapped] on any string *)

Lemma chunk_of_chars w s r :
  0 <= w -> 0 <= r -> r * w <= strlen s ->
  chunk w (chars s) r
  = firstn (Z.to_nat (Z.min w (strlen s - r * w))) (skipn (Z.to_nat (r * w)) s).
Proof.
  intros Hw Hr Hoff. unfold chunk, chars.
  rewrite skipn_firstn_comm, firstn_firstn. f_equal. lia.
Qed.

(** The copy loop at the start of a row that begins inside the string. *)
Lemma copy_chunk_any cfg s r :
  0 <= LCD_COLS cfg -> 0 <= r -> r * LCD_COLS cfg <= strlen s ->
  copy_chunk cfg (Z.to_nat (LCD_COLS cfg)) s (r * LCD_COLS cfg) 0 []
  = (chunk (LCD_COLS cfg) (chars s) r,
     Z.min (LCD_COLS cfg) (strlen s - r * LCD_COLS cfg)).
Proof.
  intros HC Hr Hoff. rewrite chunk_of_chars by assumption.
  assert (0 <= r * LCD_COLS cfg) by nia.
  destruct (Z_le_gt_dec (r * LCD_COLS cfg + LCD_COLS cfg) (strlen s)) as [Hfull | Hshort].
  - rewrite copy_chunk_full by lia. cbn [app].
    replace (Z.min (LCD_COLS cfg) (strlen s - r * LCD_COLS cfg)) with (LCD_COLS cfg) by lia.
    replace (r * LCD_COLS cfg + 0) with (r * LCD_COLS cfg) by lia. reflexivity.
  - rewrite copy_chunk_short by lia. cbn [app].
    replace (Z.min (LCD_COLS cfg) (strlen s - r * LCD_COLS cfg))
      with (strlen s - r * LCD_COLS cfg) by lia.
    replace (r * LCD_COLS cfg + 0) with (r * LCD_COLS cfg) by lia. reflexivity.
Qed.

(** Rows a text of [len] characters needs on a display [cols] wide: at least
    one, and one more for every started row. *)
Lemma rows_needed_spec len cols r :
  1 <= cols -> 0 <= len -> 0 <= r ->
  let k := Z.max 1 ((len + cols - 1) / cols) in
  (r < k -> r * cols <= len) /\
  (r < k -> (len - r * cols <= cols <-> k = r + 1)).
Proof.
  intros Hc Hl Hr k.
  pose proof (Z.div_mod (len + cols - 1) cols ltac:(lia)) as E.
  pose proof (Z.mod_pos_bound (len + cols - 1) cols ltac:(lia)) as B.
  set (q := (len + cols - 1) / cols) in *.
  assert (Hq : 0 <= q) by (apply Z.div_pos; lia).
  unfold k. split; [intros; nia |]. intros H. split; intros; nia.
Qed.

Lemma show_rows_done cfg n s r st :
  LCD_ROWS cfg <= r -> show_rows cfg n s r st = skip st.
Proof.
  intros H. destruct n as [| n]; [reflexivity |]. cbn [show_rows].
  replace (r <? LCD_ROWS cfg) with false by (symmetry; apply Z.ltb_ge; lia).
  reflexivity.
Qed.

Lemma show_rows_any cfg s :
  1 <= LCD_COLS cfg ->
  let rows := Z.min (LCD_ROWS cfg)
                    (Z.max 1 ((strlen s + LCD_COLS cfg - 1) / LCD_COLS cfg)) in
  forall n r st,
  0 <= r < rows -> LCD_ROWS cfg - r <= Z.of_nat n ->
  show_rows cfg n s r st
  = fold_right (fun r k => lcd_put_cur cfg r 0 ;;
                           lcd_send_string cfg (chunk (LCD_COLS cfg) (chars s) r) ;; k)
               skip (map Z.of_nat (seq (Z.to_nat r) (Z.to_nat (rows - r)))) st.
Proof.
  intros HC rows. pose proof (strlen_nonneg s) as HL.
  induction n as [| n IH]; intros r st Hr Hn; [lia |].
  destruct (rows_needed_spec (strlen s) (LCD_COLS cfg) r HC HL (proj1 Hr))
    as [Hoff Hlast].
  specialize (Hoff ltac:(lia)). specialize (Hlast ltac:(lia)).
  replace (Z.to_nat (rows - r)) with (S (Z.to_nat (rows - r - 1))) by lia.
  cbn [show_rows seq map fold_right].
  replace (r <? LCD_ROWS cfg) with true by (symmetry; apply Z.ltb_lt; lia).
  cbv zeta. rewrite copy_chunk_any by lia. rewrite Z2Nat.id by lia.
  apply andthen_ext. intros st1. apply andthen_ext. intros st2.
  replace (S (Z.to_nat r)) with (Z.to_nat (r + 1)) by lia.
  destruct (Z_le_gt_dec (strlen s - r * LCD_COLS cfg) (LCD_COLS cfg)) as [Hend | Hmore].
  - replace (r * LCD_COLS cfg + Z.min (LCD_COLS cfg) (strlen s - r * LCD_COLS cfg))
      with (strlen s) by lia.
    rewrite char_at_strlen. cbn [Z.eqb].
    replace (Z.to_nat (rows - r - 1)) with O by lia. reflexivity.
  - replace (r * LCD_COLS cfg + Z.min (LCD_COLS cfg) (strlen s - r * LCD_COLS cfg))
      with (r * LCD_COLS cfg + LCD_COLS cfg) by lia.
    pose proof (char_at_nonzero s (r * LCD_COLS cfg + LCD_COLS cfg)) as Hc.
    apply Z.eqb_neq in Hc; [| nia]. rewrite Hc.
    destruct (Z.eq_dec (r + 1) (LCD_ROWS cfg)) as [Hlastrow | Hnot].
    + rewrite show_rows_done by lia.
      replace (Z.to_nat (rows - r - 1)) with O by lia. reflexivity.
    + rewrite IH by lia.
      replace (rows - (r + 1)) with (rows - r - 1) by lia. reflexivity.
Qed.

Lemma shows_ext (a b : io) ws :
  (forall st, a st = b st) -> shows b ws -> shows a ws.
Proof.
  intros E H st rest Hst. unfold state_after, trace_of. rewrite E.
  apply (H st rest Hst).
Qed.

Lemma chars_nonul l : Forall (fun c => c <> 0) l -> chars l = l.
Proof.
  induction 1 as [| c l Hc Hl IH]; [reflexivity |].
  rewrite chars_cons by exact Hc. rewrite IH. reflexivity.
Qed.

Lemma Forall_firstn_skipn (P : Z -> Prop) a b l :
  Forall P l -> Forall P (firstn a (skipn b l)).
Proof.
  intros H. revert a b. induction H as [| x l Hx Hl IH]; intros a b.
  - rewrite skipn_nil, firstn_nil. constructor.
  - destruct b as [| b]; [| apply IH].
    cbn [skipn]. destruct a as [| a]; [constructor |].
    cbn [firstn]. constructor; [exact Hx |]. apply (IH a O).
Qed.

Lemma chars_chunk w s r : chars (chunk w (chars s) r) = chunk w (chars s) r.
Proof. apply chars_nonul, Forall_firstn_skipn, chars_nonzero. Qed.

(** On a tabulated geometry, a row-by-row program makes the controller
    receive, for each row, the row's address and then its text. *)
Lemma shows_rows cfg table (f : Z -> cstring) rows :
  PCF_NIBBLE_SHIFT cfg = 4 ->
  (LCD_ROWS cfg = 2 /\ LCD_COLS cfg = 16 /\ table = row_base_16x2) \/
  (LCD_ROWS cfg = 4 /\ LCD_COLS cfg = 20 /\ table = row_base_20x4) ->
  (forall r, In r rows -> 0 <= r < LCD_ROWS cfg) ->
  shows (fold_right (fun r k => lcd_put_cur cfg r 0 ;; lcd_send_string cfg (f r) ;; k)
                    skip rows)
        (flat_map (fun r => Cmd (0x80 + nth (Z.to_nat r) table 0)
                              :: map (fun c => Data (to_u8 c)) (chars (f r))) rows).
Proof.
  intros Hs G. induction rows as [| r rows IH]; intros Hrows;
    cbn [fold_right flat_map]; [apply shows_skip |].
  assert (Hr : 0 <= r < LCD_ROWS cfg) by (apply Hrows; left; reflexivity).
  set (F := fun r => Cmd (0x80 + nth (Z.to_nat r) table 0)
                       :: map (fun c => Data (to_u8 c)) (chars (f r))).
  apply (shows_andthen _ _ [Cmd (0x80 + nth (Z.to_nat r) table 0)]
           (map (fun c => Data (to_u8 c)) (chars (f r)) ++ flat_map F rows));
    [| apply shows_andthen].
  - assert (Hc : 0 <= 0 < LCD_COLS cfg) by (destruct G as [(_ & -> & _) | (_ & -> & _)]; lia).
    apply (shows_ext _ (lcd_send_cmd cfg (0x80 + nth (Z.to_nat r) table 0))).
    + intros st.
      destruct (lcd_put_cur_tabulated cfg table r 0 st G Hr Hc) as (E & _).
      cbv zeta in E. rewrite Z.add_0_r in E. exact E.
    + destruct (lcd_put_cur_tabulated cfg table r 0 power_on G Hr Hc) as (_ & _ & B).
      cbv zeta in B. rewrite Z.add_0_r in B.
      rewrite <- (to_u8_small _ B) at 2. apply (shows_send_cmd cfg Hs).
  - apply (shows_send_string cfg Hs).
  - apply IH. intros r' Hr'. apply Hrows. right. exact Hr'.
Qed.

Lemma upto_range n r : In r (upto n) <-> 0 <= r < n.
Proof.
  unfold upto. rewrite in_map_iff. split.
  - intros (k & <- & Hk). apply in_seq in Hk. lia.
  - intros H. exists (Z.to_nat r). split; [lia | apply in_seq; lia].
Qed.

Lemma lcd_show_wrapped_rows cfg st s :
  1 <= LCD_ROWS cfg -> 1 <= LCD_COLS cfg ->
  let rows := Z.min (LCD_ROWS cfg)
                    (Z.max 1 ((strlen s + LCD_COLS cfg - 1) / LCD_COLS cfg)) in
  lcd_show_wrapped cfg s st
  = fold_right (fun r k => lcd_put_cur cfg r 0 ;;
                           lcd_send_string cfg (chunk (LCD_COLS cfg) (chars s) r) ;; k)
               skip (upto rows) st.
Proof.
  intros HR HC rows. unfold lcd_show_wrapped, upto.
  rewrite (show_rows_any cfg s HC _ 0 st) by lia.
  fold rows. rewrite Z.sub_0_r. reflexivity.
Qed.

Lemma show_wrapped_chunks cfg s :
  1 <= LCD_ROWS cfg -> 1 <= LCD_COLS cfg ->
  let rows := Z.min (LCD_ROWS cfg)
                    (Z.max 1 ((strlen s + LCD_COLS cfg - 1) / LCD_COLS cfg)) in
  concat (map (chunk (LCD_COLS cfg) (chars s)) (upto rows))
  = firstn (Z.to_nat (LCD_ROWS cfg * LCD_COLS cfg)) (chars s).
Proof.
  intros HR HC rows. pose proof (strlen_nonneg s) as HL.
  pose proof (chars_length s) as Hlen.
  unfold upto. rewrite chunks_concat by lia.
  destruct (Z.eq_dec rows (LCD_ROWS cfg)) as [-> | Hne]; [f_equal; nia |].
  assert (Hk : strlen s <= rows * LCD_COLS cfg).
  { destruct (rows_needed_spec (strlen s) (LCD_COLS cfg) (rows - 1) HC HL
                ltac:(lia)) as [_ H].
    cbv zeta in H. specialize (H ltac:(lia)).
    destruct H as [_ H]. specialize (H ltac:(lia)). nia. }
  rewrite !firstn_all2; [reflexivity | nia | nia].
Qed.

(** X5. [lcd_show_wrapped] on any string.  It writes the rows the text
    needs (one for every started row of [LCD_COLS] characters, at least one)
    and no more than the display has; each of these rows gets one
    positioning at column 0 and its chunk of the text.  The chunks together
    are the first [LCD_ROWS * LCD_COLS] characters: a longer text is cut
    there, a text that fits is shown whole.  On the two tabulated
    geometries the controller receives each row's address instruction
    followed by that row's characters. *)
Theorem lcd_show_wrapped_any cfg st s :
  1 <= LCD_ROWS cfg -> 1 <= LCD_COLS cfg ->
  let rows := Z.min (LCD_ROWS cfg)
                    (Z.max 1 ((strlen s + LCD_COLS cfg - 1) / LCD_COLS cfg)) in
  let row_chunk := chunk (LCD_COLS cfg) (chars s) in
  lcd_show_wrapped cfg s st
  = fold_right (fun r k => lcd_put_cur cfg r 0 ;; lcd_send_string cfg (row_chunk r) ;; k)
               skip (upto rows) st /\
  concat (map row_chunk (upto rows))
  = firstn (Z.to_nat (LCD_ROWS cfg * LCD_COLS cfg)) (chars s) /\
  (strlen s <= LCD_ROWS cfg * LCD_COLS cfg ->
   concat (map row_chunk (upto rows)) = chars s) /\
  (forall table,
     (LCD_ROWS cfg = 2 /\ LCD_COLS cfg = 16 /\ table = row_base_16x2) \/
     (LCD_ROWS cfg = 4 /\ LCD_COLS cfg = 20 /\ table = row_base_20x4) ->
     PCF_NIBBLE_SHIFT cfg = 4 -> flag_ok st ->
     received (trace_of (lcd_show_wrapped cfg s) st)
     = flat_map (fun r => Cmd (0x80 + nth (Z.to_nat r) table 0)
                            :: map (fun c => Data (to_u8 c)) (row_chunk r))
                (upto rows)).
Proof.
  intros HR HC rows row_chunk. pose proof (strlen_nonneg s) as HL.
  pose proof (chars_length s) as Hlen.
  assert (Hrows : 1 <= rows <= LCD_ROWS cfg) by lia.
  assert (E := lcd_show_wrapped_rows cfg st s HR HC).
  assert (Cc := show_wrapped_chunks cfg s HR HC).
  cbv zeta in E, Cc. fold rows in E, Cc. fold row_chunk in E, Cc.
  split; [exact E |]. split; [exact Cc |]. split.
  - intros Hfit. rewrite Cc. apply firstn_all2. lia.
  - intros table G Hs Hst.
    assert (Sh := shows_rows cfg table row_chunk (upto rows) Hs G).
    destruct (Sh ltac:(intros r Hr; apply upto_range in Hr; lia) st [] Hst) as [_ R].
    rewrite !app_nil_r in R. unfold trace_of at 1. rewrite E.
    unfold trace_of in R. rewrite R.
    apply flat_map_ext. intros r. unfold row_chunk. rewrite chars_chunk. reflexivity.
Qed.

Lemma lcd_show_wrapped_any_witness :
  let s := map Z.of_nat (seq 48 40) in
  (1 <= LCD_ROWS i2c_h /\ 1 <= LCD_COLS i2c_h) /\
  received (trace_of (lcd_show_wrapped i2c_h s) power_on)
  = Cmd 0x80 :: map Data (map Z.of_nat (seq 48 16))
    ++ Cmd 0xC0 :: map Data (map Z.of_nat (seq 64 16)).
Proof.
  cbv zeta.
  assert (HR : 1 <= LCD_ROWS i2c_h) by (simpl; lia).
  assert (HC : 1 <= LCD_COLS i2c_h) by (simpl; lia).
  split; [auto |].
  destruct (lcd_show_wrapped_any i2c_h power_on (map Z.of_nat (seq 48 40)) HR HC)
    as (_ & _ & _ & R).
  rewrite (R row_base_16x2).
  - reflexivity.
  - left. repeat split.
  - reflexivity.
  - right. reflexivity.
Defined.

(** ** [lcd_scroll_line] *)

Lemma window_of_chars w s k :
  0 <= k -> k + w <= strlen s ->
  window w (chars s) k = firstn (Z.to_nat w) (skipn (Z.to_nat k) s).
Proof.
  intros Hk Hw. unfold window, chars.
  rewrite skipn_firstn_comm, firstn_firstn. f_equal. lia.
Qed.

Lemma read_window s n :
  forall k, 0 <= k -> k + Z.of_nat n <= strlen s ->
  map (fun i => char_at s (k + i)) (map Z.of_nat (seq 0 n))
  = firstn n (skipn (Z.to_nat k) s).
Proof.
  induction n as [| n IH]; intros k Hk Hn; [reflexivity |].
  cbn [seq map]. rewrite <- seq_shift, !map_map.
  rewrite (skipn_char_at s k) by lia. cbn [firstn].
  rewrite Z.add_0_r. f_equal.
  rewrite <- (IH (k + 1)) by lia. rewrite map_map.
  apply map_ext. intros i. f_equal. lia.
Qed.

Lemma scroll_buf cfg text start :
  0 <= LCD_COLS cfg -> 0 <= start -> start + LCD_COLS cfg <= strlen text ->
  map (fun i => char_at text (start + i)) (upto (LCD_COLS cfg))
  = window (LCD_COLS cfg) (chars text) start.
Proof.
  intros HC Hs Hl. unfold upto.
  rewrite read_window by lia. rewrite window_of_chars by lia. reflexivity.
Qed.

Lemma scroll_windows_run cfg row text delay_ms n :
  0 <= LCD_COLS cfg ->
  forall start st,
  0 <= start -> start + Z.of_nat n = strlen text - LCD_COLS cfg + 1 ->
  scroll_windows cfg n row text delay_ms (strlen text) start st
  = fold_right (fun k rest => lcd_put_cur cfg row 0 ;;
                              lcd_send_string cfg (window (LCD_COLS cfg) (chars text) k) ;;
                              HAL_Delay_ (to_u16 delay_ms) ;; rest)
               skip (map Z.of_nat (seq (Z.to_nat start) n)) st.
Proof.
  intros HC. induction n as [| n IH]; intros start st Hs Hn; [reflexivity |].
  cbn [scroll_windows seq map fold_right].
  replace (start <=? strlen text - LCD_COLS cfg) with true
    by (symmetry; apply Z.leb_le; lia).
  cbv zeta. rewrite scroll_buf by lia. rewrite Z2Nat.id by lia.
  apply andthen_ext. intros st1. apply andthen_ext. intros st2.
  apply andthen_ext. intros st3.
  replace (S (Z.to_nat start)) with (Z.to_nat (start + 1)) by lia.
  apply IH; lia.
Qed.

Lemma lcd_scroll_line_long cfg st row text delay_ms :
  0 <= LCD_COLS cfg -> LCD_COLS cfg < strlen text ->
  lcd_scroll_line cfg row text delay_ms st
  = fold_right (fun k rest => lcd_put_cur cfg row 0 ;;
                              lcd_send_string cfg (window (LCD_COLS cfg) (chars text) k) ;;
                              HAL_Delay_ (to_u16 delay_ms) ;; rest)
               skip (upto (strlen text - LCD_COLS cfg + 1)) st.
Proof.
  intros HC Hl. unfold lcd_scroll_line. cbv zeta.
  replace (strlen text <=? LCD_COLS cfg) with false
    by (symmetry; apply Z.leb_gt; lia).
  unfold upto. apply scroll_windows_run; lia.
Qed.

Lemma lcd_scroll_line_short cfg st row text delay_ms :
  strlen text <= LCD_COLS cfg ->
  lcd_scroll_line cfg row text delay_ms st
  = (lcd_put_cur cfg row 0 ;; lcd_send_string cfg text) st.
Proof.
  intros Hl. unfold lcd_scroll_line. cbv zeta.
  replace (strlen text <=? LCD_COLS cfg) with true
    by (symmetry; apply Z.leb_le; lia).
  reflexivity.
Qed.

Lemma window_length w s k :
  0 <= w -> 0 <= k -> k + w <= strlen s ->
  Z.of_nat (length (window w (chars s) k)) = w.
Proof.
  intros Hw Hk Hl. unfold window. pose proof (chars_length s).
  rewrite length_firstn, length_skipn. lia.
Qed.

(** X6. [lcd_scroll_line].  A text that fits in a row is positioned and
    written once, with no delay.  A longer text is shown as
    [strlen - LCD_COLS + 1] successive windows of [LCD_COLS] characters,
    each written from column 0 of the row and followed by one [HAL_Delay] of
    [delay_ms]: the first window is the beginning of the text, each window
    starts one character further, and the last one is the end of the text. *)
Theorem lcd_scroll_line_windows cfg st row text delay_ms :
  1 <= LCD_COLS cfg ->
  let len := strlen text in
  let win := window (LCD_COLS cfg) (chars text) in
  (len <= LCD_COLS cfg ->
   lcd_scroll_line cfg row text delay_ms st
   = (lcd_put_cur cfg row 0 ;; lcd_send_string cfg text) st) /\
  (LCD_COLS cfg < len ->
   lcd_scroll_line cfg row text delay_ms st
   = fold_right (fun k rest => lcd_put_cur cfg row 0 ;;
                               lcd_send_string cfg (win k) ;;
                               HAL_Delay_ (to_u16 delay_ms) ;; rest)
                skip (upto (len - LCD_COLS cfg + 1)) st /\
   (forall k, 0 <= k <= len - LCD_COLS cfg ->
      Z.of_nat (length (win k)) = LCD_COLS cfg /\
      win k = firstn (Z.to_nat (LCD_COLS cfg)) (skipn (Z.to_nat k) (chars text))) /\
   win (len - LCD_COLS cfg) = skipn (Z.to_nat (len - LCD_COLS cfg)) (chars text)).
Proof.
  intros HC len win. split.
  - apply lcd_scroll_line_short.
  - intros Hl. split; [apply lcd_scroll_line_long; lia |]. split.
    + intros k Hk. split; [apply window_length; lia | reflexivity].
    + unfold win, window. apply firstn_all2.
      pose proof (chars_length text). rewrite length_skipn. lia.
Qed.

Lemma lcd_scroll_line_windows_witness :
  let text := map Z.of_nat (seq 65 18) in
  1 <= LCD_COLS i2c_h /\
  lcd_scroll_line i2c_h 1 text 300 power_on
  = fold_right (fun k rest => lcd_put_cur i2c_h 1 0 ;;
                              lcd_send_string i2c_h (map Z.of_nat (seq (65 + Z.to_nat k) 16)) ;;
                              HAL_Delay_ 300 ;; rest)
               skip [0; 1; 2] power_on.
Proof.
  cbv zeta. assert (HC : 1 <= LCD_COLS i2c_h) by (simpl; lia).
  split; [exact HC |].
  destruct (lcd_scroll_line_windows i2c_h power_on 1 (map Z.of_nat (seq 65 18)) 300 HC)
    as [_ L].
  destruct L as (E & _); [vm_compute; reflexivity |].
  rewrite E. reflexivity.
Defined.

(** ** Blocking time *)

Lemma blocked_ms_app a b : blocked_ms (a ++ b) = blocked_ms a + blocked_ms b.
Proof.
  induction a as [| e a IH]; [reflexivity |].
  cbn [app blocked_ms]. destruct e; lia.
Qed.

Lemma blocked_send_string cfg st s :
  blocked_ms (trace_of (lcd_send_string cfg s) st) = 5 * strlen s.
Proof.
  induction s as [| c r IH]; [reflexivity |].
  cbn [lcd_send_string strlen]. destruct (c =? 0); [reflexivity |].
  rewrite andthen_trace, blocked_ms_app, lcd_send_data_state, IH.
  change (blocked_ms (trace_of (lcd_send_data cfg c) st)) with 5. lia.
Qed.

Lemma blocked_put_cur cfg st row col :
  blocked_ms (trace_of (lcd_put_cur cfg row col) st) = 6.
Proof. reflexivity. Qed.

Lemma strlen_nonul l : Forall (fun c => c <> 0) l -> strlen l = Z.of_nat (length l).
Proof.
  intros H. rewrite <- chars_length, (chars_nonul l H). reflexivity.
Qed.

Lemma blocked_rows cfg st (f : Z -> cstring) rows :
  (forall r, In r rows -> Forall (fun c => c <> 0) (f r)) ->
  blocked_ms (trace_of (fold_right
      (fun r k => lcd_put_cur cfg r 0 ;; lcd_send_string cfg (f r) ;; k) skip rows) st)
  = 6 * Z.of_nat (length rows) + 5 * Z.of_nat (length (concat (map f rows))).
Proof.
  induction rows as [| r rows IH]; intros Hf; [reflexivity |].
  cbn [fold_right map concat length].
  rewrite !andthen_trace, lcd_put_cur_state, lcd_send_string_state, !blocked_ms_app.
  rewrite blocked_put_cur, blocked_send_string, IH
    by (intros r' Hr'; apply Hf; right; exact Hr').
  rewrite strlen_nonul by (apply Hf; left; reflexivity).
  rewrite length_app. lia.
Qed.

Lemma blocked_windows cfg st row delay_ms (f : Z -> cstring) ks :
  (forall k, In k ks -> strlen (f k) = LCD_COLS cfg) ->
  blocked_ms (trace_of (fold_right
      (fun k rest => lcd_put_cur cfg row 0 ;; lcd_send_string cfg (f k) ;;
                     HAL_Delay_ (to_u16 delay_ms) ;; rest) skip ks) st)
  = Z.of_nat (length ks) * (6 + 5 * LCD_COLS cfg + to_u16 delay_ms).
Proof.
  induction ks as [| k ks IH]; intros Hf; [reflexivity |].
  cbn [fold_right length].
  rewrite !andthen_trace, lcd_put_cur_state, lcd_send_string_state, !blocked_ms_app.
  change (state_after (HAL_Delay_ (to_u16 delay_ms)) st) with st.
  rewrite blocked_put_cur, blocked_send_string, IH
    by (intros k' Hk'; apply Hf; right; exact Hk').
  rewrite (Hf k) by (left; reflexivity).
  change (blocked_ms (trace_of (HAL_Delay_ (to_u16 delay_ms)) st))
    with (to_u16 delay_ms + 0).
  lia.
Qed.

Lemma upto_length n : 0 <= n -> Z.of_nat (length (upto n)) = n.
Proof. intros H. unfold upto. rewrite length_map, length_seq. lia. Qed.

(** X7. Time spent in [HAL_Delay] by the text operations, whatever the
    state and the bytes sent: 5 ms for every character of a string, 8 ms
    for [lcd_clear], 6 ms for a cursor positioning; [lcd_show_wrapped]
    takes 6 ms for each row it writes and 5 ms for each character it shows,
    of which there are at most [LCD_ROWS * LCD_COLS]. *)
Theorem lcd_text_blocking_time cfg st s :
  1 <= LCD_ROWS cfg -> 1 <= LCD_COLS cfg ->
  let rows := Z.min (LCD_ROWS cfg)
                    (Z.max 1 ((strlen s + LCD_COLS cfg - 1) / LCD_COLS cfg)) in
  blocked_ms (trace_of (lcd_send_string cfg s) st) = 5 * strlen s /\
  blocked_ms (trace_of (lcd_clear cfg) st) = 8 /\
  (forall row col, blocked_ms (trace_of (lcd_put_cur cfg row col) st) = 6) /\
  blocked_ms (trace_of (lcd_show_wrapped cfg s) st)
  = 6 * rows + 5 * Z.min (strlen s) (LCD_ROWS cfg * LCD_COLS cfg).
Proof.
  intros HR HC rows. split; [apply blocked_send_string |].
  split; [reflexivity |]. split; [intros; apply blocked_put_cur |].
  unfold trace_of at 1. rewrite (lcd_show_wrapped_rows cfg st s HR HC).
  fold rows.
  match goal with |- blocked_ms (snd (?f st)) = _ => fold (trace_of f st) end.
  rewrite blocked_rows by (intros; apply Forall_firstn_skipn, chars_nonzero).
  pose proof (show_wrapped_chunks cfg s HR HC) as Cc. cbv zeta in Cc. fold rows in Cc.
  rewrite Cc, length_firstn, upto_length by lia.
  pose proof (chars_length s). pose proof (strlen_nonneg s). nia.
Qed.

Lemma lcd_text_blocking_time_witness :
  (1 <= LCD_ROWS i2c_h /\ 1 <= LCD_COLS i2c_h) /\
  blocked_ms (trace_of (lcd_show_wrapped i2c_h (map Z.of_nat (seq 48 40))) power_on)
  = 6 * 2 + 5 * 32.
Proof.
  assert (HR : 1 <= LCD_ROWS i2c_h) by (simpl; lia).
  assert (HC : 1 <= LCD_COLS i2c_h) by (simpl; lia).
  split; [auto |].
  destruct (lcd_text_blocking_time i2c_h power_on (map Z.of_nat (seq 48 40)) HR HC)
    as (_ & _ & _ & T).
  rewrite T. reflexivity.
Defined.

(** X8. [lcd_scroll_line] blocks its caller for the whole scroll: for a
    text longer than a row, every one of the [strlen - LCD_COLS + 1] windows
    costs 6 ms of positioning, 5 ms for each of its [LCD_COLS] characters
    and the step delay, cut to 16 bits; a text that fits costs its
    positioning and its characters and no step delay. *)
Theorem lcd_scroll_line_blocking_time cfg st row text delay_ms :
  1 <= LCD_COLS cfg ->
  blocked_ms (trace_of (lcd_scroll_line cfg row text delay_ms) st)
  = if strlen text <=? LCD_COLS cfg
    then 6 + 5 * strlen text
    else (strlen text - LCD_COLS cfg + 1)
         * (6 + 5 * LCD_COLS cfg + delay_ms mod 65536).
Proof.
  intros HC. unfold trace_of at 1.
  destruct (strlen text <=? LCD_COLS cfg) eqn:E.
  - apply Z.leb_le in E. rewrite lcd_scroll_line_short by exact E.
    fold (trace_of (lcd_put_cur cfg row 0 ;; lcd_send_string cfg text) st).
    rewrite andthen_trace, blocked_ms_app, lcd_put_cur_state.
    rewrite blocked_put_cur, blocked_send_string. reflexivity.
  - apply Z.leb_gt in E. rewrite lcd_scroll_line_long by lia.
    match goal with |- blocked_ms (snd (?f st)) = _ => fold (trace_of f st) end.
    rewrite blocked_windows.
    + rewrite upto_length by lia. reflexivity.
    + intros k Hk. apply upto_range in Hk.
      rewrite strlen_nonul by (apply Forall_firstn_skipn, chars_nonzero).
      apply window_length; lia.
Qed.

Lemma lcd_scroll_line_blocking_time_witness :
  1 <= LCD_COLS i2c_h /\
  blocked_ms (trace_of (lcd_scroll_line i2c_h 0 (map Z.of_nat (seq 65 26)) 250) power_on)
  = 11 * (6 + 5 * 16 + 250).
Proof.
  assert (HC : 1 <= LCD_COLS i2c_h) by (simpl; lia).
  split; [exact HC |].
  rewrite (lcd_scroll_line_blocking_time i2c_h power_on 0 _ 250 HC). reflexivity.
Defined.

(** ** [lcd_ascii_test] *)

Lemma andthen_assoc (a b c : io) st : ((a ;; b) ;; c) st = (a ;; b ;; c) st.
Proof.
  unfold andthen. destruct (a st) as [s1 t1]. destruct (b s1) as [s2 t2].
  destruct (c s2) as [s3 t3]. rewrite app_assoc. reflexivity.
Qed.

Lemma ascii_test_rows cfg rows st :
  fold_right (fun r k => ascii_test_row cfg r ;; k) skip rows st
  = fold_right (fun r k =>
        lcd_put_cur cfg r 0 ;;
        lcd_send_string cfg
          (map (fun i => to_u8 (32 + r * LCD_COLS cfg + i))
               (upto (if LCD_COLS cfg >? 32 - 1 then 32 - 1 else LCD_COLS cfg))) ;; k)
      skip rows st.
Proof.
  revert st. induction rows as [| r rows IH]; intros st; [reflexivity |].
  cbn [fold_right]. unfold ascii_test_row at 1. cbv zeta.
  rewrite andthen_assoc. apply andthen_ext. intros st1.
  apply andthen_ext. exact IH.
Qed.

(** X9. [lcd_ascii_test] on the two tabulated geometries: the controller
    receives, row after row, the row's address instruction and then
    [LCD_COLS] consecutive characters, the whole run starting at the space
    character (32) and continuing from one row to the next. *)
Theorem lcd_ascii_test_pattern cfg st table :
  (LCD_ROWS cfg = 2 /\ LCD_COLS cfg = 16 /\ table = row_base_16x2) \/
  (LCD_ROWS cfg = 4 /\ LCD_COLS cfg = 20 /\ table = row_base_20x4) ->
  PCF_NIBBLE_SHIFT cfg = 4 -> flag_ok st ->
  received (trace_of (lcd_ascii_test cfg) st)
  = flat_map (fun r => Cmd (0x80 + nth (Z.to_nat r) table 0)
                         :: map (fun i => Data (32 + r * LCD_COLS cfg + i))
                                (upto (LCD_COLS cfg)))
             (upto (LCD_ROWS cfg)) /\
  concat (map (fun r => map (fun i => 32 + r * LCD_COLS cfg + i) (upto (LCD_COLS cfg)))
              (upto (LCD_ROWS cfg)))
  = map (fun i => 32 + i) (upto (LCD_ROWS cfg * LCD_COLS cfg)).
Proof.
  intros G Hs Hst.
  pose (f := fun r => map (fun i => to_u8 (32 + r * LCD_COLS cfg + i))
               (upto (if LCD_COLS cfg >? 32 - 1 then 32 - 1 else LCD_COLS cfg))).
  assert (Sh := shows_rows cfg table f (upto (LCD_ROWS cfg)) Hs G).
  destruct (Sh ltac:(intros r Hr; apply upto_range in Hr; lia) st [] Hst) as [_ R].
  rewrite !app_nil_r in R. unfold trace_of in R |- *.
  unfold lcd_ascii_test. rewrite ascii_test_rows.
  subst f. cbv beta in R. rewrite R.
  destruct G as [(-> & -> & ->) | (-> & -> & ->)]; split; reflexivity.
Qed.

Lemma lcd_ascii_test_pattern_witness :
  (PCF_NIBBLE_SHIFT i2c_h = 4 /\ flag_ok power_on) /\
  received (trace_of (lcd_ascii_test i2c_h) power_on)
  = Cmd 0x80 :: map Data (map Z.of_nat (seq 32 16))
    ++ Cmd 0xC0 :: map Data (map Z.of_nat (seq 48 16)).
Proof.
  assert (Hs : PCF_NIBBLE_SHIFT i2c_h = 4) by reflexivity.
  assert (Hf : flag_ok power_on) by (right; reflexivity).
  split; [auto |].
  destruct (lcd_ascii_test_pattern i2c_h power_on row_base_16x2
              ltac:(left; repeat split) Hs Hf) as [R _].
  rewrite R. reflexivity.
Defined.

End LcdMore.

(** * More on the LED bit-banger *)

Section LedMore.

Import WS2812B.

Lemma delay_loop_counts n :
  forall fuel, 0 <= n -> (Z.to_nat n < fuel)%nat -> n < 4294967296 ->
  delay_loop fuel n = Some n.
Proof.
  intros fuel. revert n. induction fuel as [| fuel IH]; intros n Hn Hf Hb; [lia |].
  cbn [delay_loop]. destruct (Z.eqb_spec n 0) as [-> | Hz]; [reflexivity |].
  replace (to_u32 (n - 1)) with (n - 1)
    by (unfold to_u32; rewrite Z.mod_small; lia).
  rewrite IH by lia. cbn [option_map]. f_equal. lia.
Qed.

(** X10. [ws2812b_delay] never spins more than twice.  The nanosecond
    count is multiplied by the clock in 32 bits before the division by
    10^9, so whatever the clock and the delay asked for the loop count is
    ((ns * clock) mod 2^32) / 10^9 / 2, which is at most 2; it is the
    intended ns * clock / 10^9 / 2 only while the product stays below 2^32.
    At the 168 MHz the source assumes, the four delays [T0H], [T1H], [T0L],
    [T1L] execute 1, 0, 0 and 1 [__NOP]: the high time of a 1 bit is not
    longer than that of a 0 bit. *)
Theorem ws2812b_delay_spins_at_most_twice SystemCoreClock ns :
  0 <= SystemCoreClock < 4294967296 -> 0 <= ns < 4294967296 ->
  let n := ((ns * SystemCoreClock) mod 4294967296) / 1000000000 / 2 in
  ws2812b_delay_nops 3 SystemCoreClock ns = Some n /\
  0 <= n <= 2 /\
  (ns * SystemCoreClock < 4294967296 -> n = ns * SystemCoreClock / 1000000000 / 2) /\
  (SystemCoreClock = 168000000 ->
   map (ws2812b_delay_nops 3 SystemCoreClock) [T0H; T1H; T0L; T1L]
   = [Some 1; Some 0; Some 0; Some 1]).
Proof.
  intros Hc Hn n.
  pose proof (Z.mod_pos_bound (ns * SystemCoreClock) 4294967296 ltac:(lia)) as Hm.
  assert (Hr : 0 <= n <= 2).
  { unfold n. split.
    - apply Z.div_pos; [apply Z.div_pos |]; lia.
    - apply Z.lt_succ_r. apply Z.div_lt_upper_bound; [lia |].
      apply Z.div_lt_upper_bound; lia. }
  split; [| split; [exact Hr | split]].
  - unfold ws2812b_delay_nops, NS_TO_CYCLES. cbv zeta.
    replace (to_u32 ns) with ns by (unfold to_u32; rewrite Z.mod_small; lia).
    unfold to_u32 at 2. fold n.
    replace (to_u32 n) with n by (unfold to_u32; rewrite Z.mod_small; lia).
    apply delay_loop_counts; lia.
  - intros Hsmall. unfold n. rewrite Z.mod_small by nia. reflexivity.
  - intros ->. reflexivity.
Qed.

Lemma ws2812b_delay_spins_at_most_twice_witness :
  (0 <= 84000000 < 4294967296 /\ 0 <= T1H < 4294967296) /\
  ws2812b_delay_nops 3 84000000 T1H = Some 1 /\
  ws2812b_delay_nops 3 84000000 T0H = Some 1.
Proof.
  assert (Hc : 0 <= 84000000 < 4294967296) by lia.
  assert (H1 : 0 <= T1H < 4294967296) by (unfold T1H; lia).
  assert (H0 : 0 <= T0H < 4294967296) by (unfold T0H; lia).
  split; [auto |]. split.
  - destruct (ws2812b_delay_spins_at_most_twice 84000000 T1H Hc H1) as [E _].
    rewrite E. reflexivity.
  - destruct (ws2812b_delay_spins_at_most_twice 84000000 T0H Hc H0) as [E _].
    rewrite E. reflexivity.
Defined.

(** X11. Up to 21845 LEDs, with a buffer of exactly three bytes per LED,
    [ws2812b_send] returns, with the interrupt mask as it found it, having
    put on the wire the pulses of every byte of the buffer in order, eight
    per byte and most significant bit first, that is 24 per LED, and then
    the reset (line low, one [HAL_Delay] of 1 ms).  Only the low eight bits
    of a buffer element count.  With no LED there is no pulse and the reset
    is still performed.  More fuel than the buffer length plus one changes
    nothing. *)
Theorem ws2812b_send_small_strip led_buffer led_count cpu extra :
  0 <= led_count <= 21845 -> Z.of_nat (length led_buffer) = 3 * led_count ->
  ws2812b_send (S (length led_buffer) + extra) led_buffer led_count cpu
  = Returned cpu
      ([disable_irq] ++ waveform led_buffer
         ++ [HAL_GPIO_WritePin GPIO_PIN_RESET; HAL_Delay 1]
         ++ (if PRIMASK cpu then [] else [enable_irq])) /\
  rising_edges (waveform led_buffer) = 24 * led_count /\
  waveform led_buffer = waveform (map to_u8 led_buffer) /\
  (led_count = 0 -> waveform led_buffer = []).
Proof.
  intros Hn Hl.
  destruct (ws2812b_send_waveform led_buffer led_count cpu extra Hn Hl) as [E R].
  split; [exact E |]. split; [exact R |]. split.
  - clear. induction led_buffer as [| b l IH]; [reflexivity |].
    cbn [map]. rewrite !waveform_cons, <- IH. f_equal.
    rewrite <- (send_bits_waveform b), <- (send_bits_waveform (to_u8 b)).
    rewrite (to_u8_small (to_u8 b)) by apply to_u8_range. reflexivity.
  - intros ->. destruct led_buffer; [reflexivity | cbn [length] in Hl; lia].
Qed.

Lemma ws2812b_send_small_strip_witness :
  (0 <= 1 <= 21845 /\ Z.of_nat (length [0x80; 0x01; 0x100]) = 3 * 1) /\
  rising_edges (waveform [0x80; 0x01; 0x100]) = 24 /\
  waveform [0x80; 0x01; 0x100]
  = pulse true ++ concat (repeat (pulse false) 14) ++ pulse true
    ++ concat (repeat (pulse false) 8).
Proof.
  assert (Hn : 0 <= 1 <= 21845) by lia.
  assert (Hl : Z.of_nat (length [0x80; 0x01; 0x100]) = 3 * 1) by reflexivity.
  split; [auto |].
  destruct (ws2812b_send_small_strip [0x80; 0x01; 0x100] 1 {| PRIMASK := false |} 0 Hn Hl)
    as (_ & R & _).
  split; [exact R | reflexivity].
Defined.

Lemma send_bytes_overrun led_buffer bound :
  Z.of_nat (length led_buffer) < bound -> Z.of_nat (length led_buffer) <= 65535 ->
  forall n fuel i, (n < fuel)%nat -> 0 <= i ->
  i + Z.of_nat n = Z.of_nat (length led_buffer) ->
  send_bytes fuel led_buffer bound i = OutOfBounds.
Proof.
  intros Hb Hl. induction n as [| n IH]; intros fuel i Hf Hi Hn;
    (destruct fuel as [| fuel]; [lia |]); cbn [send_bytes];
    (replace (i <? bound) with true by (symmetry; apply Z.ltb_lt; lia)).
  - replace (nth_error led_buffer (Z.to_nat i)) with (@None Z); [reflexivity |].
    symmetry. apply nth_error_None. lia.
  - destruct (skipn_nth_error Z led_buffer (Z.to_nat i)) as (b & E1 & _); [lia |].
    rewrite E1. cbv zeta.
    replace (to_u16 (i + 1)) with (i + 1) by (unfold to_u16; rewrite Z.mod_small; lia).
    rewrite IH by lia. reflexivity.
Qed.

(** X12. [ws2812b_send] does not check the buffer against [led_count].
    With a buffer shorter than three bytes per LED (and shorter than the
    65536 bytes the counter can index) the byte loop goes on to read
    [led_buffer[length]], one element past the end. *)
Theorem ws2812b_send_overruns_short_buffer led_buffer led_count cpu extra :
  0 <= led_count <= 65535 ->
  Z.of_nat (length led_buffer) < 3 * led_count ->
  Z.of_nat (length led_buffer) <= 65535 ->
  ws2812b_send (S (length led_buffer) + extra) led_buffer led_count cpu = BadRead.
Proof.
  intros Hn Hl Hs. unfold ws2812b_send. cbv zeta.
  replace (to_u16 led_count) with led_count
    by (unfold to_u16; rewrite Z.mod_small; lia).
  rewrite (send_bytes_overrun led_buffer (led_count * 3)) with (n := length led_buffer);
    [reflexivity | lia | lia | lia | lia | lia].
Qed.

Lemma ws2812b_send_overruns_short_buffer_witness :
  (0 <= 2 <= 65535 /\ Z.of_nat (length [1; 2; 3; 4]) < 3 * 2 /\
   Z.of_nat (length [1; 2; 3; 4]) <= 65535) /\
  ws2812b_send 5 [1; 2; 3; 4] 2 {| PRIMASK := false |} = BadRead.
Proof.
  assert (Hn : 0 <= 2 <= 65535) by lia.
  assert (Hl : Z.of_nat (length [1; 2; 3; 4]) < 3 * 2) by (simpl; lia).
  assert (Hs : Z.of_nat (length [1; 2; 3; 4]) <= 65535) by (simpl; lia).
  split; [auto |].
  apply (ws2812b_send_overruns_short_buffer [1; 2; 3; 4] 2 _ 0 Hn Hl Hs).
Defined.

End LedMore.

(** * The quiz application *)

Section QuizFacts.

Import WS2812B I2C_LCD MAIN.

(** ** The buzzer *)

Lemma buzzer_pulses_app a b : buzzer_pulses (a ++ b) = buzzer_pulses a + buzzer_pulses b.
Proof.
  induction a as [| e a IH]; [reflexivity |].
  cbn [app buzzer_pulses]. destruct e as [[|] | |]; lia.
Qed.

Lemma buzzer_pulses_cycles (l : list Z) :
  buzzer_pulses (flat_map (fun _ => tone_cycle) l) = Z.of_nat (length l).
Proof.
  induction l as [| x l IH]; [reflexivity |].
  cbn [flat_map length]. rewrite buzzer_pulses_app, IH.
  replace (buzzer_pulses tone_cycle) with 1 by reflexivity. lia.
Qed.

Lemma wait_free_cycles (l : list Z) ms :
  ~ In (Wait ms) (flat_map (fun _ => tone_cycle) l).
Proof.
  induction l as [| x l IH]; [intros [] |].
  cbn [flat_map]. intros H. apply in_app_or in H. destruct H as [H | H]; [| auto].
  unfold tone_cycle, nop_loop in H. cbn [app] in H.
  destruct H as [H | H]; [discriminate |].
  apply in_app_or in H. destruct H as [H | H].
  - apply in_map_iff in H. destruct H as (? & H & _). discriminate.
  - destruct H as [H | H]; [discriminate |].
    apply in_map_iff in H. destruct H as (? & H & _). discriminate.
Qed.

(** X13. [play_tone].  With a frequency of 0 it only waits for the
    duration.  Otherwise it never waits: it toggles the buzzer
    ((freq * duration_ms) mod 2^32) / 1000 times, every cycle being the same
    two half-periods of 250 [__NOP]s, and leaves the pin low.  The
    frequency therefore only enters through the number of cycles: two calls
    with the same cycle count drive the buzzer identically, whatever their
    frequencies. *)
Theorem play_tone_cycles freq duration_ms :
  0 <= freq < 4294967296 -> 0 <= duration_ms < 4294967296 ->
  let cycles := ((freq * duration_ms) mod 4294967296) / 1000 in
  (freq = 0 -> play_tone freq duration_ms = [Wait duration_ms]) /\
  (freq <> 0 ->
   play_tone freq duration_ms = flat_map (fun _ => tone_cycle) (upto cycles) /\
   buzzer_pulses (play_tone freq duration_ms) = cycles /\
   (forall ms, ~ In (Wait ms) (play_tone freq duration_ms)) /\
   (0 < cycles ->
    exists before, play_tone freq duration_ms
                   = before ++ Buzzer GPIO_PIN_RESET :: nop_loop) /\
   (forall freq' duration_ms',
      0 < freq' < 4294967296 -> 0 <= duration_ms' < 4294967296 ->
      ((freq' * duration_ms') mod 4294967296) / 1000 = cycles ->
      play_tone freq' duration_ms' = play_tone freq duration_ms)).
Proof.
  intros Hf Hd cycles.
  pose proof (Z.mod_pos_bound (freq * duration_ms) 4294967296 ltac:(lia)) as Hm.
  assert (Hc : 0 <= cycles < 4294967296).
  { unfold cycles. split; [apply Z.div_pos; lia |].
    apply Z.div_lt_upper_bound; lia. }
  assert (U : forall x, 0 <= x < 4294967296 -> to_u32 x = x)
    by (intros x Hx; unfold to_u32; apply Z.mod_small; exact Hx).
  assert (E : forall f d, 0 < f < 4294967296 -> 0 <= d < 4294967296 ->
            play_tone f d
            = flat_map (fun _ => tone_cycle) (upto (((f * d) mod 4294967296) / 1000))).
  { intros f d Hf' Hd'. unfold play_tone. cbv zeta. rewrite (U f), (U d) by lia.
    replace (f =? 0) with false by (symmetry; apply Z.eqb_neq; lia).
    unfold to_u32 at 2.
    pose proof (Z.mod_pos_bound (f * d) 4294967296 ltac:(lia)).
    rewrite U; [reflexivity |].
    split; [apply Z.div_pos; lia | apply Z.div_lt_upper_bound; lia]. }
  split.
  - intros ->. unfold play_tone. cbv zeta. rewrite (U duration_ms Hd). reflexivity.
  - intros Hnz. rewrite (E freq duration_ms) by lia. fold cycles.
    split; [reflexivity |]. split; [| split; [| split]].
    + rewrite buzzer_pulses_cycles. unfold upto.
      rewrite length_map, length_seq. lia.
    + intros ms. apply wait_free_cycles.
    + intros Hpos. unfold upto.
      replace (Z.to_nat cycles) with (S (Z.to_nat (cycles - 1))) by lia.
      rewrite seq_S, map_app, flat_map_app. cbn [map flat_map].
      rewrite app_nil_r.
      exists (flat_map (fun _ => tone_cycle)
                (map Z.of_nat (seq 0 (Z.to_nat (cycles - 1))))
              ++ Buzzer GPIO_PIN_SET :: nop_loop).
      rewrite <- app_assoc. reflexivity.
    + intros f' d' Hf' Hd' Hsame. rewrite (E f' d') by lia. rewrite Hsame.
      reflexivity.
Qed.

Lemma play_tone_cycles_witness :
  (0 <= 2000 < 4294967296 /\ 0 <= 450 < 4294967296) /\
  buzzer_pulses (play_tone 2000 450) = 900 /\
  play_tone 1000 900 = play_tone 2000 450.
Proof.
  assert (Hf : 0 <= 2000 < 4294967296) by lia.
  assert (Hd : 0 <= 450 < 4294967296) by lia.
  split; [auto |].
  destruct (play_tone_cycles 2000 450 Hf Hd) as [_ H].
  destruct H as (_ & P & _ & _ & S); [lia |].
  split; [exact P |].
  apply S; [lia | lia | reflexivity].
Defined.

(** ** Reading an answer *)

Lemma store_at (pre : list Z) z tail v :
  store (pre ++ z :: tail) (Z.of_nat (length pre)) v = (pre ++ [v]) ++ tail.
Proof.
  unfold store. rewrite Nat2Z.id.
  rewrite firstn_app, firstn_all, Nat.sub_diag. cbn [firstn]. rewrite app_nil_r.
  replace (S (length pre)) with (length (pre ++ [z]))
    by (rewrite length_app; cbn [length]; lia).
  replace (pre ++ z :: tail) with ((pre ++ [z]) ++ tail)
    by (rewrite <- app_assoc; reflexivity).
  rewrite skipn_app, skipn_all, Nat.sub_diag. cbn [skipn app].
  rewrite <- app_assoc. reflexivity.
Qed.

(** The loop meets the end of line before the buffer is full. *)
Lemma receive_loop_line line :
  Forall (fun b => is_eol b = false) line ->
  forall n pre tail eol rest,
  is_eol eol = true ->
  (length line < n)%nat -> (length line <= length tail)%nat ->
  Z.of_nat (length pre) + Z.of_nat (length line) < rx_size - 1 ->
  receive_loop n (pre ++ tail) (Z.of_nat (length pre)) (line ++ eol :: rest)
  = Some (pre ++ map to_u8 line ++ skipn (length line) tail,
          Z.of_nat (length pre) + Z.of_nat (length line), rest).
Proof.
  induction 1 as [| b line Hb Hline IH]; intros n pre tail eol rest He Hn Ht Hi;
    (destruct n as [| n]; [cbn [length] in Hn; lia |]); cbn [receive_loop app].
  - replace (Z.of_nat (length pre) <? rx_size - 1) with true
      by (symmetry; apply Z.ltb_lt; cbn [length] in Hi; lia).
    cbv zeta. unfold is_eol in He. rewrite He. cbn [length map skipn app].
    rewrite Z.add_0_r. reflexivity.
  - cbn [length] in Hn, Ht, Hi.
    replace (Z.of_nat (length pre) <? rx_size - 1) with true
      by (symmetry; apply Z.ltb_lt; lia).
    cbv zeta. unfold is_eol in Hb. rewrite Hb.
    destruct tail as [| z tail]; [cbn [length] in Ht; lia |].
    rewrite store_at.
    replace (Z.of_nat (length pre) + 1) with (Z.of_nat (length (pre ++ [to_u8 b])))
      by (rewrite length_app; cbn [length]; lia).
    rewrite (IH n (pre ++ [to_u8 b]) tail eol rest He)
      by (try rewrite length_app; cbn [length] in *; lia).
    cbn [map skipn]. rewrite <- !app_assoc. cbn [app].
    match goal with
    | |- Some (_, ?x, _) = Some (_, ?y, _) =>
        replace x with y by (rewrite length_app; cbn [length]; lia)
    end.
    reflexivity.
Qed.

(** The buffer fills up before an end of line is met. *)
Lemma receive_loop_full line :
  forall n pre tail more,
  Forall (fun b => is_eol b = false) line ->
  (length line < n)%nat -> (length line <= length tail)%nat ->
  Z.of_nat (length pre) + Z.of_nat (length line) = rx_size - 1 ->
  receive_loop n (pre ++ tail) (Z.of_nat (length pre)) (line ++ more)
  = Some (pre ++ map to_u8 line ++ skipn (length line) tail, rx_size - 1, more).
Proof.
  induction line as [| b line IH]; intros n pre tail more Hline Hn Ht Hi;
    (destruct n as [| n]; [cbn [length] in Hn; lia |]); cbn [receive_loop app].
  - cbn [length] in Hi.
    replace (Z.of_nat (length pre) <? rx_size - 1) with false
      by (symmetry; apply Z.ltb_ge; lia).
    cbn [length map skipn app].
    replace (rx_size - 1) with (Z.of_nat (length pre)) by lia. reflexivity.
  - cbn [length] in Hn, Ht, Hi. inversion Hline as [| ? ? Hb Hl]; subst.
    replace (Z.of_nat (length pre) <? rx_size - 1) with true
      by (symmetry; apply Z.ltb_lt; lia).
    cbv zeta. unfold is_eol in Hb. rewrite Hb.
    destruct tail as [| z tail]; [cbn [length] in Ht; lia |].
    rewrite store_at.
    replace (Z.of_nat (length pre) + 1) with (Z.of_nat (length (pre ++ [to_u8 b])))
      by (rewrite length_app; cbn [length]; lia).
    rewrite (IH n (pre ++ [to_u8 b]) tail more Hl)
      by (try rewrite length_app; cbn [length] in *; lia).
    cbn [length map skipn]. rewrite <- !app_assoc. reflexivity.
Qed.

(** The line stops short of both: the loop waits for ever. *)
Lemma receive_loop_blocks line :
  Forall (fun b => is_eol b = false) line ->
  forall n buf idx,
  idx + Z.of_nat (length line) < rx_size - 1 ->
  receive_loop n buf idx line = None.
Proof.
  induction 1 as [| b line Hb Hline IH]; intros n buf idx Hi;
    (destruct n as [| n]; [reflexivity |]); cbn [receive_loop];
    cbn [length] in Hi;
    (replace (idx <? rx_size - 1) with true by (symmetry; apply Z.ltb_lt; lia)).
  - reflexivity.
  - cbv zeta. unfold is_eol in Hb. rewrite Hb. apply IH. lia.
Qed.

Lemma zeros_upto n : map (fun _ : Z => 0) (upto (Z.of_nat n)) = repeat 0 n.
Proof.
  unfold upto. rewrite Nat2Z.id, map_map.
  generalize 0%nat as s. induction n as [| n IH]; intros s; [reflexivity |].
  cbn [seq map repeat]. rewrite IH. reflexivity.
Qed.

Lemma skipn_zeros n k : skipn n (repeat 0 k) = repeat 0 (k - n).
Proof.
  revert n. induction k as [| k IH]; intros [| n]; try reflexivity.
  cbn [repeat skipn]. apply IH.
Qed.

Lemma store_zero_on_zeros (pre : list Z) k :
  (0 < k)%nat ->
  store (pre ++ repeat 0 k) (Z.of_nat (length pre)) 0 = pre ++ repeat 0 k.
Proof.
  intros Hk. destruct k as [| k]; [lia |]. cbn [repeat].
  rewrite store_at, <- app_assoc. reflexivity.
Qed.

(** X14. Reading an answer.  The bytes of the line up to its first CR or
    LF are stored in [rx_buffer], zero-filled to its 32 bytes, and the
    terminator is consumed, provided there are at most 30 of them.  From 31
    bytes on, only the first 31 are taken and the rest of the line, with
    its terminator, stays on the UART for the next read.  A terminator that
    comes first, such as the LF of a CR LF pair, gives an empty answer.  A
    line that ends before 31 bytes without CR or LF blocks the read for
    ever. *)
Theorem read_answer_line line eol rest :
  Forall (fun b => is_eol b = false) line -> is_eol eol = true ->
  let k := Z.of_nat (length line) in
  (k < 31 ->
   read_answer (line ++ eol :: rest)
   = Some (map to_u8 line ++ repeat 0 (32 - length line), rest)) /\
  (31 <= k ->
   read_answer (line ++ eol :: rest)
   = Some (map to_u8 (firstn 31 line) ++ [0], skipn 31 line ++ eol :: rest)) /\
  read_answer (eol :: rest) = Some (repeat 0 32, rest) /\
  (k < 31 -> read_answer line = None).
Proof.
  intros Hline He k.
  assert (Z32 : map (fun _ : Z => 0) (upto rx_size) = repeat 0 32)
    by (apply (zeros_upto 32)).
  assert (Short : forall l, Forall (fun b => is_eol b = false) l ->
            Z.of_nat (length l) < 31 ->
            read_answer (l ++ eol :: rest)
            = Some (map to_u8 l ++ repeat 0 (32 - length l), rest)).
  { intros l Hl Hk. unfold read_answer. cbv zeta. rewrite Z32.
    assert (L := receive_loop_line l Hl (Z.to_nat rx_size) [] (repeat 0 32) eol rest He).
    cbn [app length Z.of_nat] in L. rewrite Z.add_0_l in L.
    rewrite L by (rewrite ?repeat_length; unfold rx_size; lia).
    rewrite skipn_zeros.
    replace (Z.of_nat (length l)) with (Z.of_nat (length (map to_u8 l)))
      by (rewrite length_map; reflexivity).
    rewrite store_zero_on_zeros by lia. reflexivity. }
  split; [intros Hk; apply Short; assumption |]. split; [| split].
  - intros Hk. unfold read_answer. cbv zeta. rewrite Z32.
    rewrite <- (firstn_skipn 31 line) at 1. rewrite <- app_assoc.
    assert (Hf : length (firstn 31 line) = 31%nat) by (rewrite length_firstn; lia).
    assert (L := receive_loop_full (firstn 31 line) (Z.to_nat rx_size) [] (repeat 0 32)
                   (skipn 31 line ++ eol :: rest)
                   (Forall_firstn_skipn _ 31 0 line Hline)).
    cbn [app length Z.of_nat] in L. rewrite Z.add_0_l in L.
    rewrite L by (rewrite ?repeat_length, ?Hf; unfold rx_size; lia).
    rewrite Hf. unfold rx_size.
    replace (32 - 1) with (Z.of_nat (length (map to_u8 (firstn 31 line))))
      by (rewrite length_map, Hf; reflexivity).
    change (skipn 31 (repeat 0 32)) with (repeat 0 1).
    rewrite store_zero_on_zeros by lia. reflexivity.
  - apply (Short [] (Forall_nil _)). cbn [length]. lia.
  - intros Hk. unfold read_answer. cbv zeta.
    rewrite (receive_loop_blocks line Hline) by (unfold rx_size; lia).
    reflexivity.
Qed.

Lemma read_answer_line_witness :
  (Forall (fun b => is_eol b = false) [116; 111; 107; 121; 111] /\ is_eol 13 = true) /\
  read_answer ([116; 111; 107; 121; 111] ++ 13 :: [10; 50; 48; 54; 10])
  = Some ([116; 111; 107; 121; 111] ++ repeat 0 27, [10; 50; 48; 54; 10]) /\
  read_answer (10 :: [50; 48; 54; 10]) = Some (repeat 0 32, [50; 48; 54; 10]).
Proof.
  assert (Hl : Forall (fun b => is_eol b = false) [116; 111; 107; 121; 111])
    by (repeat constructor).
  assert (He : is_eol 13 = true) by reflexivity.
  split; [auto |]. split.
  - destruct (read_answer_line [116; 111; 107; 121; 111] 13 [10; 50; 48; 54; 10] Hl He)
      as [S _].
    apply S. simpl. lia.
  - destruct (read_answer_line [] 10 [50; 48; 54; 10] (Forall_nil _) eq_refl)
      as (_ & _ & E & _).
    exact E.
Defined.

(** ** Strings in buffers *)

Lemma chars_app_nul l tail :
  Forall (fun c => c <> 0) l -> I2C_LCD.chars (l ++ 0 :: tail) = l.
Proof.
  induction 1 as [| c l Hc Hl IH]; [reflexivity |].
  cbn [app]. rewrite chars_cons by exact Hc. rewrite IH. reflexivity.
Qed.

Lemma strlen_app_nul l tail :
  Forall (fun c => c <> 0) l -> strlen (l ++ 0 :: tail) = Z.of_nat (length l).
Proof.
  intros H. rewrite <- chars_length, chars_app_nul by exact H. reflexivity.
Qed.

Lemma holds_chars buf l : holds buf l -> I2C_LCD.chars buf = l.
Proof. intros [H [tail ->]]. apply chars_app_nul. exact H. Qed.

Lemma char_at_app_r (pre : list Z) l k :
  char_at (pre ++ l) (Z.of_nat (length pre) + k) = char_at l k \/ k < 0.
Proof.
  destruct (Z_lt_ge_dec k 0) as [Hk | Hk]; [right; exact Hk | left].
  unfold char_at.
  replace (Z.to_nat (Z.of_nat (length pre) + k)) with (length pre + Z.to_nat k)%nat by lia.
  rewrite app_nth2_plus. reflexivity.
Qed.

Lemma char_at_here (pre : list Z) c l :
  char_at (pre ++ c :: l) (Z.of_nat (length pre)) = c.
Proof.
  destruct (char_at_app_r pre (c :: l) 0) as [H | H]; [| lia].
  rewrite Z.add_0_r in H. exact H.
Qed.

Section Libc.

Variable isspace : Z -> bool.
Variable tolower : Z -> Z.

(** *** [str_trim] *)

Lemma skip_spaces_run l :
  Forall (fun c => c <> 0) l ->
  forall n pre tail,
  (length l <= n)%nat ->
  skip_spaces isspace n (pre ++ l ++ 0 :: tail) (Z.of_nat (length pre))
  = Z.of_nat (length pre) + Z.of_nat (length l)
    - Z.of_nat (length (drop_spaces isspace l)).
Proof.
  induction 1 as [| c l Hc Hl IH]; intros n pre tail Hn.
  - destruct n as [| n]; cbn [skip_spaces app drop_spaces length]; [lia |].
    rewrite char_at_here. cbn [Z.eqb negb andb]. lia.
  - destruct n as [| n]; [cbn [length] in Hn; lia |].
    cbn [skip_spaces app drop_spaces]. rewrite char_at_here.
    replace (c =? 0) with false by (symmetry; apply Z.eqb_neq; exact Hc).
    cbn [negb andb]. destruct (isspace (to_u8 c)).
    + replace (pre ++ c :: l ++ 0 :: tail) with ((pre ++ [c]) ++ l ++ 0 :: tail)
        by (rewrite <- app_assoc; reflexivity).
      replace (Z.of_nat (length pre) + 1) with (Z.of_nat (length (pre ++ [c])))
        by (rewrite length_app; cbn [length]; lia).
      rewrite IH by (cbn [length] in Hn; lia).
      rewrite length_app. cbn [length]. lia.
    + cbn [length]. lia.
Qed.

Lemma drop_spaces_suffix l :
  drop_spaces isspace l
  = skipn (length l - length (drop_spaces isspace l)) l.
Proof.
  induction l as [| c l IH]; [reflexivity |].
  cbn [drop_spaces]. destruct (isspace (to_u8 c)).
  - assert (length (drop_spaces isspace l) <= length l)%nat.
    { clear. induction l as [| d l IH]; [cbn; lia |].
      cbn [drop_spaces]. destruct (isspace (to_u8 d)); cbn [length]; lia. }
    replace (length (c :: l) - length (drop_spaces isspace l))%nat
      with (S (length l - length (drop_spaces isspace l))) by (cbn [length]; lia).
    cbn [skipn]. exact IH.
  - rewrite Nat.sub_diag. reflexivity.
Qed.

Lemma drop_spaces_nonzero l :
  Forall (fun c => c <> 0) l -> Forall (fun c => c <> 0) (drop_spaces isspace l).
Proof.
  induction 1 as [| c l Hc Hl IH]; [constructor |].
  cbn [drop_spaces]. destruct (isspace (to_u8 c)); [exact IH |].
  constructor; assumption.
Qed.

Lemma drop_spaces_length l : (length (drop_spaces isspace l) <= length l)%nat.
Proof.
  induction l as [| d l IH]; [cbn; lia |].
  cbn [drop_spaces]. destruct (isspace (to_u8 d)); cbn [length]; lia.
Qed.

(** The leading spaces are moved out. *)
Lemma trim_head buf l :
  holds buf l ->
  let p := skip_spaces isspace (length buf) buf 0 in
  let buf' := if negb (p =? 0)
              then memmove buf 0 p (strlen (skipn (Z.to_nat p) buf) + 1)
              else buf in
  holds buf' (drop_spaces isspace l) /\ length buf' = length buf.
Proof.
  intros [Hl [tail ->]] p buf'.
  assert (Hp : p = Z.of_nat (length l) - Z.of_nat (length (drop_spaces isspace l))).
  { unfold p.
    assert (R := skip_spaces_run l Hl (length (l ++ 0 :: tail)) [] tail).
    cbn [app length Z.of_nat] in R. rewrite R by (rewrite length_app; lia).
    lia. }
  pose proof (drop_spaces_length l) as Hd.
  pose proof (drop_spaces_suffix l) as Hs.
  set (d := drop_spaces isspace l) in *.
  assert (Hdn : Forall (fun c => c <> 0) d) by (apply drop_spaces_nonzero; exact Hl).
  unfold buf'. destruct (Z.eqb_spec p 0) as [H0 | Hnz]; cbn [negb].
  - split; [| reflexivity]. split; [exact Hdn |]. exists tail.
    replace (length l - length d)%nat with O in Hs by lia.
    cbn [skipn] in Hs. rewrite Hs. reflexivity.
  - assert (Hsk : skipn (Z.to_nat p) (l ++ 0 :: tail) = d ++ 0 :: tail).
    { rewrite skipn_app.
      replace (Z.to_nat p) with (length l - length d)%nat by lia.
      rewrite <- Hs.
      replace (length l - length d - length l)%nat with O by lia. reflexivity. }
    rewrite Hsk, strlen_app_nul by exact Hdn.
    unfold memmove. rewrite Hsk. cbn [Z.to_nat firstn app].
    replace (Z.to_nat (Z.of_nat (length d) + 1)) with (length (d ++ [0]))
      by (rewrite length_app; cbn [length]; lia).
    replace (d ++ 0 :: tail) with ((d ++ [0]) ++ tail)
      by (rewrite <- app_assoc; reflexivity).
    rewrite firstn_app, firstn_all, Nat.sub_diag. cbn [firstn].
    rewrite app_nil_r, <- app_assoc. cbn [app].
    split.
    + split; [exact Hdn |]. eexists. reflexivity.
    + rewrite !length_app. cbn [length]. rewrite length_skipn, !length_app.
      cbn [length]. lia.
Qed.

(** The trailing spaces are overwritten. *)
Lemma strip_tail_run l :
  forall n tail,
  Forall (fun c => c <> 0) l -> (length l <= n)%nat ->
  let out := strip_tail isspace n (l ++ 0 :: tail) (Z.of_nat (length l)) in
  holds out (rev (drop_spaces isspace (rev l))) /\
  length out = length (l ++ 0 :: tail).
Proof.
  induction l as [| c l IH] using rev_ind; intros n tail Hl Hn out.
  - unfold out. destruct n; cbn [strip_tail length Z.of_nat Z.gtb Z.compare andb];
      (split; [split; [constructor | exists tail; reflexivity] | reflexivity]).
  - apply Forall_app in Hl. destruct Hl as [Hl Hc].
    inversion Hc as [| ? ? Hc0 _]; subst.
    rewrite length_app in Hn. cbn [length] in Hn.
    destruct n as [| n]; [lia |]. unfold out. cbn [strip_tail].
    rewrite length_app. cbn [length].
    replace (Z.of_nat (length l + 1) >? 0) with true
      by (symmetry; apply Z.gtb_lt; lia).
    replace (Z.of_nat (length l + 1) - 1) with (Z.of_nat (length l)) by lia.
    rewrite <- app_assoc. cbn [app]. rewrite char_at_here.
    rewrite rev_app_distr. cbn [rev app drop_spaces andb].
    destruct (isspace (to_u8 c)).
    + rewrite store_at, <- app_assoc. cbn [app].
      destruct (IH n (0 :: tail) Hl ltac:(lia)) as [H1 H2].
      split; [exact H1 |]. rewrite H2, !length_app. cbn [length]. lia.
    + cbn [rev]. rewrite rev_involutive. split; [| reflexivity].
      split; [apply Forall_app; split; [exact Hl | exact Hc] |].
      exists tail. rewrite <- app_assoc. reflexivity.
Qed.

Lemma str_trim_holds buf l :
  holds buf l ->
  holds (str_trim isspace buf) (trimmed isspace l) /\
  length (str_trim isspace buf) = length buf.
Proof.
  intros H. destruct (trim_head buf l H) as [[Hd [tail E]] Hlen].
  cbv zeta in E, Hlen. unfold str_trim. cbv zeta. rewrite E.
  rewrite strlen_app_nul by exact Hd. rewrite Nat2Z.id.
  destruct (strip_tail_run (drop_spaces isspace l) (length (drop_spaces isspace l))
              tail Hd (Nat.le_refl _)) as [H1 H2].
  split; [exact H1 |]. cbv zeta in H2. rewrite H2, <- E. exact Hlen.
Qed.

Lemma drop_spaces_split l :
  exists a, l = a ++ drop_spaces isspace l /\
            Forall (fun c => isspace (to_u8 c) = true) a /\
            (forall c r, drop_spaces isspace l = c :: r -> isspace (to_u8 c) = false).
Proof.
  induction l as [| c l (a & E & Ha & Hh)].
  - exists []. repeat split; [constructor | discriminate].
  - cbn [drop_spaces]. destruct (isspace (to_u8 c)) eqn:Hc.
    + exists (c :: a). cbn [app]. rewrite <- E.
      repeat split; [constructor; assumption | exact Hh].
    + exists []. repeat split; [constructor |].
      intros c' r [= <- _]. exact Hc.
Qed.

Lemma drop_spaces_fixed l :
  (forall c r, l = c :: r -> isspace (to_u8 c) = false) -> drop_spaces isspace l = l.
Proof.
  intros H. destruct l as [| c r]; [reflexivity |].
  cbn [drop_spaces]. rewrite (H c r eq_refl). reflexivity.
Qed.

(** What [trimmed] leaves: the string without a run of spaces at each end,
    itself neither starting nor ending with a space. *)
Lemma trimmed_split l :
  exists a b,
    l = a ++ trimmed isspace l ++ b /\
    Forall (fun c => isspace (to_u8 c) = true) a /\
    Forall (fun c => isspace (to_u8 c) = true) b /\
    (forall c r, trimmed isspace l = c :: r -> isspace (to_u8 c) = false) /\
    (forall r c, trimmed isspace l = r ++ [c] -> isspace (to_u8 c) = false).
Proof.
  destruct (drop_spaces_split l) as (a & E & Ha & Hh).
  destruct (drop_spaces_split (rev (drop_spaces isspace l))) as (b & E' & Hb & Hh').
  unfold trimmed. set (d := drop_spaces isspace l) in *.
  set (e := drop_spaces isspace (rev d)) in *.
  assert (Ed : d = rev e ++ rev b).
  { rewrite <- rev_app_distr, <- E', rev_involutive. reflexivity. }
  exists a, (rev b). repeat split.
  - rewrite <- Ed. exact E.
  - exact Ha.
  - apply Forall_rev. exact Hb.
  - intros c r Hr. apply (Hh c (r ++ rev b)). rewrite Ed, Hr. reflexivity.
  - intros r c Hr. apply (Hh' c (rev r)).
    rewrite <- (rev_involutive e), Hr, rev_app_distr. reflexivity.
Qed.

Lemma trimmed_fixed l : trimmed isspace (trimmed isspace l) = trimmed isspace l.
Proof.
  destruct (trimmed_split l) as (_ & _ & _ & _ & _ & Hh & Ht).
  set (t := trimmed isspace l) in *. unfold trimmed.
  rewrite (drop_spaces_fixed t Hh).
  rewrite drop_spaces_fixed; [apply rev_involutive |].
  intros c r Hr. apply (Ht (rev r) c).
  rewrite <- (rev_involutive t), Hr. reflexivity.
Qed.

(** X15. [str_trim] on a buffer that holds a string.  The buffer keeps
    its size and afterwards holds the string without the spaces at its two
    ends: the string was some spaces, then what is left, then some spaces,
    and what is left neither starts nor ends with a space.  Trimming twice
    is trimming once; a string of spaces only is trimmed to the empty
    string. *)
Theorem str_trim_spec buf l :
  holds buf l ->
  let out := str_trim isspace buf in
  let t := I2C_LCD.chars out in
  holds out t /\ length out = length buf /\
  (exists a b, l = a ++ t ++ b /\
     Forall (fun c => isspace (to_u8 c) = true) a /\
     Forall (fun c => isspace (to_u8 c) = true) b) /\
  (forall c r, t = c :: r -> isspace (to_u8 c) = false) /\
  (forall r c, t = r ++ [c] -> isspace (to_u8 c) = false) /\
  I2C_LCD.chars (str_trim isspace out) = t /\
  (Forall (fun c => isspace (to_u8 c) = true) l -> t = []).
Proof.
  intros H out t. destruct (str_trim_holds buf l H) as [Ho Hlen].
  fold out in Ho, Hlen. assert (Et : t = trimmed isspace l) by (apply holds_chars; exact Ho).
  destruct (trimmed_split l) as (a & b & E & Ha & Hb & Hh & Hl).
  rewrite <- Et in E, Hh, Hl.
  split; [rewrite Et; exact Ho |]. split; [exact Hlen |].
  split; [exists a, b; auto |]. split; [exact Hh |]. split; [exact Hl |]. split.
  - destruct (str_trim_holds out (trimmed isspace l) Ho) as [Ho2 _].
    rewrite (holds_chars _ _ Ho2), trimmed_fixed. symmetry. exact Et.
  - intros Hall. destruct t as [| c r]; [reflexivity |].
    specialize (Hh c r eq_refl).
    rewrite E in Hall. apply Forall_app in Hall. destruct Hall as [_ Hall].
    cbn [app] in Hall. inversion Hall as [| ? ? Hc _]; subst. congruence.
Qed.

(** *** [str_tolower_inplace] *)

Lemma lower_loop_run l :
  Forall (fun c => c <> 0) l ->
  forall n pre tail,
  (length l <= n)%nat ->
  lower_loop tolower n (pre ++ l ++ 0 :: tail) (Z.of_nat (length pre))
  = pre ++ map (fun c => to_u8 (tolower (to_u8 c))) l ++ 0 :: tail.
Proof.
  induction 1 as [| c l Hc Hl IH]; intros n pre tail Hn.
  - destruct n as [| n]; cbn [lower_loop app map]; [reflexivity |].
    rewrite char_at_here. reflexivity.
  - destruct n as [| n]; [cbn [length] in Hn; lia |].
    cbn [lower_loop app map]. rewrite char_at_here.
    replace (c =? 0) with false by (symmetry; apply Z.eqb_neq; exact Hc).
    rewrite store_at.
    replace (Z.of_nat (length pre) + 1)
      with (Z.of_nat (length (pre ++ [to_u8 (tolower (to_u8 c))])))
      by (rewrite length_app; cbn [length]; lia).
    rewrite IH by (cbn [length] in Hn; lia).
    rewrite <- app_assoc. reflexivity.
Qed.

(** X16. [str_tolower_inplace] on a buffer that holds a string replaces
    every character of the string by its [tolower], cut to a byte, and
    touches nothing else: the NUL and what lies behind it stay, and so does
    the size of the buffer.  When [tolower] maps no character of the string
    to NUL the buffer then holds the lowercased string. *)
Theorem str_tolower_inplace_spec buf l tail :
  Forall (fun c => c <> 0) l -> buf = l ++ 0 :: tail ->
  let lower := fun c => to_u8 (tolower (to_u8 c)) in
  str_tolower_inplace tolower buf = map lower l ++ 0 :: tail /\
  length (str_tolower_inplace tolower buf) = length buf /\
  (Forall (fun c => lower c <> 0) l ->
   holds (str_tolower_inplace tolower buf) (map lower l)).
Proof.
  intros Hl -> lower.
  assert (E : str_tolower_inplace tolower (l ++ 0 :: tail) = map lower l ++ 0 :: tail).
  { unfold str_tolower_inplace.
    assert (R := lower_loop_run l Hl (length (l ++ 0 :: tail)) [] tail).
    cbn [app length Z.of_nat] in R. apply R. rewrite length_app. lia. }
  split; [exact E |]. split.
  - rewrite E, !length_app, length_map. reflexivity.
  - intros Hnz. rewrite E. split; [| exists tail; reflexivity].
    apply Forall_map. exact Hnz.
Qed.

(** *** [is_answer_correct] *)

Lemma strncpy_holds tmp0 user_in :
  length tmp0 = 64%nat ->
  let tmp := store (strncpy tmp0 user_in (64 - 1)) (64 - 1) 0 in
  holds tmp (firstn 63 (I2C_LCD.chars user_in)) /\ length tmp = 64%nat.
Proof.
  intros H0 tmp. unfold tmp, strncpy. cbv zeta.
  change (Z.to_nat (64 - 1)) with 63%nat.
  set (c := firstn 63 (I2C_LCD.chars user_in)).
  assert (Hc : (length c <= 63)%nat) by (unfold c; rewrite length_firstn; lia).
  assert (Hn : Forall (fun x => x <> 0) c)
    by (apply (Forall_firstn_skipn _ 63 0), chars_nonzero).
  destruct (skipn 63 tmp0) as [| x rest] eqn:Es.
  { apply (f_equal (@length Z)) in Es. rewrite length_skipn, H0 in Es.
    cbn [length] in Es. lia. }
  assert (Hr : rest = []).
  { apply (f_equal (@length Z)) in Es. rewrite length_skipn, H0 in Es.
    cbn [length] in Es. destruct rest; [reflexivity | cbn [length] in Es; lia]. }
  subst rest. rewrite app_assoc.
  replace (64 - 1) with (Z.of_nat (length (c ++ repeat 0 (63 - length c))))
    by (rewrite length_app, repeat_length; lia).
  rewrite store_at, app_nil_r, <- !app_assoc. split.
  - split; [exact Hn |].
    destruct (63 - length c)%nat as [| m].
    + exists []. reflexivity.
    + exists (repeat 0 m ++ [0]). reflexivity.
  - rewrite !length_app, repeat_length. cbn [length]. lia.
Qed.

Lemma drop_spaces_Forall (P : Z -> Prop) l :
  Forall P l -> Forall P (drop_spaces isspace l).
Proof.
  induction 1 as [| c l Hc Hl IH]; [constructor |].
  cbn [drop_spaces]. destruct (isspace (to_u8 c)); [exact IH |].
  constructor; assumption.
Qed.

Lemma trimmed_Forall (P : Z -> Prop) l : Forall P l -> Forall P (trimmed isspace l).
Proof.
  intros H. unfold trimmed.
  apply Forall_rev, drop_spaces_Forall, Forall_rev, drop_spaces_Forall, H.
Qed.

Section Contract.

Variable strcasecmp : cstring -> cstring -> Z.

(** What is asked of the library: [tolower] maps a character to a
    character and lowercase to itself, and [strcasecmp] returns 0 exactly
    on two strings that are equal once lowercased. *)
Hypothesis tolower_char : forall c, 0 < c < 256 -> 0 < tolower c < 256.
Hypothesis tolower_lower : forall c, 0 < c < 256 -> tolower (tolower c) = tolower c.
Hypothesis strcasecmp_zero : forall a b,
  Forall (fun c => 0 <= c < 256) (I2C_LCD.chars a) ->
  Forall (fun c => 0 <= c < 256) (I2C_LCD.chars b) ->
  (strcasecmp a b = 0 <->
   map tolower (I2C_LCD.chars a) = map tolower (I2C_LCD.chars b)).

Lemma match_candidates_spec tmp row :
  (match_candidates strcasecmp tmp row = 0 \/ match_candidates strcasecmp tmp row = 1) /\
  (match_candidates strcasecmp tmp row = 1 <->
   exists cand, In cand (reachable row) /\ strcasecmp tmp cand = 0).
Proof.
  induction row as [| [cand |] row [IH1 IH2]]; cbn [match_candidates reachable].
  - split; [left; reflexivity |]. split; [discriminate | intros (? & [] & _)].
  - destruct (Z.eqb_spec (strcasecmp tmp cand) 0) as [E | E].
    + split; [right; reflexivity |]. split; [| reflexivity].
      intros _. exists cand. split; [left; reflexivity | exact E].
    + split; [exact IH1 |]. rewrite IH2. split.
      * intros (c & Hin & Hc). exists c. split; [right; exact Hin | exact Hc].
      * intros (c & [<- | Hin] & Hc); [contradiction | exists c; auto].
  - split; [left; reflexivity |]. split; [discriminate | intros (? & [] & _)].
Qed.

(** The string [tmp] holds when the candidates are compared. *)
Lemma is_answer_correct_tmp tmp0 user_in :
  length tmp0 = 64%nat ->
  Forall (fun c => 0 <= c < 256) (I2C_LCD.chars user_in) ->
  let tmp := str_tolower_inplace tolower
               (str_trim isspace (store (strncpy tmp0 user_in (64 - 1)) (64 - 1) 0)) in
  let given := trimmed isspace (firstn 63 (I2C_LCD.chars user_in)) in
  I2C_LCD.chars tmp = map tolower given /\
  Forall (fun c => 0 < c < 256) given.
Proof.
  intros H0 Hb tmp given.
  destruct (strncpy_holds tmp0 user_in H0) as [H1 _]. cbv zeta in H1.
  destruct (str_trim_holds _ _ H1) as [[Hn [tail E]] _]. fold given in Hn, E.
  assert (Hg : Forall (fun c => 0 < c < 256) given).
  { assert (Hb' : Forall (fun c => 0 <= c < 256) given)
      by (apply trimmed_Forall, (Forall_firstn_skipn _ 63 0), Hb).
    rewrite Forall_forall in *. intros c Hc.
    specialize (Hn c Hc). specialize (Hb' c Hc). lia. }
  split; [| exact Hg].
  destruct (str_tolower_inplace_spec _ given tail Hn E) as (EL & _ & _).
  cbv zeta in EL. unfold tmp. rewrite EL.
  assert (Em : map (fun c => to_u8 (tolower (to_u8 c))) given = map tolower given).
  { apply map_ext_in. intros c Hc. rewrite Forall_forall in Hg.
    specialize (Hg c Hc). rewrite (to_u8_small c) by lia.
    apply to_u8_small. pose proof (tolower_char c Hg). lia. }
  rewrite Em. apply chars_app_nul.
  apply Forall_map. rewrite Forall_forall in *. intros c Hc.
  pose proof (tolower_char c (Hg c Hc)). lia.
Qed.

(** X17. [is_answer_correct], for a library that satisfies the contract
    above.  The answer counts as correct (1) exactly when, cut to its first
    63 characters and trimmed of the spaces at its two ends, it equals up to
    letter case one of the candidates of row [idx] that come before the
    first [NULL] among the three; otherwise the result is 0.  What [tmp]
    held on entry plays no part, and an index outside the table has no
    result. *)
Theorem is_answer_correct_spec answers tmp0 user_in idx :
  length tmp0 = 64%nat ->
  Forall (fun c => 0 <= c < 256) (I2C_LCD.chars user_in) ->
  let given := trimmed isspace (firstn 63 (I2C_LCD.chars user_in)) in
  let result := is_answer_correct isspace tolower strcasecmp answers tmp0 user_in idx in
  (idx < 0 \/ Z.of_nat (length answers) <= idx -> result = None) /\
  (forall row,
     0 <= idx -> nth_error answers (Z.to_nat idx) = Some row ->
     Forall (fun cand => Forall (fun c => 0 <= c < 256) (I2C_LCD.chars cand))
            (reachable (firstn 3 row)) ->
     exists r,
       result = Some r /\ (r = 0 \/ r = 1) /\
       (r = 1 <->
        exists cand, In cand (reachable (firstn 3 row)) /\
                     map tolower (I2C_LCD.chars cand) = map tolower given)).
Proof.
  intros H0 Hb given result. split.
  - intros [Hneg | Hbig]; unfold result, is_answer_correct; cbv zeta.
    + replace (idx <? 0) with true by (symmetry; apply Z.ltb_lt; lia). reflexivity.
    + destruct (idx <? 0); [reflexivity |].
      replace (nth_error answers (Z.to_nat idx)) with (@None (list (option cstring)));
        [reflexivity |].
      symmetry. apply nth_error_None. lia.
  - intros row Hidx Hrow Hcands.
    destruct (is_answer_correct_tmp tmp0 user_in H0 Hb) as [Et Hg].
    cbv zeta in Et, Hg. fold given in Et, Hg.
    unfold result, is_answer_correct. cbv zeta.
    replace (idx <? 0) with false by (symmetry; apply Z.ltb_ge; lia).
    rewrite Hrow.
    set (tmp := str_tolower_inplace tolower _) in *.
    destruct (match_candidates_spec tmp (firstn 3 row)) as [R1 R2].
    eexists. split; [reflexivity |]. split; [exact R1 |].
    rewrite R2.
    assert (Hlow : map tolower (map tolower given) = map tolower given).
    { rewrite map_map. apply map_ext_in. intros c Hc.
      rewrite Forall_forall in Hg. apply tolower_lower, Hg, Hc. }
    assert (Hbt : Forall (fun c => 0 <= c < 256) (I2C_LCD.chars tmp)).
    { rewrite Et. apply Forall_map. rewrite Forall_forall in *. intros c Hc.
      pose proof (tolower_char c (Hg c Hc)). lia. }
    split; intros (cand & Hin & Hc); exists cand; (split; [exact Hin |]).
    + rewrite Forall_forall in Hcands.
      apply (strcasecmp_zero tmp cand Hbt (Hcands cand Hin)) in Hc.
      rewrite Et, Hlow in Hc. symmetry. exact Hc.
    + rewrite Forall_forall in Hcands.
      apply (strcasecmp_zero tmp cand Hbt (Hcands cand Hin)).
      rewrite Et, Hlow. symmetry. exact Hc.
Qed.

End Contract.

End Libc.

(** *** The "C" locale meets the contract *)

Lemma tolower_C_char c : 0 < c < 256 -> 0 < tolower_C c < 256.
Proof. intros H. unfold tolower_C. destruct (_ && _) eqn:E; lia. Qed.

Lemma tolower_C_lower c : 0 < c < 256 -> tolower_C (tolower_C c) = tolower_C c.
Proof.
  intros H. unfold tolower_C.
  destruct ((65 <=? c) && (c <=? 90)) eqn:E; [| rewrite E; reflexivity].
  apply andb_true_iff in E. destruct E as [E1 E2].
  apply Z.leb_le in E1, E2.
  replace ((65 <=? c + 32) && (c + 32 <=? 90)) with false; [reflexivity |].
  symmetry. apply andb_false_iff. right. apply Z.leb_gt. lia.
Qed.

Lemma strcasecmp_C_zero a :
  forall b,
  Forall (fun c => 0 <= c < 256) (I2C_LCD.chars a) ->
  Forall (fun c => 0 <= c < 256) (I2C_LCD.chars b) ->
  (strcasecmp_C a b = 0 <->
   map tolower_C (I2C_LCD.chars a) = map tolower_C (I2C_LCD.chars b)).
Proof.
  assert (End_of : forall d b',
            Forall (fun c => 0 <= c < 256) (I2C_LCD.chars (d :: b')) ->
            (0 - tolower_C (to_u8 d) = 0 <->
             @nil Z = map tolower_C (I2C_LCD.chars (d :: b')))).
  { intros d b' Hb. destruct (Z.eq_dec d 0) as [-> | Hd].
    - split; reflexivity.
    - rewrite chars_cons in Hb |- * by exact Hd.
      inversion Hb as [| ? ? Hd' _]; subst.
      rewrite (to_u8_small d Hd'). pose proof (tolower_C_char d ltac:(lia)).
      cbn [map]. split; [lia | discriminate]. }
  induction a as [| c a IH]; intros b Ha Hb.
  - destruct b as [| d b']; [split; reflexivity |].
    cbn [strcasecmp_C]. apply End_of. exact Hb.
  - destruct (Z.eq_dec c 0) as [-> | Hc].
    + destruct b as [| d b']; [split; reflexivity |].
      cbn [strcasecmp_C Z.eqb]. apply End_of. exact Hb.
    + rewrite chars_cons in Ha |- * by exact Hc.
      inversion Ha as [| ? ? Hc' Ha']; subst.
      pose proof (tolower_C_char c ltac:(lia)) as Hlc.
      destruct b as [| d b'].
      * cbn [strcasecmp_C]. rewrite (to_u8_small c Hc').
        split; [lia | discriminate].
      * cbn [strcasecmp_C].
        replace (c =? 0) with false by (symmetry; apply Z.eqb_neq; exact Hc).
        rewrite (to_u8_small c Hc').
        destruct (Z.eq_dec d 0) as [-> | Hd].
        -- change (to_u8 0) with 0. change (tolower_C 0) with 0.
           replace (tolower_C c =? 0) with false by (symmetry; apply Z.eqb_neq; lia).
           split; [lia | discriminate].
        -- rewrite chars_cons in Hb |- * by exact Hd.
           inversion Hb as [| ? ? Hd' Hb']; subst.
           rewrite (to_u8_small d Hd'). cbn [map].
           destruct (Z.eqb_spec (tolower_C c) (tolower_C d)) as [E | E].
           ++ rewrite (IH b' Ha' Hb'). rewrite E.
              split; [intros ->; reflexivity | intros [= ->]; reflexivity].
           ++ split; [lia | intros [= E' _]; contradiction].
Qed.

Lemma str_trim_spec_witness :
  holds [32; 9; 72; 105; 32; 0; 7; 7] [32; 9; 72; 105; 32] /\
  str_trim isspace_C [32; 9; 72; 105; 32; 0; 7; 7] = [72; 105; 0; 0; 32; 0; 7; 7] /\
  I2C_LCD.chars (str_trim isspace_C (str_trim isspace_C [32; 9; 72; 105; 32; 0; 7; 7]))
  = [72; 105].
Proof.
  assert (H : holds [32; 9; 72; 105; 32; 0; 7; 7] [32; 9; 72; 105; 32]).
  { split; [repeat constructor; discriminate | exists [7; 7]; reflexivity]. }
  split; [exact H |]. split; [reflexivity |].
  destruct (str_trim_spec isspace_C _ _ H) as (_ & _ & _ & _ & _ & I & _).
  rewrite I. reflexivity.
Defined.

Lemma str_tolower_inplace_spec_witness :
  (Forall (fun c => c <> 0) [72; 105; 33] /\
   [72; 105; 33; 0; 65] = [72; 105; 33] ++ 0 :: [65]) /\
  str_tolower_inplace tolower_C [72; 105; 33; 0; 65] = [104; 105; 33; 0; 65].
Proof.
  assert (Hl : Forall (fun c => c <> 0) [72; 105; 33])
    by (repeat constructor; discriminate).
  assert (E : [72; 105; 33; 0; 65] = [72; 105; 33] ++ 0 :: [65]) by reflexivity.
  split; [auto |].
  destruct (str_tolower_inplace_spec tolower_C _ _ _ Hl E) as (R & _).
  rewrite R. reflexivity.
Defined.

Lemma is_answer_correct_spec_witness :
  let user_in := [32; 84; 111; 75; 121; 79; 32] in
  (length (repeat 7 64) = 64%nat /\
   Forall (fun c => 0 <= c < 256) (I2C_LCD.chars user_in)) /\
  (exists r,
     is_answer_correct isspace_C tolower_C strcasecmp_C answers_variants
       (repeat 7 64) user_in 2 = Some r /\
     (r = 1 <->
      exists cand, In cand [[116; 111; 107; 121; 111]] /\
                   map tolower_C (I2C_LCD.chars cand) = [116; 111; 107; 121; 111])) /\
  is_answer_correct isspace_C tolower_C strcasecmp_C answers_variants
    (repeat 7 64) user_in 3 = None.
Proof.
  cbv zeta.
  assert (H0 : length (repeat 7 64) = 64%nat) by reflexivity.
  assert (Hb : Forall (fun c => 0 <= c < 256)
                 (I2C_LCD.chars [32; 84; 111; 75; 121; 79; 32]))
    by (repeat constructor; lia).
  split; [auto |].
  destruct (is_answer_correct_spec isspace_C tolower_C strcasecmp_C
              tolower_C_char tolower_C_lower strcasecmp_C_zero
              answers_variants (repeat 7 64) [32; 84; 111; 75; 121; 79; 32] 2 H0 Hb)
    as [_ S].
  destruct (is_answer_correct_spec isspace_C tolower_C strcasecmp_C
              tolower_C_char tolower_C_lower strcasecmp_C_zero
              answers_variants (repeat 7 64) [32; 84; 111; 75; 121; 79; 32] 3 H0 Hb)
    as [N _].
  split; [| apply N; right; simpl; lia].
  destruct (S [Some [116; 111; 107; 121; 111]; None; None]) as (r & E & _ & R).
  - lia.
  - reflexivity.
  - repeat constructor; lia.
  - exists r. split; [exact E | exact R].
Defined.

(** ** The final score screen *)

Lemma const_upto (v : Z) n : map (fun _ : Z => v) (upto n) = repeat v (Z.to_nat n).
Proof.
  unfold upto. rewrite map_map.
  generalize 0%nat as s. induction (Z.to_nat n) as [| k IH]; intros s; [reflexivity |].
  cbn [seq map repeat]. rewrite IH. reflexivity.
Qed.

Lemma firstn_const (v : Z) k n : (k <= n)%nat -> firstn k (repeat v n) = repeat v k.
Proof.
  revert n. induction k as [| k IH]; intros [| n] H; try reflexivity; [lia |].
  cbn [repeat firstn]. rewrite IH by lia. reflexivity.
Qed.

Lemma skipn_const (v : Z) k n : skipn k (repeat v n) = repeat v (n - k).
Proof.
  revert k. induction n as [| n IH]; intros [| k]; try reflexivity.
  cbn [repeat skipn]. apply IH.
Qed.

Lemma centred_line_holds cols text :
  0 <= cols ->
  holds (centred_line cols (snprintf (cols + 1) text))
        (centred_text cols (I2C_LCD.chars text)) /\
  Z.of_nat (length (centred_text cols (I2C_LCD.chars text))) = cols.
Proof.
  intros Hc. unfold centred_text. cbv zeta.
  set (shown := firstn (Z.to_nat cols) (I2C_LCD.chars text)).
  assert (Hn : Forall (fun c => c <> 0) shown)
    by (apply (Forall_firstn_skipn _ _ 0), chars_nonzero).
  assert (Hl : Z.of_nat (length shown) <= cols)
    by (unfold shown; rewrite length_firstn; lia).
  set (room := cols - Z.of_nat (length shown)).
  assert (Hr : 0 <= room / 2 <= room).
  { split; [apply Z.div_pos; lia |]. apply Z.div_le_upper_bound; lia. }
  split.
  - unfold centred_line, snprintf. cbv zeta.
    replace (Z.to_nat (cols + 1 - 1)) with (Z.to_nat cols) by lia. fold shown.
    rewrite strlen_app_nul by exact Hn.
    rewrite const_upto.
    replace cols with (Z.of_nat (length (repeat 32 (Z.to_nat cols)))) at 2
      by (rewrite repeat_length; lia).
    rewrite store_at, app_nil_r.
    replace (if Z.of_nat (length shown) <? cols
             then (cols - Z.of_nat (length shown)) / 2 else 0) with (room / 2).
    2:{ destruct (Z.ltb_spec (Z.of_nat (length shown)) cols); [reflexivity |].
        unfold room. replace (cols - Z.of_nat (length shown)) with 0 by lia.
        reflexivity. }
    replace (if Z.of_nat (length shown) >? cols then cols else Z.of_nat (length shown))
      with (Z.of_nat (length shown))
      by (destruct (Z.gtb_spec (Z.of_nat (length shown)) cols); lia).
    unfold memcpy. rewrite Nat2Z.id.
    rewrite firstn_app, firstn_const, repeat_length by lia.
    replace (Z.to_nat (room / 2) - Z.to_nat cols)%nat with O by lia.
    cbn [firstn]. rewrite app_nil_r.
    rewrite firstn_app, firstn_all, Nat.sub_diag. cbn [firstn]. rewrite app_nil_r.
    rewrite skipn_app, skipn_const, repeat_length.
    replace (Z.to_nat (room / 2 + Z.of_nat (length shown)) - Z.to_nat cols)%nat
      with O by lia.
    cbn [skipn].
    replace (Z.to_nat cols - Z.to_nat (room / 2 + Z.of_nat (length shown)))%nat
      with (Z.to_nat (room - room / 2)) by lia.
    split.
    + repeat (apply Forall_app; split); try exact Hn;
        apply Forall_forall; intros c Hin; apply repeat_spec in Hin; subst c;
        discriminate.
    + exists []. rewrite <- !app_assoc. reflexivity.
  - rewrite !length_app, !repeat_length. lia.
Qed.

(** X18. The final score screen on the two tabulated geometries, for a
    [%d] conversion that produces characters.  The controller receives the
    clear instruction, the address of row 0 followed by exactly [LCD_COLS]
    characters and the address of row 1 followed by exactly [LCD_COLS]
    characters: each line is its text, cut to the width of the display,
    between spaces, with the spaces to the left half of the room left over,
    rounded down.  The call spends 3000 ms and the time of the two lines in
    [HAL_Delay] and leaves [score] at 0. *)
Theorem final_score_screen cfg fmt_int score st table :
  (I2C_LCD.LCD_ROWS cfg = 2 /\ I2C_LCD.LCD_COLS cfg = 16 /\ table = I2C_LCD.row_base_16x2) \/
  (I2C_LCD.LCD_ROWS cfg = 4 /\ I2C_LCD.LCD_COLS cfg = 20 /\ table = I2C_LCD.row_base_20x4) ->
  I2C_LCD.PCF_NIBBLE_SHIFT cfg = 4 -> I2C_LCD.flag_ok st ->
  (forall n, Forall (fun c => c <> 0) (fmt_int n)) ->
  let cols := I2C_LCD.LCD_COLS cfg in
  let line1 := centred_text cols text_round_complete in
  let line2 := centred_text cols (text_score fmt_int score) in
  let screen := fst (show_final_score_and_reset cfg fmt_int score) in
  I2C_LCD.received (I2C_LCD.trace_of screen st)
  = [I2C_LCD.Cmd 0x01; I2C_LCD.Cmd 0x80]
      ++ map (fun c => I2C_LCD.Data (to_u8 c)) line1
      ++ [I2C_LCD.Cmd 0xC0]
      ++ map (fun c => I2C_LCD.Data (to_u8 c)) line2 /\
  Z.of_nat (length line1) = cols /\ Z.of_nat (length line2) = cols /\
  I2C_LCD.blocked_ms (I2C_LCD.trace_of screen st) = 3020 + 10 * cols /\
  I2C_LCD.state_after screen st = st /\
  snd (show_final_score_and_reset cfg fmt_int score) = 0.
Proof.
  intros G Hs Hst Hfmt cols line1 line2 screen.
  assert (Hcols : 0 <= cols) by (unfold cols; destruct G as [(_ & HC & _) | (_ & HC & _)]; lia).
  assert (T1 : I2C_LCD.chars text_round_complete = text_round_complete)
    by reflexivity.
  set (text2 := text_score fmt_int score).
  assert (T2 : I2C_LCD.chars text2 = text2).
  { apply chars_nonul. unfold text2, text_score.
    repeat (apply Forall_app; split); try apply Hfmt;
      repeat constructor; discriminate. }
  destruct (centred_line_holds cols text_round_complete Hcols) as [H1 L1].
  destruct (centred_line_holds cols text2 Hcols) as [H2 L2].
  rewrite T1 in H1, L1. rewrite T2 in H2, L2. subst line1 line2. fold text2.
  set (line1 := centred_text cols text_round_complete) in *.
  set (line2 := centred_text cols text2) in *.
  set (buf1 := centred_line cols (snprintf (cols + 1) text_round_complete)) in *.
  set (buf2 := centred_line cols (snprintf (cols + 1) text2)) in *.
  assert (Escreen : screen
            = (I2C_LCD.lcd_clear cfg ;;
               I2C_LCD.lcd_put_cur cfg 0 0 ;; I2C_LCD.lcd_send_string cfg buf1 ;;
               I2C_LCD.lcd_put_cur cfg 1 0 ;; I2C_LCD.lcd_send_string cfg buf2 ;;
               I2C_LCD.HAL_Delay_ 3000)%Z) by reflexivity.
  assert (Sh : I2C_LCD.shows screen
                 ([I2C_LCD.Cmd 0x01] ++ [I2C_LCD.Cmd 0x80]
                    ++ map (fun c => I2C_LCD.Data (to_u8 c)) line1
                    ++ [I2C_LCD.Cmd 0xC0]
                    ++ map (fun c => I2C_LCD.Data (to_u8 c)) line2 ++ [])).
  { rewrite Escreen.
    assert (P0 : I2C_LCD.shows (I2C_LCD.lcd_put_cur cfg 0 0) [I2C_LCD.Cmd 0x80]).
    { apply (shows_ext _ (I2C_LCD.lcd_send_cmd cfg 0x80)).
      - intros st'. apply lcd_put_cur_home; destruct G as [(HR & HC & _) | (HR & HC & _)]; lia.
      - apply (shows_send_cmd cfg Hs 0x80). }
    assert (P1 : I2C_LCD.shows (I2C_LCD.lcd_put_cur cfg 1 0) [I2C_LCD.Cmd 0xC0]).
    { apply (shows_ext _ (I2C_LCD.lcd_send_cmd cfg 0xC0)).
      - intros st'.
        destruct (lcd_put_cur_tabulated cfg table 1 0 st' G) as (E & _);
          [destruct G as [(HR & HC & _) | (HR & HC & _)]; lia
          | destruct G as [(HR & HC & _) | (HR & HC & _)]; lia |].
        rewrite E. destruct G as [(_ & _ & ->) | (_ & _ & ->)]; reflexivity.
      - apply (shows_send_cmd cfg Hs 0xC0). }
    apply shows_andthen.
    { unfold I2C_LCD.lcd_clear.
      apply (shows_andthen _ _ [I2C_LCD.Cmd 0x01] []);
        [apply (shows_send_cmd cfg Hs 0x01) | apply shows_delay]. }
    apply shows_andthen; [exact P0 |].
    apply shows_andthen.
    { rewrite <- (holds_chars _ _ H1). apply (shows_send_string cfg Hs). }
    apply shows_andthen; [exact P1 |].
    apply shows_andthen.
    { rewrite <- (holds_chars _ _ H2). apply (shows_send_string cfg Hs). }
    apply shows_delay. }
  destruct (Sh st [] Hst) as [_ R]. rewrite !app_nil_r in R.
  split; [exact R |]. split; [exact L1 |]. split; [exact L2 |].
  split; [| split; [| reflexivity]].
  - rewrite Escreen.
    rewrite !andthen_trace, !blocked_ms_app.
    change (I2C_LCD.state_after (I2C_LCD.lcd_clear cfg) st) with st.
    rewrite ?andthen_state, ?lcd_put_cur_state, ?lcd_send_string_state.
    rewrite !blocked_put_cur, !blocked_send_string.
    rewrite <- (chars_length buf1), <- (chars_length buf2).
    rewrite (holds_chars _ _ H1), (holds_chars _ _ H2), L1, L2.
    change (I2C_LCD.blocked_ms (I2C_LCD.trace_of (I2C_LCD.lcd_clear cfg) st)) with 8.
    change (I2C_LCD.blocked_ms (I2C_LCD.trace_of (I2C_LCD.HAL_Delay_ 3000) st)) with 3000.
    lia.
  - rewrite Escreen.
    rewrite !andthen_state, !lcd_put_cur_state, !lcd_send_string_state.
    reflexivity.
Qed.

Lemma digits_nonzero fuel n : 0 <= n -> Forall (fun c => c <> 0) (digits fuel n).
Proof.
  revert n. induction fuel as [| fuel IH]; intros n Hn; cbn [digits]; [constructor |].
  destruct (Z.ltb_spec n 10).
  - repeat constructor. lia.
  - apply Forall_app. split; [apply IH, Z.div_pos; lia |].
    repeat constructor. pose proof (Z.mod_pos_bound n 10 ltac:(lia)). lia.
Qed.

Lemma fmt_int_C_nonzero n : Forall (fun c => c <> 0) (fmt_int_C n).
Proof.
  unfold fmt_int_C. destruct (Z.ltb_spec n 0).
  - constructor; [discriminate | apply digits_nonzero; lia].
  - apply digits_nonzero. lia.
Qed.

Lemma final_score_screen_witness :
  (PCF_NIBBLE_SHIFT i2c_h = 4 /\ flag_ok power_on /\
   forall n, Forall (fun c => c <> 0) (fmt_int_C n)) /\
  received (trace_of (fst (show_final_score_and_reset i2c_h fmt_int_C 2)) power_on)
  = [Cmd 0x01; Cmd 0x80]
      ++ map Data [32; 82; 111; 117; 110; 100; 32; 99; 111; 109; 112; 108; 101; 116; 101; 32]
      ++ [Cmd 0xC0]
      ++ map Data [32; 32; 32; 83; 99; 111; 114; 101; 58; 32; 50; 47; 51; 32; 32; 32].
Proof.
  assert (Hs : PCF_NIBBLE_SHIFT i2c_h = 4) by reflexivity.
  assert (Hf : flag_ok power_on) by (right; reflexivity).
  split; [auto using fmt_int_C_nonzero |].
  destruct (final_score_screen i2c_h fmt_int_C 2 power_on row_base_16x2
              ltac:(left; repeat split) Hs Hf fmt_int_C_nonzero) as [R _].
  rewrite R. reflexivity.
Defined.

(** ** One turn of the main loop *)

Lemma lcd_show_wrapped_state cfg s st : state_after (lcd_show_wrapped cfg s) st = st.
Proof.
  unfold lcd_show_wrapped. generalize 0 as r. revert st.
  induction (Z.to_nat (LCD_ROWS cfg)) as [| n IH]; intros st r; [reflexivity |].
  cbn [show_rows]. destruct (r <? LCD_ROWS cfg); [| reflexivity].
  cbv zeta. destruct (copy_chunk cfg _ s _ 0 []) as [tmp i].
  rewrite !andthen_state, lcd_put_cur_state, lcd_send_string_state.
  destruct (_ =? 0); [reflexivity | apply IH].
Qed.

Lemma show_final_score_state cfg fmt_int sc st :
  state_after (fst (show_final_score_and_reset cfg fmt_int sc)) st = st.
Proof.
  unfold show_final_score_and_reset. cbv zeta. cbn [fst].
  rewrite !andthen_state.
  change (state_after (lcd_clear cfg) st) with st.
  rewrite ?lcd_put_cur_state, ?lcd_send_string_state. reflexivity.
Qed.

Lemma is_answer_correct_total isspace tolower strcasecmp answers tmp0 user_in idx row :
  0 <= idx -> nth_error answers (Z.to_nat idx) = Some row ->
  exists r,
    is_answer_correct isspace tolower strcasecmp answers tmp0 user_in idx = Some r /\
    (r = 0 \/ r = 1).
Proof.
  intros Hi Hrow. unfold is_answer_correct. cbv zeta.
  replace (idx <? 0) with false by (symmetry; apply Z.ltb_ge; lia).
  rewrite Hrow. eexists. split; [reflexivity |].
  apply match_candidates_spec.
Qed.

Lemma lit_after_app lit a b : lit_after lit (a ++ b) = lit_after (lit_after lit a) b.
Proof.
  revert lit. induction a as [| e a IH]; intros lit; [reflexivity |].
  cbn [app lit_after]. destruct e as [| pins [|] | |]; apply IH.
Qed.

Lemma lit_after_quiet lit (f : tone_event -> app_event) l :
  (forall e, exists s, f e = Sound s) -> lit_after lit (map f l) = lit.
Proof.
  intros Hf. induction l as [| e l IH]; [reflexivity |].
  cbn [map]. destruct (Hf e) as [s ->]. exact IH.
Qed.

Lemma lit_after_bus lit l : lit_after lit (map Bus l) = lit.
Proof. induction l as [| e l IH]; [reflexivity | exact IH]. Qed.

Lemma no_led_in_bus pins s l : ~ In (Led_Write pins s) (map Bus l).
Proof. intros H. apply in_map_iff in H. destruct H as (? & H & _). discriminate. Qed.

Lemma no_led_in_sound pins s l : ~ In (Led_Write pins s) (map Sound l).
Proof. intros H. apply in_map_iff in H. destruct H as (? & H & _). discriminate. Qed.

Lemma feedback_leds ok :
  ok = 0 \/ ok = 1 ->
  lit_after [] (feedback ok) = [] /\
  (forall pins, In (Led_Write pins GPIO_PIN_RESET) (feedback ok) ->
     pins = [if ok =? 1 then LED_B else LED_R]).
Proof.
  assert (G : forall first y s,
             (lit_after [y] [Pause 400; Led_Write [y] GPIO_PIN_SET] = []) ->
             let evs := [Led_Write first GPIO_PIN_SET; Led_Write [y] GPIO_PIN_RESET]
                          ++ map Sound s ++ [Pause 400; Led_Write [y] GPIO_PIN_SET] in
             lit_after [] evs = [] /\
             (forall pins, In (Led_Write pins GPIO_PIN_RESET) evs -> pins = [y])).
  { intros first y s Hy evs. subst evs. split.
    - cbn [app]. cbn [lit_after filter]. rewrite lit_after_app, lit_after_quiet; [exact Hy |].
      intros e. exists e. reflexivity.
    - intros pins H. cbn [app In] in H.
      destruct H as [H | [H | H]]; [discriminate | injection H as <-; reflexivity |].
      apply in_app_or in H. destruct H as [H | H]; [apply no_led_in_sound in H; contradiction |].
      cbn [In] in H. destruct H as [H | [H | []]]; discriminate. }
  intros [-> | ->]; unfold feedback; cbn [Z.eqb negb].
  - generalize wrong_sound. intros s. apply G. reflexivity.
  - generalize correct_sound. intros s. apply G. reflexivity.
Qed.

(** The turn, without the bounds on the score. *)
Lemma quiz_turn_run cfg isspace tolower strcasecmp fmt_int tmp0 qs line eol rest :
  0 <= q_index qs < 3 ->
  uart qs = line ++ eol :: rest ->
  Forall (fun b => is_eol b = false) line -> is_eol eol = true ->
  Z.of_nat (length line) < 31 ->
  let q' := (q_index qs + 1) mod 3 in
  exists ok evs,
    is_answer_correct isspace tolower strcasecmp answers_variants tmp0
      (map to_u8 line ++ repeat 0 (32 - length line)) (q_index qs) = Some ok /\
    (ok = 0 \/ ok = 1) /\
    quiz_turn cfg isspace tolower strcasecmp fmt_int tmp0 qs
    = Some ({| q_index := q';
               score := if q' =? 0 then 0 else score qs + ok;
               lcd := lcd qs; uart := rest |}, evs) /\
    (q' = 0 ->
     exists before,
       evs = before
             ++ map Bus (trace_of (fst (show_final_score_and_reset cfg fmt_int
                                          (score qs + ok))) (lcd qs))
             ++ [Pause 200]) /\
    lit_after [] evs = [] /\
    (forall pins, In (Led_Write pins GPIO_PIN_RESET) evs ->
       pins = [if ok =? 1 then LED_B else LED_R]).
Proof.
  intros Hq Hu Hline He Hlen q'.
  assert (Hrow : exists question row,
            nth_error questions (Z.to_nat (q_index qs)) = Some question /\
            nth_error answers_variants (Z.to_nat (q_index qs)) = Some row).
  { assert (C : q_index qs = 0 \/ q_index qs = 1 \/ q_index qs = 2) by lia.
    destruct C as [-> | [-> | ->]]; eexists; eexists; split; reflexivity. }
  destruct Hrow as (question & row & Hquestion & Hrow).
  destruct (read_answer_line line eol rest Hline He) as [Hread _].
  specialize (Hread Hlen).
  set (rx := map to_u8 line ++ repeat 0 (32 - length line)) in *.
  destruct (is_answer_correct_total isspace tolower strcasecmp answers_variants
              tmp0 rx (q_index qs) row (proj1 Hq) Hrow) as (ok & Hok & Hok01).
  assert (Hq1 : Z.rem (q_index qs + 1) NUM_QUESTIONS = q')
    by (unfold q', NUM_QUESTIONS; apply Z.rem_mod_nonneg; lia).
  set (sc1 := if negb (ok =? 0) then score qs + 1 else score qs).
  assert (Hsc1 : sc1 = score qs + ok)
    by (unfold sc1; destruct Hok01 as [-> | ->]; cbn [Z.eqb negb]; lia).
  set (t1 := trace_of (lcd_clear cfg ;; lcd_show_wrapped cfg question) (lcd qs)).
  set (t2 := trace_of (lcd_clear cfg ;; lcd_put_cur cfg 0 0 ;;
                       lcd_send_string cfg
                         (if negb (ok =? 0) then text_correct else text_wrong)) (lcd qs)).
  set (final := if q' =? 0 then show_final_score_and_reset cfg fmt_int sc1
                else (skip, sc1)).
  set (t3 := trace_of (fst final) (lcd qs)).
  exists ok, (map Bus t1 ++ map Bus t2 ++ feedback ok ++ map Bus t3 ++ [Pause 200]).
  split; [exact Hok |]. split; [exact Hok01 |].
  assert (S3 : state_after (fst final) (lcd qs) = lcd qs).
  { unfold final. destruct (q' =? 0); [apply show_final_score_state | reflexivity]. }
  assert (F2 : snd final = if q' =? 0 then 0 else score qs + ok).
  { unfold final. destruct (q' =? 0); [reflexivity | exact Hsc1]. }
  split; [| split; [| split]].
  - unfold quiz_turn.
    replace (q_index qs <? 0) with false by (symmetry; apply Z.ltb_ge; lia).
    rewrite Hquestion, Hu, Hread.
    rewrite (io_eta (lcd_clear cfg ;; lcd_show_wrapped cfg question) (lcd qs)).
    rewrite andthen_state, lcd_show_wrapped_state.
    change (state_after (lcd_clear cfg) (lcd qs)) with (lcd qs).
    fold rx. rewrite Hok.
    rewrite (io_eta (lcd_clear cfg ;; lcd_put_cur cfg 0 0 ;; lcd_send_string cfg _)
               (lcd qs)).
    rewrite !andthen_state, lcd_send_string_state, lcd_put_cur_state.
    change (state_after (lcd_clear cfg) (lcd qs)) with (lcd qs).
    cbv zeta. rewrite Hq1. fold sc1. fold final.
    rewrite (surjective_pairing final).
    rewrite (io_eta (fst final) (lcd qs)), S3, F2. reflexivity.
  - intros E. unfold t3, final. rewrite E. cbn [Z.eqb]. rewrite Hsc1.
    exists (map Bus t1 ++ map Bus t2 ++ feedback ok).
    rewrite <- !app_assoc. reflexivity.
  - rewrite !lit_after_app, !lit_after_bus.
    rewrite (proj1 (feedback_leds ok Hok01)). reflexivity.
  - intros pins H.
    apply in_app_or in H. destruct H as [H | H]; [apply no_led_in_bus in H; contradiction |].
    apply in_app_or in H. destruct H as [H | H]; [apply no_led_in_bus in H; contradiction |].
    apply in_app_or in H. destruct H as [H | H];
      [apply (proj2 (feedback_leds ok Hok01)); exact H |].
    apply in_app_or in H. destruct H as [H | H]; [apply no_led_in_bus in H; contradiction |].
    destruct H as [H | []]. discriminate.
Qed.

(** X19. One turn of the main loop, when the UART delivers a line of at
    most 30 bytes and its terminator.  The turn consumes exactly that line;
    [q_index] advances cyclically through the three questions; the display
    driver's statics are untouched.  With [ok] the result of
    [is_answer_correct] on the line, 0 or 1, [score] grows by [ok], except
    on the third question, where the final screen is shown for
    [score + ok] as the last thing before the closing pause and [score]
    restarts at 0; a score between 0 and [q_index] stays so.  The only LED
    lit during the turn is the blue one for a correct answer and the red one
    for a wrong one, and no LED is left lit. *)
Theorem quiz_turn_spec cfg isspace tolower strcasecmp fmt_int tmp0 qs line eol rest :
  0 <= q_index qs < 3 ->
  uart qs = line ++ eol :: rest ->
  Forall (fun b => is_eol b = false) line -> is_eol eol = true ->
  Z.of_nat (length line) < 31 ->
  let q' := (q_index qs + 1) mod 3 in
  exists ok evs,
    is_answer_correct isspace tolower strcasecmp answers_variants tmp0
      (map to_u8 line ++ repeat 0 (32 - length line)) (q_index qs) = Some ok /\
    (ok = 0 \/ ok = 1) /\
    quiz_turn cfg isspace tolower strcasecmp fmt_int tmp0 qs
    = Some ({| q_index := q';
               score := if q' =? 0 then 0 else score qs + ok;
               lcd := lcd qs; uart := rest |}, evs) /\
    (0 <= score qs <= q_index qs ->
     0 <= (if q' =? 0 then 0 else score qs + ok) <= q') /\
    (q' = 0 ->
     exists before,
       evs = before
             ++ map Bus (trace_of (fst (show_final_score_and_reset cfg fmt_int
                                          (score qs + ok))) (lcd qs))
             ++ [Pause 200]) /\
    lit_after [] evs = [] /\
    (forall pins, In (Led_Write pins GPIO_PIN_RESET) evs ->
       pins = [if ok =? 1 then LED_B else LED_R]).
Proof.
  intros Hq Hu Hline He Hlen q'.
  destruct (quiz_turn_run cfg isspace tolower strcasecmp fmt_int tmp0 qs line eol rest
              Hq Hu Hline He Hlen) as (ok & evs & Hok & Hok01 & Ht & Hfinal & Hlit & Hpins).
  exists ok, evs. repeat split; try assumption.
  - destruct (q' =? 0); lia.
  - unfold q'. destruct (Z.eqb_spec ((q_index qs + 1) mod 3) 0) as [E | E]; [lia |].
    assert (q_index qs <> 2) by (intros E2; apply E; rewrite E2; reflexivity).
    rewrite Z.mod_small by lia. lia.
Qed.

Lemma quiz_turn_spec_witness :
  let qs := {| q_index := 2; score := 2; lcd := power_on;
               uart := [32; 84; 111; 107; 121; 111; 32; 10; 7] |} in
  (0 <= q_index qs < 3 /\
   uart qs = [32; 84; 111; 107; 121; 111; 32] ++ 10 :: [7] /\
   Forall (fun b => is_eol b = false) [32; 84; 111; 107; 121; 111; 32] /\
   is_eol 10 = true) /\
  exists evs,
    is_answer_correct isspace_C tolower_C strcasecmp_C answers_variants (repeat 0 64)
      (map to_u8 [32; 84; 111; 107; 121; 111; 32] ++ repeat 0 25) 2 = Some 1 /\
    quiz_turn i2c_h isspace_C tolower_C strcasecmp_C fmt_int_C (repeat 0 64) qs
    = Some ({| q_index := 0; score := 0; lcd := power_on; uart := [7] |}, evs).
Proof.
  intros qs.
  assert (H1 : 0 <= q_index qs < 3) by (cbn; lia).
  assert (H2 : uart qs = [32; 84; 111; 107; 121; 111; 32] ++ 10 :: [7]) by reflexivity.
  assert (H3 : Forall (fun b => is_eol b = false) [32; 84; 111; 107; 121; 111; 32])
    by (repeat constructor).
  assert (H4 : is_eol 10 = true) by reflexivity.
  split; [auto |].
  destruct (quiz_turn_spec i2c_h isspace_C tolower_C strcasecmp_C fmt_int_C (repeat 0 64)
              qs _ _ _ H1 H2 H3 H4 ltac:(cbn; lia)) as (ok & evs & _ & _ & Ht & _).
  exists evs. split; [vm_compute; reflexivity | exact Ht].
Defined.

(** X20. A round: three turns from the state [main] starts its loop in,
    [q_index = 0] and [score = 0], with three lines of at most 30 bytes
    arriving on the UART.  The round consumes the three lines and is back in
    the starting state; the last thing it does before its closing pause is
    to show the final screen for the number of lines that
    [is_answer_correct] accepted, each for its own question; no LED is left
    lit. *)
Theorem quiz_round_score cfg isspace tolower strcasecmp fmt_int tmp1 tmp2 tmp3 st
    l1 e1 l2 e2 l3 e3 rest :
  Forall (fun b => is_eol b = false) l1 -> is_eol e1 = true ->
  Z.of_nat (length l1) < 31 ->
  Forall (fun b => is_eol b = false) l2 -> is_eol e2 = true ->
  Z.of_nat (length l2) < 31 ->
  Forall (fun b => is_eol b = false) l3 -> is_eol e3 = true ->
  Z.of_nat (length l3) < 31 ->
  let answer idx tmp line :=
    is_answer_correct isspace tolower strcasecmp answers_variants tmp
      (map to_u8 line ++ repeat 0 (32 - length line)) idx in
  exists ok1 ok2 ok3 evs,
    answer 0 tmp1 l1 = Some ok1 /\ answer 1 tmp2 l2 = Some ok2 /\
    answer 2 tmp3 l3 = Some ok3 /\
    0 <= ok1 + ok2 + ok3 <= 3 /\
    quiz_round cfg isspace tolower strcasecmp fmt_int tmp1 tmp2 tmp3
      {| q_index := 0; score := 0; lcd := st;
         uart := l1 ++ e1 :: l2 ++ e2 :: l3 ++ e3 :: rest |}
    = Some ({| q_index := 0; score := 0; lcd := st; uart := rest |}, evs) /\
    (exists before,
       evs = before
             ++ map Bus (trace_of (fst (show_final_score_and_reset cfg fmt_int
                                          (ok1 + ok2 + ok3))) st)
             ++ [Pause 200]) /\
    lit_after [] evs = [].
Proof.
  intros F1 E1 L1 F2 E2 L2 F3 E3 L3 answer.
  destruct (quiz_turn_run cfg isspace tolower strcasecmp fmt_int tmp1
              {| q_index := 0; score := 0; lcd := st;
                 uart := l1 ++ e1 :: l2 ++ e2 :: l3 ++ e3 :: rest |}
              l1 e1 (l2 ++ e2 :: l3 ++ e3 :: rest) ltac:(cbn; lia) eq_refl F1 E1 L1)
    as (ok1 & ev1 & A1 & O1 & T1 & _ & Q1 & _).
  cbn [q_index score lcd uart] in A1, T1.
  change ((0 + 1) mod 3) with 1 in T1. cbn [Z.eqb] in T1.
  destruct (quiz_turn_run cfg isspace tolower strcasecmp fmt_int tmp2
              {| q_index := 1; score := 0 + ok1; lcd := st;
                 uart := l2 ++ e2 :: l3 ++ e3 :: rest |}
              l2 e2 (l3 ++ e3 :: rest) ltac:(cbn; lia) eq_refl F2 E2 L2)
    as (ok2 & ev2 & A2 & O2 & T2 & _ & Q2 & _).
  cbn [q_index score lcd uart] in A2, T2.
  change ((1 + 1) mod 3) with 2 in T2. cbn [Z.eqb] in T2.
  destruct (quiz_turn_run cfg isspace tolower strcasecmp fmt_int tmp3
              {| q_index := 2; score := 0 + ok1 + ok2; lcd := st;
                 uart := l3 ++ e3 :: rest |}
              l3 e3 rest ltac:(cbn; lia) eq_refl F3 E3 L3)
    as (ok3 & ev3 & A3 & O3 & T3 & S3 & Q3 & _).
  cbn [q_index score lcd uart] in A3, T3, S3.
  change ((2 + 1) mod 3) with 0 in T3, S3. cbn [Z.eqb] in T3.
  destruct (S3 eq_refl) as (before & B3).
  exists ok1, ok2, ok3, (ev1 ++ ev2 ++ ev3).
  split; [exact A1 |]. split; [exact A2 |]. split; [exact A3 |].
  split; [lia |]. split; [| split].
  - unfold quiz_round. rewrite T1, T2, T3. reflexivity.
  - exists (ev1 ++ ev2 ++ before). rewrite B3.
    replace (0 + ok1 + ok2 + ok3) with (ok1 + ok2 + ok3) by lia.
    rewrite <- !app_assoc. reflexivity.
  - rewrite !lit_after_app, Q1, Q2, Q3. reflexivity.
Qed.

Lemma quiz_round_score_witness :
  (Forall (fun b => is_eol b = false) [50; 48; 54] /\ is_eol 13 = true /\
   Forall (fun b => is_eol b = false) [80; 72; 80] /\ is_eol 10 = true /\
   Forall (fun b => is_eol b = false) [75; 121; 111; 116; 111]) /\
  exists evs,
    quiz_round i2c_h isspace_C tolower_C strcasecmp_C fmt_int_C
      (repeat 0 64) (repeat 0 64) (repeat 0 64)
      {| q_index := 0; score := 0; lcd := power_on;
         uart := [50; 48; 54; 13; 80; 72; 80; 10; 75; 121; 111; 116; 111; 10; 9] |}
    = Some ({| q_index := 0; score := 0; lcd := power_on; uart := [9] |}, evs) /\
    exists before,
      evs = before
            ++ map Bus (trace_of (fst (show_final_score_and_reset i2c_h fmt_int_C 2))
                          power_on)
            ++ [Pause 200].
Proof.
  assert (F1 : Forall (fun b => is_eol b = false) [50; 48; 54]) by (repeat constructor).
  assert (F2 : Forall (fun b => is_eol b = false) [80; 72; 80]) by (repeat constructor).
  assert (F3 : Forall (fun b => is_eol b = false) [75; 121; 111; 116; 111])
    by (repeat constructor).
  assert (E1 : is_eol 13 = true) by reflexivity.
  assert (E2 : is_eol 10 = true) by reflexivity.
  split; [auto |].
  destruct (quiz_round_score i2c_h isspace_C tolower_C strcasecmp_C fmt_int_C
              (repeat 0 64) (repeat 0 64) (repeat 0 64) power_on
              [50; 48; 54] 13 [80; 72; 80] 10 [75; 121; 111; 116; 111] 10 [9]
              F1 E1 ltac:(cbn; lia) F2 E2 ltac:(cbn; lia) F3 E2 ltac:(cbn; lia))
    as (ok1 & ok2 & ok3 & evs & A1 & A2 & A3 & _ & T & (before & B) & _).
  vm_compute in A1. vm_compute in A2. vm_compute in A3.
  injection A1 as <-. injection A2 as <-. injection A3 as <-.
  exists evs. split; [exact T |]. exists before. exact B.
Defined.

End QuizFacts.
